(** * Block memory system: frame cache and block driver

    A shallow embedding of [block_cache.c] and [block_driver.c].

    - C integers are [Z]; the unsigned 16-bit counters of the cache wrap
      around explicitly ([u16]); signed 32-bit cursor arithmetic is checked
      ([i32]), an overflow being undefined in C.
    - Arrays are lists read with [!!] and updated with [<[_:=_]>].  An access
      outside the array, a [memcpy] outside its buffers and a use of the
      cache array after [free] are undefined behaviour in C: every operation
      returns an [option], and [None] stands for undefined behaviour.
    - The globals of the two translation units are the fields of [cache_t]
      and [state]; a [file_t*] held by a handle is an index into the file
      table, so that two handles of one file share it.
    - The headers [block_controller.h], [block_driver_helper.h] and
      [block_cache.h] are not part of the sources: their constants and types
      are the fields of [BlockParams], their functions are modelled from the
      specification and marked as such. *)

From Stdlib Require Import ZArith List String Lia.
From stdpp Require Import prelude strings.

Local Open Scope Z_scope.

(** ** Data model *)

(** A frame buffer: [BLOCK_FRAME_SIZE] bytes. *)
Definition frame_t := list Z.

(** [file_t]: the name (the bytes of the [name] array before its
    terminator), the size in bytes and the frame numbers allocated so far, in
    file order. *)
Record file_t := File {
  name : string;
  size : Z;
  frames : list Z
}.

Inductive status_t := CLOSED | OPEN.

(** [fh_t]: [file] is the pointer to the file table entry ([None] is the
    null pointer of a zeroed handle), [loc] the cursor. *)
Record fh_t := Handle {
  file : option nat;
  loc : Z;
  status : status_t
}.

(** Constants, types and helpers declared in headers outside the sources. *)
Class BlockParams := {
  (** bytes in a frame *)
  BLOCK_FRAME_SIZE : Z;
  (** length of the [files] and [handles] arrays *)
  BLOCK_MAX_TOTAL_FILES : nat;
  (** number of frames of the device *)
  BLOCK_NUM_FRAMES : Z;
  (** width in bits of the type [BlockFrameIndex] *)
  FRM_BITS : Z;
  (** initial value of [block_cache_max_items] *)
  DEFAULT_BLOCK_FRAME_CACHE_SIZE : Z;
  (** a [file_t] read out of the first [sizeof(file_t)] bytes of a frame *)
  file_of_frame : frame_t → file_t;
  (** the [sizeof(frame_t)] bytes starting at a file table entry *)
  frame_of_file : file_t → frame_t;
  (** first unused frame number of a file table *)
  getFreeFrame : list file_t → Z;
  (** number of files of a file table *)
  getNbFiles : list file_t → Z
}.

(** ** Machine arithmetic and memory *)

Definition u16 (z : Z) : Z := z mod 65536.

Definition u32 (z : Z) : Z := z mod 4294967296.

(** Conversion of an unsigned 32-bit value to [int32_t]. *)
Definition s32 (z : Z) : Z := (z + 2147483648) mod 4294967296 - 2147483648.

(** The result of signed 32-bit arithmetic; overflow is undefined. *)
Definition i32 (z : Z) : option Z :=
  if bool_decide (-2147483648 ≤ z ≤ 2147483647) then Some z else None.

(** [a[z]] for an array [a] and a C integer [z]. *)
Definition at_Z {A} (a : list A) (z : Z) : option A :=
  if bool_decide (0 ≤ z) then a !! Z.to_nat z else None.

(** [a[z] = x]. *)
Definition set_Z {A} (a : list A) (z : Z) (x : A) : option (list A) :=
  if bool_decide (0 ≤ z < Z.of_nat (length a)) then Some (<[Z.to_nat z := x]> a)
  else None.

(** [memcpy(dst + doff, src + soff, n)]: the contents of [dst] afterwards. *)
Definition memcpy (dst : list Z) (doff : Z) (src : list Z) (soff n : Z)
  : option (list Z) :=
  if bool_decide (0 ≤ n ∧ 0 ≤ doff ∧ 0 ≤ soff
                  ∧ doff + n ≤ Z.of_nat (length dst)
                  ∧ soff + n ≤ Z.of_nat (length src))
  then Some (take (Z.to_nat doff) dst
             ++ take (Z.to_nat n) (drop (Z.to_nat soff) src)
             ++ drop (Z.to_nat (doff + n)) dst)
  else None.

(** [memcmp(a, b, n) == 0] on the bytes of two names. *)
Definition memcmp_eq (a b : string) (n : nat) : bool :=
  bool_decide (substring 0 n a = substring 0 n b).

Definition strlen (s : string) : nat := String.length s.

(** ** The frame cache ([block_cache.c]) *)

Record cacheEntry := CacheEntry {
  block : Z;
  frm : Z;
  access : Z;
  cacheFrame : frame_t
}.

(** The globals of [block_cache.c].  [cache] is the array behind the pointer
    of that name: empty before [malloc] and after [free]. *)
Record cache_t := Cache {
  block_cache_max_items : Z;
  cache : list cacheEntry;
  putTracker : Z;
  lastAccess : Z;
  cacheOn : bool
}.

Section Model.
Context `{P : BlockParams}.

(** Conversion of a C integer to [BlockFrameIndex]; two indices are [==]
    exactly when their [FRM_BITS] low bits agree. *)
Definition to_frm (z : Z) : Z := z mod 2 ^ FRM_BITS.

(** The frame number [-1] that marks an empty slot. *)
Definition NO_FRAME : Z := to_frm (-1).

Definition zero_frame : frame_t := replicate (Z.to_nat BLOCK_FRAME_SIZE) 0.

(** A slot after the body of the loop of [init_block_cache]: zeroed, with
    [frm] set to -1. *)
Definition empty_entry : cacheEntry :=
  {| block := 0; frm := NO_FRAME; access := 0; cacheFrame := zero_frame |}.

(** The state of [block_cache.c] when the program starts. *)
Definition cache_boot : cache_t :=
  {| block_cache_max_items := DEFAULT_BLOCK_FRAME_CACHE_SIZE;
     cache := [];
     putTracker := 0;
     lastAccess := 0;
     cacheOn := false |}.

Definition set_block_cache_size (max_frames : Z) (c : cache_t) : cache_t * Z :=
  ({| block_cache_max_items := u32 max_frames;
      cache := cache c;
      putTracker := putTracker c;
      lastAccess := lastAccess c;
      cacheOn := cacheOn c |}, 0).

Definition init_block_cache (c : cache_t) : cache_t * Z :=
  if cacheOn c then (c, -1)
  else
    ({| block_cache_max_items := block_cache_max_items c;
        cache := replicate (Z.to_nat (block_cache_max_items c)) empty_entry;
        putTracker := putTracker c;
        lastAccess := lastAccess c;
        cacheOn := true |}, 0).

(** A slot after [memset(&cache[i], 0, sizeof(blockCache))]. *)
Definition zero_entry : cacheEntry :=
  {| block := 0; frm := 0; access := 0; cacheFrame := zero_frame |}.

(** The loop of [close_block_cache] that zeroes the [n] slots from [i]
    on. *)
Fixpoint clear_slots (entries : list cacheEntry) (i n : nat)
  : option (list cacheEntry) :=
  match n with
  | O => Some entries
  | S n' =>
      _ ← entries !! i;
      clear_slots (<[i := zero_entry]> entries) (S i) n'
  end.

(** The array is zeroed slot by slot, up to [block_cache_max_items], and
    then freed. *)
Definition close_block_cache (c : cache_t) : option (cache_t * Z) :=
  if negb (cacheOn c) then Some (c, -1)
  else
    _ ← clear_slots (cache c) 0 (Z.to_nat (block_cache_max_items c));
    Some ({| block_cache_max_items := block_cache_max_items c;
             cache := [];
             putTracker := putTracker c;
             lastAccess := lastAccess c;
             cacheOn := false |}, 0).

(** [for (i = ...; i < block_cache_max_items; i++) if (cache[i].frm == f)]:
    the first slot that holds [f] among the [n] slots from [i] on. *)
Fixpoint find_frm (entries : list cacheEntry) (f : Z) (i n : nat)
  : option (option nat) :=
  match n with
  | O => Some None
  | S n' =>
      e ← entries !! i;
      if bool_decide (frm e = f) then Some (Some i)
      else find_frm entries f (S i) n'
  end.

(** The eviction scan of [put_block_cache]: [index] after the loop. *)
Fixpoint find_lru (entries : list cacheEntry) (i n : nat)
    (replaceTracker index : Z) : option Z :=
  match n with
  | O => Some index
  | S n' =>
      e ← entries !! i;
      if bool_decide (access e < replaceTracker)
      then find_lru entries (S i) n' (access e) (u16 (Z.of_nat i))
      else find_lru entries (S i) n' replaceTracker index
  end.

Definition with_slot (c : cache_t) (i : nat) (e : cacheEntry) (pt la : Z)
  : cache_t :=
  {| block_cache_max_items := block_cache_max_items c;
     cache := <[i := e]> (cache c);
     putTracker := pt;
     lastAccess := la;
     cacheOn := cacheOn c |}.

Definition put_block_cache (blk f : Z) (buf : frame_t) (c : cache_t)
  : option (cache_t * Z) :=
  if negb (cacheOn c) then Some (c, -1)
  else
    let f := to_frm f in
    let n := Z.to_nat (block_cache_max_items c) in
    let la := u16 (lastAccess c + 1) in
    hit ← find_frm (cache c) f 0 n;
    match hit with
    | Some i =>
        e ← cache c !! i;
        data ← memcpy (cacheFrame e) 0 buf 0 BLOCK_FRAME_SIZE;
        Some (with_slot c i
                {| block := block e; frm := frm e; access := la;
                   cacheFrame := data |}
                (putTracker c) la, 0)
    | None =>
        if bool_decide (putTracker c < block_cache_max_items c) then
          e ← at_Z (cache c) (putTracker c);
          data ← memcpy (cacheFrame e) 0 buf 0 BLOCK_FRAME_SIZE;
          Some (with_slot c (Z.to_nat (putTracker c))
                  {| block := blk; frm := f; access := la;
                     cacheFrame := data |}
                  (u16 (putTracker c + 1)) la, 0)
        else
          e0 ← cache c !! 0%nat;
          index ← find_lru (cache c) 0 n (access e0) 0;
          e ← at_Z (cache c) index;
          data ← memcpy (cacheFrame e) 0 buf 0 BLOCK_FRAME_SIZE;
          Some (with_slot c (Z.to_nat index)
                  {| block := blk; frm := f; access := la;
                     cacheFrame := data |}
                  (putTracker c) la, 0)
    end.

(** The result is the cache afterwards and the frame behind the returned
    pointer, [None] for [NULL]. *)
Definition get_block_cache (blk f : Z) (c : cache_t)
  : option (cache_t * option frame_t) :=
  let n := Z.to_nat (block_cache_max_items c) in
  let la := u16 (lastAccess c + 1) in
  hit ← find_frm (cache c) (to_frm f) 0 n;
  match hit with
  | Some i =>
      e ← cache c !! i;
      Some (with_slot c i
              {| block := block e; frm := frm e; access := la;
                 cacheFrame := cacheFrame e |}
              (putTracker c) la, Some (cacheFrame e))
  | None => Some (c, None)
  end.

(** ** The device *)

Inductive opcode :=
  | BLOCK_OP_INITMS
  | BLOCK_OP_BZERO
  | BLOCK_OP_RDFRME
  | BLOCK_OP_WRFRME
  | BLOCK_OP_POWOFF.

(** The persistent storage: its contents when the program starts and the
    frame writes issued since, the most recent first. *)
Record device_t := Device {
  media : Z → frame_t;
  wlog : list (Z * frame_t)
}.

(** The data of the most recent write issued for frame [n]. *)
Fixpoint last_write (log : list (Z * frame_t)) (n : Z) : option frame_t :=
  match log with
  | [] => None
  | (m, fr) :: log' => if bool_decide (m = n) then Some fr else last_write log' n
  end.

(** The contents of frame [n]. *)
Definition dev_frame (d : device_t) (n : Z) : frame_t :=
  default (media d n) (last_write (wlog d) n).

(** Modelled from the spec: [executeOpcode] of the helper module, the
    Frame Executor, is not part of the sources.  It transfers one frame
    between the buffer and the numbered frame of the storage, which keeps
    what was written to it; the other opcodes carry no payload.  The result
    is the device and the buffer afterwards. *)
Definition executeOpcode (buf : frame_t) (op : opcode) (n : Z) (d : device_t)
  : device_t * frame_t :=
  match op with
  | BLOCK_OP_RDFRME => (d, dev_frame d n)
  | BLOCK_OP_WRFRME => ({| media := media d; wlog := (n, buf) :: wlog d |}, buf)
  | BLOCK_OP_BZERO => ({| media := λ _, zero_frame; wlog := [] |}, buf)
  | BLOCK_OP_INITMS | BLOCK_OP_POWOFF => (d, buf)
  end.

(** ** The driver ([block_driver.c]) *)

(** The globals of [block_driver.c], the globals of the cache and the
    device. *)
Record state := State {
  isOn : bool;
  nbFiles : Z;
  nbHandles : Z;
  freeFrameNr : Z;
  files : list file_t;
  handles : list fh_t;
  bcache : cache_t;
  device : device_t
}.

Definition set_files (s : state) (fs : list file_t) : state :=
  {| isOn := isOn s; nbFiles := nbFiles s; nbHandles := nbHandles s;
     freeFrameNr := freeFrameNr s; files := fs; handles := handles s;
     bcache := bcache s; device := device s |}.

Definition set_handles (s : state) (hs : list fh_t) : state :=
  {| isOn := isOn s; nbFiles := nbFiles s; nbHandles := nbHandles s;
     freeFrameNr := freeFrameNr s; files := files s; handles := hs;
     bcache := bcache s; device := device s |}.

Definition set_bcache (s : state) (c : cache_t) : state :=
  {| isOn := isOn s; nbFiles := nbFiles s; nbHandles := nbHandles s;
     freeFrameNr := freeFrameNr s; files := files s; handles := handles s;
     bcache := c; device := device s |}.

Definition set_device (s : state) (d : device_t) : state :=
  {| isOn := isOn s; nbFiles := nbFiles s; nbHandles := nbHandles s;
     freeFrameNr := freeFrameNr s; files := files s; handles := handles s;
     bcache := bcache s; device := d |}.

Definition set_nbFiles (s : state) (n : Z) : state :=
  {| isOn := isOn s; nbFiles := n; nbHandles := nbHandles s;
     freeFrameNr := freeFrameNr s; files := files s; handles := handles s;
     bcache := bcache s; device := device s |}.

Definition set_nbHandles (s : state) (n : Z) : state :=
  {| isOn := isOn s; nbFiles := nbFiles s; nbHandles := n;
     freeFrameNr := freeFrameNr s; files := files s; handles := handles s;
     bcache := bcache s; device := device s |}.

Definition set_freeFrameNr (s : state) (n : Z) : state :=
  {| isOn := isOn s; nbFiles := nbFiles s; nbHandles := nbHandles s;
     freeFrameNr := n; files := files s; handles := handles s;
     bcache := bcache s; device := device s |}.

(** A zeroed [file_t] and a zeroed [fh_t]; [CLOSED] is the status of value
    zero. *)
Definition zero_file : file_t := {| name := ""; size := 0; frames := [] |}.

Definition zero_handle : fh_t := {| file := None; loc := 0; status := CLOSED |}.

(** The globals when the program starts, on a device [d] and with the
    cache configured for [DEFAULT_BLOCK_FRAME_CACHE_SIZE] frames. *)
Definition boot (d : device_t) : state :=
  {| isOn := false; nbFiles := 0; nbHandles := 0; freeFrameNr := 0;
     files := replicate BLOCK_MAX_TOTAL_FILES zero_file;
     handles := replicate BLOCK_MAX_TOTAL_FILES zero_handle;
     bcache := cache_boot;
     device := d |}.

(** *** The helpers of [block_driver_helper.h] *)

(** Modelled from the spec: [createNewFile] is not part of the sources.
    The new file table entry has the given name, zero size and an empty
    frame list. *)
Definition createNewFile (path : string) : file_t :=
  {| name := path; size := 0; frames := [] |}.

(** Modelled from the spec: [openFile] is not part of the sources.  The
    handle is bound to the file, with its cursor at 0 and status open. *)
Definition openFile (fi : nat) : fh_t :=
  {| file := Some fi; loc := 0; status := OPEN |}.

(** Modelled from the spec: [closeFile] is not part of the sources.  It
    marks the handle closed. *)
Definition closeFile (h : fh_t) : fh_t :=
  {| file := file h; loc := loc h; status := CLOSED |}.

(** Modelled from the spec: [closeAllFiles] is not part of the sources.  It
    closes all open handles. *)
Definition closeAllFiles (hs : list fh_t) : list fh_t := closeFile <$> hs.

(** Number of frames that hold [n] bytes. *)
Definition frames_for (n : Z) : Z :=
  (n + BLOCK_FRAME_SIZE - 1) `div` BLOCK_FRAME_SIZE.

(** Modelled from the spec: [allocateNewFrames] is not part of the sources.
    It ensures that the file of the handle has the frames to cover
    [cursor + count] bytes, extending its frame list with the next free
    frame numbers, and fails, changing nothing, when the device has not
    that many frames left. *)
Definition allocateNewFrames (fd : Z) (count : Z) (s : state)
  : option (state * Z) :=
  h ← at_Z (handles s) fd;
  fi ← file h;
  f ← files s !! fi;
  let missing := frames_for (loc h + count) - Z.of_nat (length (frames f)) in
  if bool_decide (missing ≤ 0) then Some (s, 0)
  else if bool_decide (BLOCK_NUM_FRAMES < freeFrameNr s + missing)
  then Some (s, -1)
  else
    let f' := {| name := name f; size := size f;
                 frames := frames f ++ seqZ (freeFrameNr s) missing |} in
    Some (set_freeFrameNr (set_files s (<[fi := f']> (files s)))
            (freeFrameNr s + missing), 0).

(** *** Power on and power off *)

(** The loop of [block_poweron] that reads the metadata frames. *)
Definition load_files (d : device_t) : list file_t :=
  (λ i, file_of_frame (snd (executeOpcode zero_frame BLOCK_OP_RDFRME i d)))
    <$> seqZ 0 (Z.of_nat BLOCK_MAX_TOTAL_FILES).

Definition block_poweron (s : state) : state * Z :=
  if isOn s then (s, -1)
  else
    let d := fst (executeOpcode [] BLOCK_OP_INITMS 0 (device s)) in
    let fs := load_files d in
    let '(c, r) := init_block_cache (bcache s) in
    let s' :=
      {| isOn := true;
         nbFiles := getNbFiles fs;
         nbHandles := 0;
         freeFrameNr := getFreeFrame fs;
         files := fs;
         handles := replicate BLOCK_MAX_TOTAL_FILES zero_handle;
         bcache := c;
         device := d |} in
    if bool_decide (r = -1) then (s', -1) else (s', 0).

(** The loop of [block_poweroff] that writes the metadata frames, from
    file table entry [i] on. *)
Fixpoint save_files (fs : list file_t) (i : Z) (d : device_t) : device_t :=
  match fs with
  | [] => d
  | f :: fs' =>
      save_files fs' (i + 1)
        (fst (executeOpcode (frame_of_file f) BLOCK_OP_WRFRME i d))
  end.

Definition block_poweroff (s : state) : option (state * Z) :=
  if negb (isOn s) then Some (s, -1)
  else
    '(c, r) ← close_block_cache (bcache s);
    if bool_decide (r = -1) then Some (set_bcache s c, -1)
    else
      let d := save_files (files s) 0 (device s) in
      let d := fst (executeOpcode [] BLOCK_OP_POWOFF 0 d) in
      Some ({| isOn := isOn s;
               nbFiles := 0;
               nbHandles := 0;
               freeFrameNr := 0;
               files := files s;
               handles := closeAllFiles (handles s);
               bcache := c;
               device := d |}, 0).

(** *** Open and close *)

(** [while (i < nbFiles && !found)]: the final [i] and [found], with [n]
    entries left to look at. *)
Fixpoint search_file (fs : list file_t) (path : string) (i n : nat)
  : option (nat * bool) :=
  match n with
  | O => Some (i, false)
  | S n' =>
      f ← fs !! i;
      if memcmp_eq (name f) path (strlen path) then Some (i, true)
      else search_file fs path (S i) n'
  end.

(** Conversion of an [int] to [int16_t]. *)
Definition s16 (z : Z) : Z := (z + 32768) mod 65536 - 32768.

Definition block_open (path : string) (s : state) : option (state * Z) :=
  if negb (isOn s) then Some (s, -1)
  else
    '(i, found) ← search_file (files s) path 0 (Z.to_nat (nbFiles s));
    '(s1, i) ←
      (if found : bool then Some (s, i)
       else
         fs ← set_Z (files s) (nbFiles s) (createNewFile path);
         Some (set_nbFiles (set_files s fs) (nbFiles s + 1),
               Z.to_nat (nbFiles s)));
    hs ← set_Z (handles s1) (nbHandles s1) (openFile i);
    Some (set_nbHandles (set_handles s1 hs) (nbHandles s1 + 1),
          s16 (nbHandles s1)).

Definition block_close (fd : Z) (s : state) : option (state * Z) :=
  if negb (isOn s) then Some (s, -1)
  else
    h ← at_Z (handles s) fd;
    match status h with
    | CLOSED => Some (s, -1)
    | OPEN =>
        Some (set_handles s (<[Z.to_nat fd := closeFile h]> (handles s)), 0)
    end.

(** *** Read, write and seek *)

(** The part of both loops that brings frame [frame_nr] into the local
    buffer [frame]: from the cache on a hit, else from the device, and then
    [block_read] ([fill] is true) puts it into the cache. *)
Definition load_frame (fill : bool) (frame_nr : Z) (s : state)
  : option (state * frame_t) :=
  '(c, pointer) ← get_block_cache 0 frame_nr (bcache s);
  match pointer with
  | None =>
      let '(d, frame) :=
        executeOpcode zero_frame BLOCK_OP_RDFRME frame_nr (device s) in
      if fill then
        '(c', _) ← put_block_cache 0 frame_nr frame c;
        Some (set_device (set_bcache s c') d, frame)
      else Some (set_device (set_bcache s c) d, frame)
  | Some p =>
      frame ← memcpy zero_frame 0 p 0 BLOCK_FRAME_SIZE;
      Some (set_bcache s c, frame)
  end.

(** [data_size] of both loops. *)
Definition chunk (frame_offset remaining : Z) : Z :=
  if bool_decide (BLOCK_FRAME_SIZE - frame_offset > remaining) then remaining
  else BLOCK_FRAME_SIZE - frame_offset.

(** [while (remaining != 0)] of [block_read], on file table entry [fi]; the
    result is the state, [loc] and the caller's buffer after the loop. *)
Fixpoint read_loop (fuel : nat) (fi : nat) (s : state)
    (loc remaining bufOffset : Z) (buf : list Z)
  : option (state * Z * list Z) :=
  if bool_decide (remaining = 0) then Some (s, loc, buf)
  else
    match fuel with
    | O => None
    | S fuel' =>
        f ← files s !! fi;
        let frame_offset := Z.rem loc BLOCK_FRAME_SIZE in
        frame_nr ← at_Z (frames f) (Z.quot loc BLOCK_FRAME_SIZE);
        '(s1, frame) ← load_frame true frame_nr s;
        let data_size := chunk frame_offset remaining in
        buf' ← memcpy buf bufOffset frame frame_offset data_size;
        loc' ← i32 (loc + data_size);
        read_loop fuel' fi s1 loc' (remaining - data_size)
          (bufOffset + data_size) buf'
    end.

Definition set_loc (s : state) (fd : Z) (h : fh_t) (l : Z) : state :=
  set_handles s
    (<[Z.to_nat fd := {| file := file h; loc := l; status := status h |}]>
       (handles s)).

(** [buf] is the caller's buffer; the result is the state, the returned
    value and the buffer afterwards.  Each turn of the loop copies at least
    one byte, so [count] turns are enough. *)
Definition block_read (fd : Z) (buf : list Z) (count : Z) (s : state)
  : option (state * Z * list Z) :=
  if negb (isOn s) then Some (s, -1, buf)
  else
    h ← at_Z (handles s) fd;
    match status h with
    | CLOSED => Some (s, -1, buf)
    | OPEN =>
        fi ← file h;
        f ← files s !! fi;
        let count :=
          if bool_decide (size f - loc h < count) then size f - loc h
          else count in
        '(s1, l, buf') ← read_loop (Z.to_nat count) fi s (loc h) count 0 buf;
        h1 ← at_Z (handles s1) fd;
        Some (set_loc s1 fd h1 l, count, buf')
    end.

(** [while (remaining > 0)] of [block_write], on file table entry [fi]. *)
Fixpoint write_loop (fuel : nat) (fi : nat) (s : state)
    (loc remaining bufOffset : Z) (buf : list Z) : option (state * Z) :=
  if bool_decide (remaining > 0) then
    match fuel with
    | O => None
    | S fuel' =>
        f ← files s !! fi;
        frame_nr ← at_Z (frames f) (Z.quot loc BLOCK_FRAME_SIZE);
        let frame_offset := Z.rem loc BLOCK_FRAME_SIZE in
        '(s1, frame) ← load_frame false frame_nr s;
        let data_size := chunk frame_offset remaining in
        frame' ← memcpy frame frame_offset buf bufOffset data_size;
        let d := fst (executeOpcode frame' BLOCK_OP_WRFRME frame_nr (device s1)) in
        '(c, _) ← put_block_cache 0 frame_nr frame' (bcache s1);
        loc' ← i32 (loc + data_size);
        write_loop fuel' fi (set_device (set_bcache s1 c) d) loc'
          (remaining - data_size) (bufOffset + data_size) buf
    end
  else Some (s, loc).

Definition block_write (fd : Z) (buf : list Z) (count : Z) (s : state)
  : option (state * Z) :=
  h ← at_Z (handles s) fd;
  match status h with
  | CLOSED => Some (s, -1)
  | OPEN =>
      fi ← file h;
      '(s0, r) ← allocateNewFrames fd count s;
      if bool_decide (r = -1) then Some (s0, -1)
      else
        '(s1, l) ← write_loop (Z.to_nat count) fi s0 (loc h) count 0 buf;
        h1 ← at_Z (handles s1) fd;
        let s2 := set_loc s1 fd h1 l in
        f ← files s2 !! fi;
        if bool_decide (size f < l) then
          Some (set_files s2
                  (<[fi := {| name := name f; size := l; frames := frames f |}]>
                     (files s2)), count)
        else Some (s2, count)
  end.

(** [loc] is the [uint32_t] argument: the comparison converts the size to
    unsigned, the assignment converts [loc] to the type of the cursor. *)
Definition block_seek (fd : Z) (loc : Z) (s : state) : option (state * Z) :=
  h ← at_Z (handles s) fd;
  match status h with
  | CLOSED => Some (s, -1)
  | OPEN =>
      fi ← file h;
      f ← files s !! fi;
      if bool_decide (u32 (size f) < loc) then Some (s, -1)
      else Some (set_loc s fd h (s32 loc), 0)
  end.

End Model.

(** ** Vocabulary of the statements *)

Section Vocabulary.
Context `{P : BlockParams}.

(** A frame number that the index type holds apart from the marker of an
    empty slot. *)
Definition valid_frame (f : Z) : Prop := 0 ≤ f < NO_FRAME.

(** What the slots of the cache hold, recency left out. *)
Definition slots (c : cache_t) : list (Z * frame_t) :=
  (λ e, (frm e, cacheFrame e)) <$> cache c.

(** The cache array is allocated for [block_cache_max_items] slots of
    frame-sized buffers, and [putTracker] is a 16-bit value. *)
Definition cache_ok (c : cache_t) : Prop :=
  cacheOn c = true
  ∧ length (cache c) = Z.to_nat (block_cache_max_items c)
  ∧ 0 < block_cache_max_items c
  ∧ 0 ≤ putTracker c < 65536
  ∧ Forall (λ e, length (cacheFrame e) = Z.to_nat BLOCK_FRAME_SIZE) (cache c).

(** Slot [i] is the first one that holds frame [f]; [None]: no slot does. *)
Definition first_slot (entries : list cacheEntry) (f : Z) (r : option nat)
  : Prop :=
  match r with
  | Some i =>
      (∃ e, entries !! i = Some e ∧ frm e = f)
      ∧ ∀ k e, (k < i)%nat → entries !! k = Some e → frm e ≠ f
  | None => ∀ k e, entries !! k = Some e → frm e ≠ f
  end.

(** Slot [i] has the lowest recency counter, and is the first such slot. *)
Definition is_lru (entries : list cacheEntry) (i : nat) : Prop :=
  ∃ e, entries !! i = Some e
       ∧ (∀ k e', entries !! k = Some e' → access e ≤ access e')
       ∧ (∀ k e', (k < i)%nat → entries !! k = Some e' → access e < access e').

(** Every slot that holds a frame holds the contents that the device has for
    it. *)
Definition coherent (c : cache_t) (d : device_t) : Prop :=
  ∀ i f data, slots c !! i = Some (f, data) → f ≠ NO_FRAME →
    data = dev_frame d f.

(** No frame is held by two slots. *)
Definition cache_uniq (c : cache_t) : Prop :=
  ∀ i j f di dj, slots c !! i = Some (f, di) → slots c !! j = Some (f, dj) →
    f ≠ NO_FRAME → i = j.

(** Every frame of the device has [BLOCK_FRAME_SIZE] bytes. *)
Definition device_ok (d : device_t) : Prop :=
  ∀ n, length (dev_frame d n) = Z.to_nat BLOCK_FRAME_SIZE.

(** One use of the cache by the driver for frame [f].  [block_read] looks
    the frame up and on a miss puts what it read from the device;
    [block_write] ([w] is true) looks it up and puts the frame it wrote. *)
Definition cache_access (w : bool) (f : Z) (data : frame_t) (c : cache_t)
  : option cache_t :=
  '(c1, hit) ← get_block_cache 0 f c;
  match w, hit with
  | false, Some _ => Some c1
  | _, _ => '(c2, _) ← put_block_cache 0 f data c1; Some c2
  end.

Fixpoint cache_accesses (l : list (bool * Z * frame_t)) (c : cache_t)
  : option cache_t :=
  match l with
  | [] => Some c
  | (w, f, data) :: l' => c' ← cache_access w f data c; cache_accesses l' c'
  end.

(** The cache of a program that sets its size to [C] and initializes it. *)
Definition fresh_cache (C : Z) : cache_t :=
  fst (init_block_cache (fst (set_block_cache_size C cache_boot))).

(** [n] look-ups of frame [f], one after the other. *)
Definition lookups (n : Z) (f : Z) (c : cache_t) : option cache_t :=
  Z.iter n (λ r, c1 ← r; fst <$> get_block_cache 0 f c1) (Some c).

(** The cache of a program that closes cache [c] and initializes it
    again. *)
Definition reinit (c : cache_t) : option cache_t :=
  '(c1, _) ← close_block_cache c; Some (fst (init_block_cache c1)).

(** The slot that access number [i] of [l] fills in a fresh cache. *)
Definition entry_of (l : list (bool * Z * frame_t)) (i : nat) : cacheEntry :=
  match l !! i with
  | Some (_, f, data) =>
      {| block := 0; frm := to_frm f; access := u16 (Z.of_nat i + 1);
         cacheFrame := data |}
  | None => empty_entry
  end.

(** A cache of [C] slots after the first [k] accesses of [l], while each
    access fills the slot after the one before. *)
Definition filled_to (l : list (bool * Z * frame_t)) (C : Z) (k : nat)
    (c : cache_t) : Prop :=
  cacheOn c = true
  ∧ block_cache_max_items c = C
  ∧ length (cache c) = Z.to_nat C
  ∧ putTracker c = u16 (Z.of_nat k)
  ∧ lastAccess c = u16 (Z.of_nat k)
  ∧ ∀ i, (i < Z.to_nat C)%nat →
      cache c !! i = Some (if decide (i < k)%nat then entry_of l i
                           else empty_entry).

(** A cache after the first [k] accesses of [l], once the frame of the
    first access has been replaced: every slot that holds a frame holds the
    frame and the data of a later access, and the last access is in a
    slot. *)
Definition holds_recent (l : list (bool * Z * frame_t)) (k : nat)
    (c : cache_t) : Prop :=
  cache_ok c ∧ cache_uniq c
  ∧ (∀ i F data, slots c !! i = Some (F, data) →
       F = NO_FRAME
       ∨ ∃ j w, (0 < j < k)%nat ∧ l !! j = Some (w, F, data))
  ∧ ∃ i w f d, l !! (k - 1)%nat = Some (w, f, d) ∧ slots c !! i = Some (f, d).

(** [path] is a prefix of the stored name of [f]. *)
Definition name_prefix (path : string) (f : file_t) : Prop :=
  ∃ rest, name f = String.append path rest.

(** Entry [i] is the first of the [n] files in use whose stored name has
    the prefix [path]. *)
Definition first_match (fs : list file_t) (n : nat) (path : string) (i : nat)
  : Prop :=
  (i < n)%nat
  ∧ (∃ f, fs !! i = Some f ∧ name_prefix path f)
  ∧ ∀ k f, (k < i)%nat → fs !! k = Some f → ¬ name_prefix path f.

(** The cache of a state is well formed and agrees with its device, whose
    frames are well formed. *)
Definition io_ok (s : state) : Prop :=
  cache_ok (bcache s)
  ∧ coherent (bcache s) (device s)
  ∧ cache_uniq (bcache s)
  ∧ device_ok (device s).

(** Byte [p] of file [f], as device [d] holds it. *)
Definition file_byte (f : file_t) (d : device_t) (p : Z) : option Z :=
  fr ← at_Z (frames f) (p `div` BLOCK_FRAME_SIZE);
  dev_frame d fr !! Z.to_nat (p `mod` BLOCK_FRAME_SIZE).

(** Handle [fd] of [s] is [h], which is open on file table entry [fi],
    which holds [f]. *)
Definition open_on (s : state) (fd : Z) (h : fh_t) (fi : nat) (f : file_t)
  : Prop :=
  at_Z (handles s) fd = Some h ∧ status h = OPEN ∧ file h = Some fi
  ∧ files s !! fi = Some f.

(** The frame list of [f] holds frame numbers apart from the marker of an
    empty slot, and covers the size of [f], which is an [int32_t]. *)
Definition file_ok (f : file_t) : Prop :=
  Forall valid_frame (frames f)
  ∧ 0 ≤ size f ≤ BLOCK_FRAME_SIZE * Z.of_nat (length (frames f))
  ∧ size f ≤ 2147483647.

(** Handle [fd] with its cursor at [l]. *)
Definition moved (h : fh_t) (l : Z) : fh_t :=
  {| file := file h; loc := l; status := status h |}.

(** The file of a handle after a successful [allocateNewFrames]. *)
Definition grown (s : state) (h : fh_t) (f : file_t) (count : Z) : file_t :=
  {| name := name f; size := size f;
     frames := frames f
               ++ seqZ (freeFrameNr s)
                    (frames_for (loc h + count) - Z.of_nat (length (frames f))) |}.

(** The calls of the driver. *)
Inductive call :=
  | PowerOn
  | PowerOff
  | Open (path : string)
  | Close (fd : Z)
  | Read (fd : Z) (buf : list Z) (count : Z)
  | Write (fd : Z) (buf : list Z) (count : Z)
  | Seek (fd : Z) (pos : Z).

(** The state after a call that returns. *)
Definition exec (c : call) (s : state) : option state :=
  match c with
  | PowerOn => Some (fst (block_poweron s))
  | PowerOff => fst <$> block_poweroff s
  | Open path => fst <$> block_open path s
  | Close fd => fst <$> block_close fd s
  | Read fd buf count => (λ r, fst (fst r)) <$> block_read fd buf count s
  | Write fd buf count => fst <$> block_write fd buf count s
  | Seek fd pos => fst <$> block_seek fd pos s
  end.





End Vocabulary.

(** ** A small configuration

    Frames of 8 bytes, three file table entries, a device of 16 frames, a
    16-bit [BlockFrameIndex] and a cache of two slots.  A file table entry
    is laid out in a frame as the first two bytes of its name, its size,
    the number of its frames and its frame numbers. *)

Definition sample_name_of (c1 c2 : Z) : string :=
  if bool_decide (c1 = 0) then ""
  else String (Ascii.ascii_of_nat (Z.to_nat c1))
         (if bool_decide (c2 = 0) then ""
          else String (Ascii.ascii_of_nat (Z.to_nat c2)) "").

Definition sample_file_of_frame (fr : frame_t) : file_t :=
  {| name := sample_name_of (default 0 (fr !! 0%nat)) (default 0 (fr !! 1%nat));
     size := default 0 (fr !! 2%nat);
     frames := take (Z.to_nat (default 0 (fr !! 3%nat))) (drop 4 fr) |}.

Definition sample_frame_of_file (f : file_t) : frame_t :=
  take 8 (match name f with
          | String c1 (String c2 _) =>
              [Z.of_nat (Ascii.nat_of_ascii c1); Z.of_nat (Ascii.nat_of_ascii c2)]
          | String c1 EmptyString => [Z.of_nat (Ascii.nat_of_ascii c1); 0]
          | EmptyString => [0; 0]
          end
          ++ size f :: Z.of_nat (length (frames f))
          :: frames f ++ replicate 4 0).

Definition sample_getNbFiles (fs : list file_t) : Z :=
  Z.of_nat (length (filter (λ f, name f ≠ "") fs)).

Definition sample_getFreeFrame (fs : list file_t) : Z :=
  foldr Z.max 3 ((λ x, x + 1) <$> (fs ≫= frames)).

Definition sample_params : BlockParams :=
  {| BLOCK_FRAME_SIZE := 8;
     BLOCK_MAX_TOTAL_FILES := 3;
     BLOCK_NUM_FRAMES := 16;
     FRM_BITS := 16;
     DEFAULT_BLOCK_FRAME_CACHE_SIZE := 2;
     file_of_frame := sample_file_of_frame;
     frame_of_file := sample_frame_of_file;
     getFreeFrame := sample_getFreeFrame;
     getNbFiles := sample_getNbFiles |}.

(** A device whose frames are all zero. *)
Definition sample_device : device_t :=
  {| media := λ _, replicate 8 0; wlog := [] |}.

(** The state after power on, on the zeroed device. *)
Definition sample_on : state :=
  fst (block_poweron (P:=sample_params) (boot (P:=sample_params) sample_device)).

(** A state with the files [ab] (five bytes in frame 3) and [b] (empty), and
    a handle open on each. *)
Definition sample_state : state :=
  {| isOn := true; nbFiles := 2; nbHandles := 2; freeFrameNr := 4;
     files := [ {| name := "ab"; size := 5; frames := [3] |};
                {| name := "b"; size := 0; frames := [] |};
                {| name := ""; size := 0; frames := [] |} ];
     handles := [ {| file := Some 0%nat; loc := 2; status := OPEN |};
                  {| file := Some 1%nat; loc := 0; status := OPEN |};
                  {| file := None; loc := 0; status := CLOSED |} ];
     bcache := fresh_cache (P:=sample_params) 2;
     device := sample_device |}.

(** The same state with the power flag clear. *)
Definition sample_off : state :=
  {| isOn := false; nbFiles := nbFiles sample_state;
     nbHandles := nbHandles sample_state;
     freeFrameNr := freeFrameNr sample_state; files := files sample_state;
     handles := handles sample_state; bcache := bcache sample_state;
     device := device sample_state |}.



(** A read of frame 2, a write of frame 3 and a read of frame 4. *)
Definition sample_accesses : list (bool * Z * frame_t) :=
  [(false, 2, replicate 8 1); (true, 3, replicate 8 2);
   (false, 4, replicate 8 3)].

(** A cache of two slots that is given frame 1, serves 65533 look-ups of
    it, and is then closed and initialized again. *)
Definition sample_reinit : option cache_t :=
  '(c, _) ← put_block_cache (P:=sample_params) 0 1 (replicate 8 7)
              (fresh_cache (P:=sample_params) 2);
  c ← lookups (P:=sample_params) 65533 1 c;
  reinit (P:=sample_params) c.

(** ** Clients of the cache

    The calls that a client of [block_cache.c] can make on an initialized
    cache, and runs of them. *)

Section CacheClients.
Context `{P : BlockParams}.

Inductive cache_call :=
  | Put (blk f : Z) (buf : frame_t)
  | Get (blk f : Z).

(** The cache after a call that returns. *)
Definition cache_exec (o : cache_call) (c : cache_t) : option cache_t :=
  match o with
  | Put blk f buf => fst <$> put_block_cache blk f buf c
  | Get blk f => fst <$> get_block_cache blk f c
  end.

Fixpoint cache_run (l : list cache_call) (c : cache_t) : option cache_t :=
  match l with
  | [] => Some c
  | o :: l' => c' ← cache_exec o c; cache_run l' c'
  end.

(** The buffer given to a put holds a frame. *)
Definition frame_sized (o : cache_call) : Prop :=
  match o with
  | Put _ _ buf => length buf = Z.to_nat BLOCK_FRAME_SIZE
  | Get _ _ => True
  end.

(** The call names a frame number apart from the marker of an empty slot. *)
Definition names_frame (o : cache_call) : Prop :=
  match o with
  | Put _ f _ | Get _ f => to_frm f ≠ NO_FRAME
  end.

(** No recency counter of a slot is ahead of [lastAccess]. *)
Definition recency_ok (c : cache_t) : Prop :=
  ∀ i e, cache c !! i = Some e → access e ≤ lastAccess c.

End CacheClients.

(** ** Runs of the driver *)

Section DriverRuns.
Context `{P : BlockParams}.

(** The arguments of a call have values of their C types. *)
Definition typed (c : call) : Prop :=
  match c with
  | PowerOn | PowerOff | Open _ => True
  | Close fd => -32768 ≤ fd ≤ 32767
  | Read fd _ count | Write fd _ count =>
      -32768 ≤ fd ≤ 32767 ∧ -2147483648 ≤ count ≤ 2147483647
  | Seek fd pos => -32768 ≤ fd ≤ 32767 ∧ 0 ≤ pos ≤ 4294967295
  end.

(** The state after a sequence of calls that all return. *)
Fixpoint exec_all (l : list call) (s : state) : option state :=
  match l with
  | [] => Some s
  | c :: l' => s' ← exec c s; exec_all l' s'
  end.

(** The size of every file table entry is a non-negative [int32_t]. *)
Definition sizes_ok (s : state) : Prop :=
  ∀ i f, files s !! i = Some f → 0 ≤ size f ≤ 2147483647.

(** Every open handle is bound to a file table entry in use, and its cursor
    is within the file. *)
Definition cursors_ok (s : state) : Prop :=
  ∀ fd h, at_Z (handles s) fd = Some h → status h = OPEN →
    ∃ fi f, file h = Some fi ∧ Z.of_nat fi < nbFiles s
            ∧ files s !! fi = Some f ∧ 0 ≤ loc h ≤ size f.

(** The number of frames that the [n] bytes from position [loc] on lie
    in. *)
Definition spans (loc n : Z) : Z :=
  if bool_decide (n ≤ 0) then 0
  else (loc + n - 1) `div` BLOCK_FRAME_SIZE - loc `div` BLOCK_FRAME_SIZE + 1.

(** What holds of every state that typed calls reach from the start on
    device [d]. *)
Definition cursor_inv (d : device_t) (s : state) : Prop :=
  sizes_ok s ∧ cursors_ok s ∧ (isOn s = false → s = boot d).

End DriverRuns.

(** A full cache of two slots whose recency counter is about to wrap. *)
Definition sample_wrapping : cache_t :=
  {| block_cache_max_items := 2;
     cache := [ {| block := 0; frm := 3; access := 65534;
                   cacheFrame := replicate 8 1 |};
                {| block := 0; frm := 4; access := 65535;
                   cacheFrame := replicate 8 2 |} ];
     putTracker := 2; lastAccess := 65535; cacheOn := true |}.

(** A full cache of two slots, frame 3 used before frame 4. *)
Definition sample_full : cache_t :=
  {| block_cache_max_items := 2;
     cache := [ {| block := 0; frm := 3; access := 1;
                   cacheFrame := replicate 8 1 |};
                {| block := 0; frm := 4; access := 2;
                   cacheFrame := replicate 8 2 |} ];
     putTracker := 2; lastAccess := 2; cacheOn := true |}.

(** The state [sample_state] with both handles on the file [ab], at the
    same place. *)
Definition sample_shared : state :=
  {| isOn := true; nbFiles := 2; nbHandles := 2; freeFrameNr := 4;
     files := files sample_state;
     handles := [ {| file := Some 0%nat; loc := 2; status := OPEN |};
                  {| file := Some 0%nat; loc := 2; status := OPEN |};
                  {| file := None; loc := 0; status := CLOSED |} ];
     bcache := bcache sample_state;
     device := sample_device |}.

(** The state [sample_state] after ten bytes were written through handle
    0. *)
Definition sample_state_written : state :=
  Eval vm_compute in
    default sample_state
      (fst <$> block_write (P:=sample_params) 0 (seqZ 1 10) 10 sample_state).

(** A run of the driver, and the state that it reaches on the zeroed
    device. *)
Definition sample_run : list call :=
  [PowerOn; Open "a"; Write 0 (seqZ 1 10) 10; Seek 0 3;
   Read 0 (replicate 4 0) 4; Open "a"; Close 0].

Definition sample_ran : state :=
  Eval vm_compute in
    default (boot (P:=sample_params) sample_device)
      (exec_all (P:=sample_params) sample_run
         (boot (P:=sample_params) sample_device)).

(** ** Facts about memory and machine arithmetic *)

(** Closed arithmetic and list facts, by evaluation. *)
Ltac by_computation :=
  vm_compute; repeat split; try discriminate; try reflexivity.

Lemma at_Z_Some {A} (a : list A) (z : Z) (x : A) :
  at_Z a z = Some x ↔ 0 ≤ z ∧ a !! Z.to_nat z = Some x.
Proof.
  unfold at_Z. case_bool_decide; [tauto|].
  split; [done|]. intros [? _]. lia.
Qed.

Lemma at_Z_of_nat {A} (a : list A) (i : nat) : at_Z a (Z.of_nat i) = a !! i.
Proof.
  unfold at_Z. rewrite bool_decide_eq_true_2 by lia. by rewrite Nat2Z.id.
Qed.

Lemma set_Z_Some {A} (a : list A) (z : Z) (x : A) :
  0 ≤ z < Z.of_nat (length a) → set_Z a z x = Some (<[Z.to_nat z := x]> a).
Proof. intros. unfold set_Z. by rewrite bool_decide_eq_true_2. Qed.

Lemma memcpy_Some dst doff src soff n :
  0 ≤ n → 0 ≤ doff → 0 ≤ soff →
  doff + n ≤ Z.of_nat (length dst) → soff + n ≤ Z.of_nat (length src) →
  memcpy dst doff src soff n
  = Some (take (Z.to_nat doff) dst
          ++ take (Z.to_nat n) (drop (Z.to_nat soff) src)
          ++ drop (Z.to_nat (doff + n)) dst).
Proof. intros. unfold memcpy. by rewrite bool_decide_eq_true_2. Qed.

Lemma memcpy_inv dst doff src soff n r :
  memcpy dst doff src soff n = Some r →
  0 ≤ n ∧ 0 ≤ doff ∧ 0 ≤ soff
  ∧ doff + n ≤ Z.of_nat (length dst) ∧ soff + n ≤ Z.of_nat (length src)
  ∧ r = take (Z.to_nat doff) dst
        ++ take (Z.to_nat n) (drop (Z.to_nat soff) src)
        ++ drop (Z.to_nat (doff + n)) dst.
Proof.
  unfold memcpy. case_bool_decide as H; [|done].
  intros [= <-]. destruct H as (?&?&?&?&?). by repeat split.
Qed.

Lemma memcpy_length dst doff src soff n r :
  memcpy dst doff src soff n = Some r → length r = length dst.
Proof.
  intros Hm. apply memcpy_inv in Hm as (?&?&?&?&?&->).
  rewrite !length_app, !length_take, length_drop, length_drop. lia.
Qed.

(** Byte [j] of the destination after a [memcpy]. *)
Lemma memcpy_lookup dst doff src soff n r (j : nat) :
  memcpy dst doff src soff n = Some r →
  r !! j = if bool_decide (doff ≤ Z.of_nat j < doff + n)
           then src !! Z.to_nat (soff + (Z.of_nat j - doff))
           else dst !! j.
Proof.
  intros Hm. apply memcpy_inv in Hm as (?&?&?&?&?&->).
  case_bool_decide as Hj.
  - rewrite lookup_app_r by (rewrite length_take; lia).
    rewrite length_take, lookup_app_l
      by (rewrite length_take, length_drop; lia).
    rewrite lookup_take_lt by lia. rewrite lookup_drop. f_equal. lia.
  - destruct (decide (Z.of_nat j < doff)).
    + rewrite lookup_app_l by (rewrite length_take; lia).
      by rewrite lookup_take_lt by lia.
    + rewrite lookup_app_r by (rewrite length_take; lia).
      rewrite length_take.
      rewrite lookup_app_r by (rewrite length_take, length_drop; lia).
      rewrite length_take, length_drop, lookup_drop. f_equal. lia.
Qed.

(** Copying a whole buffer onto one of the same size. *)
Lemma memcpy_whole dst src n :
  0 ≤ n → length dst = Z.to_nat n → length src = Z.to_nat n →
  memcpy dst 0 src 0 n = Some src.
Proof.
  intros ? Hd Hs. rewrite memcpy_Some by lia. f_equal.
  rewrite Z.add_0_l. change (Z.to_nat 0) with 0%nat.
  rewrite take_0, drop_0, take_ge, drop_ge by lia.
  by rewrite app_nil_l, app_nil_r.
Qed.

(** ** Facts about the frame cache *)

Section CacheFacts.
Context `{P : BlockParams}.

Lemma NO_FRAME_eq : 0 ≤ FRM_BITS → NO_FRAME = 2 ^ FRM_BITS - 1.
Proof.
  intros. unfold NO_FRAME, to_frm.
  assert (0 < 2 ^ FRM_BITS) by (apply Z.pow_pos_nonneg; lia).
  symmetry. apply (Z.mod_unique_pos _ _ (-1)); lia.
Qed.

Lemma to_frm_valid f : valid_frame f → to_frm f = f.
Proof.
  unfold valid_frame. intros Hf. destruct (decide (0 ≤ FRM_BITS)) as [Hw|Hw].
  - rewrite NO_FRAME_eq in Hf by done. unfold to_frm.
    apply Z.mod_small. lia.
  - exfalso. unfold NO_FRAME, to_frm in Hf.
    rewrite Z.pow_neg_r, Z.mod_0_r in Hf by lia. lia.
Qed.

Lemma valid_frame_ne f : valid_frame f → to_frm f ≠ NO_FRAME.
Proof. intros Hf. rewrite to_frm_valid by done. unfold valid_frame in Hf. lia. Qed.

Lemma slots_lookup c i :
  slots c !! i = (λ e, (frm e, cacheFrame e)) <$> cache c !! i.
Proof. unfold slots. apply list_lookup_fmap. Qed.

Lemma slots_with_slot c i e pt la :
  slots (with_slot c i e pt la) = <[i := (frm e, cacheFrame e)]> (slots c).
Proof. unfold slots, with_slot. simpl. by rewrite list_fmap_insert. Qed.

(** The search loop finds the first slot that holds the frame. *)
Lemma find_frm_from entries f n : ∀ i,
  (i + n = length entries)%nat →
  (∀ k e, (k < i)%nat → entries !! k = Some e → frm e ≠ f) →
  ∃ r, find_frm entries f i n = Some r ∧ first_slot entries f r.
Proof.
  induction n as [|n IH]; intros i Hlen Hbefore; simpl.
  - exists None. split; [done|]. intros k e Hk. apply (Hbefore k); [|done].
    apply lookup_lt_Some in Hk. lia.
  - destruct (lookup_lt_is_Some_2 entries i) as [e He]; [lia|].
    rewrite He. simpl. case_bool_decide as Hf.
    + exists (Some i). split; [done|]. split; [by exists e|done].
    + apply IH; [lia|]. intros k e' Hk He'.
      destruct (decide (k = i)) as [->|]; [congruence|].
      apply (Hbefore k); [lia|done].
Qed.

Lemma find_frm_first entries f :
  ∃ r, find_frm entries f 0 (length entries) = Some r ∧ first_slot entries f r.
Proof. apply find_frm_from; [done|]. intros k e Hk. lia. Qed.

(** The eviction loop returns the first slot of lowest recency. *)
Lemma find_lru_from entries n : ∀ i j ej,
  (i + n = length entries)%nat → Z.of_nat (length entries) ≤ 65536 →
  entries !! j = Some ej →
  (∀ k e, (k < i)%nat → entries !! k = Some e → access ej ≤ access e) →
  (∀ k e, (k < j)%nat → entries !! k = Some e → access ej < access e) →
  ∃ j', find_lru entries i n (access ej) (Z.of_nat j) = Some (Z.of_nat j')
        ∧ is_lru entries j'.
Proof.
  induction n as [|n IH]; intros i j ej Hlen H16 Hj Hmin Hfirst; simpl.
  - exists j. split; [done|]. exists ej. split; [done|]. split; [|done].
    intros k e Hk. apply (Hmin k); [|done]. apply lookup_lt_Some in Hk. lia.
  - destruct (lookup_lt_is_Some_2 entries i) as [e He]; [lia|].
    rewrite He. simpl. case_bool_decide as Hlt.
    + replace (u16 (Z.of_nat i)) with (Z.of_nat i)
        by (unfold u16; rewrite Z.mod_small; lia).
      apply (IH (S i) i e); [lia|done|done| |].
      * intros k e' Hk He'. destruct (decide (k = i)) as [->|].
        -- replace e' with e by congruence. lia.
        -- specialize (Hmin k e' ltac:(lia) He'). lia.
      * intros k e' Hk He'. specialize (Hmin k e' ltac:(lia) He'). lia.
    + apply (IH (S i) j ej); [lia|done|done| |done].
      intros k e' Hk He'. destruct (decide (k = i)) as [->|].
      * replace e' with e by congruence. lia.
      * apply (Hmin k); [lia|done].
Qed.

Lemma find_lru_first entries e0 :
  Z.of_nat (length entries) ≤ 65536 → entries !! 0%nat = Some e0 →
  ∃ j, find_lru entries 0 (length entries) (access e0) 0 = Some (Z.of_nat j)
       ∧ is_lru entries j.
Proof.
  intros H16 H0. apply (find_lru_from entries (length entries) 0 0 e0);
    [done|done|done| |]; intros k e Hk; lia.
Qed.

Lemma first_slot_unique entries f r1 r2 :
  first_slot entries f r1 → first_slot entries f r2 → r1 = r2.
Proof.
  destruct r1 as [i|], r2 as [j|]; simpl.
  - intros [(ei & Hi & Hfi) Hbi] [(ej & Hj & Hfj) Hbj]. f_equal.
    destruct (Nat.lt_trichotomy i j) as [Hlt|[->|Hlt]]; [|done|].
    + by destruct (Hbj i ei).
    + by destruct (Hbi j ej).
  - intros [(ei & Hi & Hfi) _] Hnone. by destruct (Hnone i ei).
  - intros Hnone [(ej & Hj & Hfj) _]. by destruct (Hnone j ej).
  - done.
Qed.

Lemma find_frm_eq entries f r :
  first_slot entries f r → find_frm entries f 0 (length entries) = Some r.
Proof.
  intros Hr. destruct (find_frm_first entries f) as (r' & -> & Hr').
  f_equal. by eapply first_slot_unique.
Qed.

(** The three ways through [get_block_cache] and [put_block_cache]. *)
Lemma get_block_cache_hit c blk f i e :
  length (cache c) = Z.to_nat (block_cache_max_items c) →
  cache c !! i = Some e → first_slot (cache c) (to_frm f) (Some i) →
  get_block_cache blk f c
  = Some (with_slot c i
            {| block := block e; frm := frm e;
               access := u16 (lastAccess c + 1); cacheFrame := cacheFrame e |}
            (putTracker c) (u16 (lastAccess c + 1)),
          Some (cacheFrame e)).
Proof.
  intros Hlen He Hr. unfold get_block_cache.
  rewrite <- Hlen, (find_frm_eq _ _ _ Hr). simpl. by rewrite He.
Qed.

Lemma get_block_cache_miss c blk f :
  length (cache c) = Z.to_nat (block_cache_max_items c) →
  first_slot (cache c) (to_frm f) None →
  get_block_cache blk f c = Some (c, None).
Proof.
  intros Hlen Hr. unfold get_block_cache.
  by rewrite <- Hlen, (find_frm_eq _ _ _ Hr).
Qed.

Lemma cache_ok_frame c i e :
  cache_ok c → cache c !! i = Some e →
  length (cacheFrame e) = Z.to_nat BLOCK_FRAME_SIZE.
Proof.
  intros (_ & _ & _ & _ & Hall) He.
  by apply (proj1 (Forall_lookup _ _) Hall i e).
Qed.

Lemma put_block_cache_hit c blk f buf i e :
  cache_ok c → 0 ≤ BLOCK_FRAME_SIZE →
  length buf = Z.to_nat BLOCK_FRAME_SIZE →
  cache c !! i = Some e → first_slot (cache c) (to_frm f) (Some i) →
  put_block_cache blk f buf c
  = Some (with_slot c i
            {| block := block e; frm := frm e;
               access := u16 (lastAccess c + 1); cacheFrame := buf |}
            (putTracker c) (u16 (lastAccess c + 1)), 0).
Proof.
  intros Hok Hfs Hbuf He Hr. pose proof (cache_ok_frame _ _ _ Hok He).
  destruct Hok as (Hon & Hlen & _). unfold put_block_cache.
  rewrite Hon, <- Hlen, (find_frm_eq _ _ _ Hr). simpl. rewrite He. simpl.
  by rewrite memcpy_whole.
Qed.

Lemma put_block_cache_fresh c blk f buf :
  cache_ok c → 0 ≤ BLOCK_FRAME_SIZE →
  length buf = Z.to_nat BLOCK_FRAME_SIZE →
  first_slot (cache c) (to_frm f) None →
  putTracker c < block_cache_max_items c →
  put_block_cache blk f buf c
  = Some (with_slot c (Z.to_nat (putTracker c))
            {| block := blk; frm := to_frm f;
               access := u16 (lastAccess c + 1); cacheFrame := buf |}
            (u16 (putTracker c + 1)) (u16 (lastAccess c + 1)), 0).
Proof.
  intros Hok Hfs Hbuf Hr Hpt.
  destruct (lookup_lt_is_Some_2 (cache c) (Z.to_nat (putTracker c)))
    as [e He]; [destruct Hok as (_ & ? & _ & ? & _); lia|].
  pose proof (cache_ok_frame _ _ _ Hok He).
  destruct Hok as (Hon & Hlen & _ & Hpt0 & _). unfold put_block_cache.
  rewrite Hon, <- Hlen, (find_frm_eq _ _ _ Hr). simpl.
  rewrite bool_decide_eq_true_2 by done.
  rewrite (proj2 (at_Z_Some _ _ e)) by (split; [lia|done]). simpl.
  by rewrite memcpy_whole.
Qed.

Lemma put_block_cache_evict c blk f buf :
  cache_ok c → 0 ≤ BLOCK_FRAME_SIZE →
  length buf = Z.to_nat BLOCK_FRAME_SIZE →
  first_slot (cache c) (to_frm f) None →
  block_cache_max_items c ≤ putTracker c →
  ∃ j, is_lru (cache c) j
       ∧ put_block_cache blk f buf c
         = Some (with_slot c j
                   {| block := blk; frm := to_frm f;
                      access := u16 (lastAccess c + 1); cacheFrame := buf |}
                   (putTracker c) (u16 (lastAccess c + 1)), 0).
Proof.
  intros Hok Hfs Hbuf Hr Hpt.
  destruct (lookup_lt_is_Some_2 (cache c) 0) as [e0 He0];
    [destruct Hok as (_ & ? & ? & _); lia|].
  destruct (find_lru_first (cache c) e0) as (j & Hlru & Hj);
    [destruct Hok as (_ & ? & _ & ? & _); lia|done|].
  exists j. split; [done|]. destruct Hj as (e & He & _).
  pose proof (cache_ok_frame _ _ _ Hok He).
  destruct Hok as (Hon & Hlen & _). unfold put_block_cache.
  rewrite Hon, <- Hlen, (find_frm_eq _ _ _ Hr). simpl.
  rewrite bool_decide_eq_false_2 by lia.
  rewrite He0. simpl. rewrite Hlru. simpl.
  rewrite at_Z_of_nat, He. simpl. rewrite memcpy_whole by done.
  by rewrite Nat2Z.id.
Qed.

Lemma u16_range (z : Z) : 0 ≤ u16 z < 65536.
Proof. unfold u16. apply Z.mod_pos_bound. lia. Qed.

Lemma cache_ok_with_slot c i e pt la :
  cache_ok c → length (cacheFrame e) = Z.to_nat BLOCK_FRAME_SIZE →
  0 ≤ pt < 65536 → cache_ok (with_slot c i e pt la).
Proof.
  intros (Hon & Hlen & Hmax & _ & Hall) He Hpt.
  unfold cache_ok, with_slot. simpl. rewrite length_insert.
  repeat split; try done; try lia.
  apply Forall_lookup. intros j e' Hj.
  apply list_lookup_insert_Some in Hj as [(-> & <- & _)|[_ Hj]]; [done|].
  by apply (proj1 (Forall_lookup _ _) Hall j e').
Qed.

(** A look-up leaves the frames and their data where they are; a hit
    returns the data of a slot that holds the frame, a miss means that no
    slot holds it. *)
Lemma get_block_cache_slots c blk f :
  cache_ok c →
  ∃ c' r,
    get_block_cache blk f c = Some (c', r)
    ∧ cache_ok c'
    ∧ slots c' = slots c
    ∧ match r with
      | Some data => ∃ i, slots c !! i = Some (to_frm f, data)
      | None => ∀ i data, slots c !! i ≠ Some (to_frm f, data)
      end.
Proof.
  intros Hok. pose proof Hok as (_ & Hlen & _ & Hpt & _).
  destruct (find_frm_first (cache c) (to_frm f)) as ([i|] & _ & Hr).
  - pose proof Hr as [(e & He & Hf) _].
    rewrite (get_block_cache_hit _ _ _ _ _ Hlen He Hr).
    eexists _, _. split; [done|]. split; [|split].
    + apply cache_ok_with_slot; [done| |done]. simpl.
      by eapply cache_ok_frame.
    + rewrite slots_with_slot. simpl. apply list_insert_id.
      by rewrite slots_lookup, He.
    + exists i. by rewrite slots_lookup, He, <- Hf.
  - rewrite (get_block_cache_miss _ _ _ Hlen Hr).
    eexists _, _. split; [done|]. split; [done|]. split; [done|].
    intros i data. rewrite slots_lookup.
    destruct (cache c !! i) as [e|] eqn:He; [|done].
    simpl. intros [= Hf _]. by destruct (Hr i e).
Qed.

(** A put stores the frame and its data in one slot and leaves the other
    slots as they are; no other slot holds the frame. *)
Lemma put_block_cache_slots c blk f buf :
  cache_ok c → 0 ≤ BLOCK_FRAME_SIZE →
  length buf = Z.to_nat BLOCK_FRAME_SIZE →
  cache_uniq c → to_frm f ≠ NO_FRAME →
  ∃ c' i,
    put_block_cache blk f buf c = Some (c', 0)
    ∧ cache_ok c'
    ∧ (i < length (slots c))%nat
    ∧ slots c' = <[i := (to_frm f, buf)]> (slots c)
    ∧ ∀ j data, j ≠ i → slots c !! j ≠ Some (to_frm f, data).
Proof.
  intros Hok Hfs Hbuf Huniq Hvalid.
  pose proof Hok as (_ & Hlen & Hmax & Hpt & _).
  assert (length (slots c) = length (cache c)) as Hsl
    by (unfold slots; by rewrite length_fmap).
  assert (first_slot (cache c) (to_frm f) None →
          ∀ j data, slots c !! j ≠ Some (to_frm f, data)) as Hnone.
  { intros Hr j data. rewrite slots_lookup.
    destruct (cache c !! j) as [e|] eqn:He; [|done].
    simpl. intros [= Hf _]. by destruct (Hr j e). }
  destruct (find_frm_first (cache c) (to_frm f)) as ([i|] & _ & Hr).
  - pose proof Hr as [(e & He & Hf) _].
    rewrite (put_block_cache_hit _ _ _ _ _ _ Hok Hfs Hbuf He Hr).
    eexists _, i. split; [done|]. split; [|split; [|split]].
    + by apply cache_ok_with_slot.
    + rewrite Hsl. by eapply lookup_lt_Some.
    + rewrite slots_with_slot. simpl. by rewrite Hf.
    + intros j data Hj Hsj. apply Hj.
      apply (Huniq j i (to_frm f) data (cacheFrame e)); [done| |done].
      by rewrite slots_lookup, He, <- Hf.
  - destruct (decide (putTracker c < block_cache_max_items c)) as [Hfree|Hfull].
    + rewrite put_block_cache_fresh by done.
      eexists _, (Z.to_nat (putTracker c)).
      split; [done|]. split; [|split; [|split]].
      * apply cache_ok_with_slot; [done|done|apply u16_range].
      * lia.
      * by rewrite slots_with_slot.
      * intros j data _. by apply Hnone.
    + destruct (put_block_cache_evict c blk f buf) as (j & Hj & ->);
        [done|done|done|done|lia|].
      destruct Hj as (e & He & _).
      eexists _, j. split; [done|]. split; [|split; [|split]].
      * by apply cache_ok_with_slot.
      * rewrite Hsl. by eapply lookup_lt_Some.
      * by rewrite slots_with_slot.
      * intros k data _. by apply Hnone.
Qed.

(** Storing a frame in one slot, when no other slot holds it, keeps the
    cache free of duplicates. *)
Lemma insert_keeps_uniq c c' i f buf :
  cache_uniq c →
  slots c' = <[i := (f, buf)]> (slots c) →
  (∀ j data, j ≠ i → slots c !! j ≠ Some (f, data)) →
  cache_uniq c'.
Proof.
  intros Huniq Hslots Hother j k g dj dk Hj Hk Hne. rewrite Hslots in Hj, Hk.
  apply list_lookup_insert_Some in Hj as [(Hij & Hej & _)|[Hji Hj]];
    apply list_lookup_insert_Some in Hk as [(Hik & Hek & _)|[Hki Hk]];
    simplify_eq.
  - done.
  - by destruct (Hother k dk).
  - by destruct (Hother j dj).
  - by eapply Huniq.
Qed.

(** No slot holds the frame: the search finds none. *)
Lemma slots_miss c f :
  (∀ i data, slots c !! i ≠ Some (f, data)) → first_slot (cache c) f None.
Proof.
  intros Hnone k e He Hf. apply (Hnone k (cacheFrame e)).
  rewrite slots_lookup, He. simpl. by rewrite Hf.
Qed.

(** After the device has taken [buf] for frame [f], a put of [buf] for [f]
    keeps the cache in agreement with the device and free of duplicates. *)
Lemma put_keeps_coherent c c' i f buf d d' :
  coherent c d → cache_uniq c →
  slots c' = <[i := (f, buf)]> (slots c) →
  (i < length (slots c))%nat →
  (∀ j data, j ≠ i → slots c !! j ≠ Some (f, data)) →
  dev_frame d' f = buf →
  (∀ g, g ≠ f → dev_frame d' g = dev_frame d g) →
  coherent c' d' ∧ cache_uniq c'.
Proof.
  intros Hcoh Huniq Hslots Hi Hother Hf Hg. split.
  - intros j g data Hj Hne. rewrite Hslots in Hj.
    apply list_lookup_insert_Some in Hj as [(-> & [= <- <-] & _)|[Hji Hj]];
      [done|].
    rewrite Hg; [by eapply Hcoh|]. intros ->. by destruct (Hother j data).
  - by eapply insert_keeps_uniq.
Qed.

(** A cache that [init_block_cache] has just allocated holds no frame. *)
(** The loop of [close_block_cache] stays within the array exactly when
    the array has the slots that it runs over. *)
Lemma clear_slots_Some (n : nat) : ∀ (entries : list cacheEntry) (i : nat),
  (i + n ≤ length entries)%nat → is_Some (clear_slots entries i n).
Proof.
  induction n as [|n IH]; intros entries i Hlen; simpl; [by eexists|].
  destruct (lookup_lt_is_Some_2 entries i) as [e ->]; [lia|]. simpl.
  apply IH. rewrite length_insert. lia.
Qed.

Lemma clear_slots_None (n : nat) : ∀ (entries : list cacheEntry) (i : nat),
  (i ≤ length entries < i + n)%nat → clear_slots entries i n = None.
Proof.
  induction n as [|n IH]; intros entries i Hlen; simpl; [lia|].
  destruct (entries !! i) as [e|] eqn:He; [|done]. simpl.
  apply lookup_lt_Some in He. apply IH. rewrite length_insert. lia.
Qed.

(** [close_block_cache] on a cache that is on and whose array has
    [block_cache_max_items] slots. *)
Lemma close_block_cache_on (c : cache_t) :
  cacheOn c = true →
  length (cache c) = Z.to_nat (block_cache_max_items c) →
  close_block_cache c
  = Some ({| block_cache_max_items := block_cache_max_items c;
             cache := [];
             putTracker := putTracker c;
             lastAccess := lastAccess c;
             cacheOn := false |}, 0).
Proof.
  intros Hon Hlen. unfold close_block_cache. rewrite Hon. simpl.
  destruct (clear_slots_Some (Z.to_nat (block_cache_max_items c)) (cache c) 0)
    as [e ->]; [lia|done].
Qed.

(** What a call of [close_block_cache] that returns leaves. *)
Lemma close_block_cache_inv (c c' : cache_t) (r : Z) :
  close_block_cache c = Some (c', r) →
  (r = -1 ∧ c' = c ∧ cacheOn c = false)
  ∨ (r = 0 ∧ cacheOn c = true ∧ cache c' = [] ∧ cacheOn c' = false
     ∧ block_cache_max_items c' = block_cache_max_items c
     ∧ putTracker c' = putTracker c ∧ lastAccess c' = lastAccess c).
Proof.
  unfold close_block_cache. destruct (cacheOn c); simpl.
  - destruct (clear_slots _ _ _); simpl; [|done].
    intros [= <- <-]. right. by split_and!.
  - intros [= <- <-]. by left.
Qed.

Lemma init_block_cache_ok (c : cache_t) :
  0 ≤ BLOCK_FRAME_SIZE →
  cacheOn c = false → 0 < block_cache_max_items c → 0 ≤ putTracker c < 65536 →
  cache_ok (fst (init_block_cache c))
  ∧ (∀ d, coherent (fst (init_block_cache c)) d)
  ∧ cache_uniq (fst (init_block_cache c)).
Proof.
  intros Hfs Hoff Hmax Hpt. unfold init_block_cache. rewrite Hoff. simpl.
  assert (∀ i f data,
    slots {| block_cache_max_items := block_cache_max_items c;
             cache := replicate (Z.to_nat (block_cache_max_items c)) empty_entry;
             putTracker := putTracker c; lastAccess := lastAccess c;
             cacheOn := true |} !! i = Some (f, data) → f = NO_FRAME) as Hempty.
  { intros i f data. rewrite slots_lookup. simpl.
    intros [e [[-> _]%lookup_replicate [= <- _]]]%fmap_Some. done. }
  split; [|split].
  - unfold cache_ok. simpl. rewrite length_replicate.
    split_and!; try done; try lia.
    apply Forall_replicate. simpl. unfold zero_frame.
    by rewrite length_replicate.
  - intros d i f data Hi Hne. destruct Hne. by apply (Hempty i f data).
  - intros i j f di dj Hi _ Hne. destruct Hne. by apply (Hempty i f di).
Qed.

End CacheFacts.

(** ** Least recently used eviction *)

Section Eviction.
Context `{P : BlockParams}.
Implicit Types l : list (bool * Z * frame_t).

Lemma cache_accesses_app l1 l2 c :
  cache_accesses (l1 ++ l2) c = cache_accesses l1 c ≫= cache_accesses l2.
Proof.
  revert c. induction l1 as [|[[w f] d] l1 IH]; intros c; simpl; [done|].
  destruct (cache_access w f d c); simpl; [apply IH|done].
Qed.

Lemma fresh_cache_filled l C :
  0 ≤ C < 4294967296 → filled_to l C 0 (fresh_cache C).
Proof.
  intros HC. unfold fresh_cache, filled_to. simpl.
  replace (u32 C) with C by (unfold u32; rewrite Z.mod_small; lia).
  rewrite length_replicate. repeat split; try done.
  intros i Hi. by rewrite lookup_replicate_2.
Qed.

Lemma u16_small (z : Z) : 0 ≤ z ≤ 65535 → u16 z = z.
Proof. intros. unfold u16. apply Z.mod_small. lia. Qed.

Section Accesses.
Variables (l : list (bool * Z * frame_t)) (C : Z).
Hypothesis HFS : 0 ≤ BLOCK_FRAME_SIZE.
Hypothesis HC : 1 ≤ C.
Hypothesis Hdup : NoDup ((λ a, a.1.2) <$> l).
Hypothesis Hall :
  Forall (λ a, valid_frame a.1.2 ∧ length a.2 = Z.to_nat BLOCK_FRAME_SIZE) l.

Lemma access_valid i w f d :
  l !! i = Some (w, f, d) →
  valid_frame f ∧ length d = Z.to_nat BLOCK_FRAME_SIZE.
Proof. intros Hi. apply (proj1 (Forall_lookup _ _) Hall i (w, f, d) Hi). Qed.

Lemma access_distinct i j wi wj f di dj :
  l !! i = Some (wi, f, di) → l !! j = Some (wj, f, dj) → i = j.
Proof.
  intros Hi Hj. apply (NoDup_lookup _ i j f Hdup);
    rewrite list_lookup_fmap; [by rewrite Hi|by rewrite Hj].
Qed.

Lemma entry_of_frm i w f d :
  l !! i = Some (w, f, d) →
  entry_of l i = {| block := 0; frm := f; access := u16 (Z.of_nat i + 1);
                    cacheFrame := d |}.
Proof.
  intros Hi. unfold entry_of. rewrite Hi.
  by rewrite to_frm_valid by (eapply access_valid; done).
Qed.

Lemma filled_to_ok k c : filled_to l C k c → cache_ok c.
Proof.
  intros (Hon & Hmax & Hlen & Hpt & Hla & Hslots).
  unfold cache_ok. rewrite Hmax, Hpt.
  split; [done|]. split; [done|]. split; [lia|]. split; [apply u16_range|].
  apply Forall_lookup. intros i e He.
  pose proof (lookup_lt_Some _ _ _ He) as Hi. rewrite Hlen in Hi.
  rewrite (Hslots i Hi) in He. injection He as <-.
  assert (length zero_frame = Z.to_nat BLOCK_FRAME_SIZE) as Hz
    by (unfold zero_frame; by rewrite length_replicate).
  case_decide; [|done]. unfold entry_of.
  destruct (l !! i) as [[[w f] d]|] eqn:Hli; [|done].
  simpl. by eapply access_valid.
Qed.

Lemma filled_to_slot k c i e :
  filled_to l C k c → cache c !! i = Some e →
  e = (if decide (i < k)%nat then entry_of l i else empty_entry).
Proof.
  intros (_ & _ & Hlen & _ & _ & Hslots) He.
  pose proof (lookup_lt_Some _ _ _ He) as Hi. rewrite Hlen in Hi.
  rewrite (Hslots i Hi) in He. by injection He.
Qed.

(** A frame whose access is still to come is in no slot. *)
Lemma filled_to_miss k c i w f d :
  filled_to l C k c → l !! i = Some (w, f, d) → (k ≤ i)%nat →
  first_slot (cache c) (to_frm f) None.
Proof.
  intros Hfill Hi Hki j e He.
  destruct (access_valid _ _ _ _ Hi) as [Hv _].
  rewrite (filled_to_slot _ _ _ _ Hfill He).
  case_decide; [|by apply not_eq_sym, valid_frame_ne].
  unfold entry_of. destruct (l !! j) as [[[w' f'] d']|] eqn:Hj.
  - simpl. destruct (access_valid _ _ _ _ Hj) as [Hv' _].
    rewrite !to_frm_valid by done. intros ->.
    pose proof (access_distinct _ _ _ _ _ _ _ Hi Hj). lia.
  - by apply not_eq_sym, valid_frame_ne.
Qed.

(** While slots are free and [putTracker] has not wrapped around, an access
    fills the next slot. *)
Lemma access_fill k c w f d :
  filled_to l C k c → (k < Z.to_nat C)%nat → Z.of_nat k ≤ 65535 →
  l !! k = Some (w, f, d) →
  ∃ c', cache_access w f d c = Some c' ∧ filled_to l C (S k) c'.
Proof.
  intros Hfill Hk H16 Hlk.
  pose proof (filled_to_ok _ _ Hfill) as Hok.
  pose proof (filled_to_miss _ _ _ _ _ _ Hfill Hlk ltac:(lia)) as Hmiss.
  destruct (access_valid _ _ _ _ Hlk) as [Hv Hd].
  destruct Hfill as (Hon & Hmax & Hlen & Hpt & Hla & Hslots).
  rewrite u16_small in Hpt, Hla by lia.
  unfold cache_access.
  rewrite get_block_cache_miss by (done || by rewrite Hmax). simpl.
  rewrite put_block_cache_fresh by (done || lia).
  exists (with_slot c (Z.to_nat (putTracker c))
            {| block := 0; frm := to_frm f;
               access := u16 (lastAccess c + 1); cacheFrame := d |}
            (u16 (putTracker c + 1)) (u16 (lastAccess c + 1))).
  split; [by destruct w|].
  unfold filled_to, with_slot. simpl. rewrite length_insert, Hpt, Hla.
  replace (Z.of_nat (S k)) with (Z.of_nat k + 1) by lia.
  repeat split; try done. intros i Hi. rewrite Nat2Z.id.
  destruct (decide (i = k)) as [->|Hne].
  - rewrite list_lookup_insert_eq by lia.
    rewrite decide_True by lia. rewrite (entry_of_frm _ _ _ _ Hlk).
    by rewrite to_frm_valid.
  - rewrite list_lookup_insert_ne by done. rewrite (Hslots i Hi).
    f_equal. repeat case_decide; done || lia.
Qed.

Lemma accesses_fill n : ∀ k c,
  filled_to l C k c → (k + n ≤ Z.to_nat C)%nat → Z.of_nat (k + n) ≤ 65536 →
  (k + n ≤ length l)%nat →
  ∃ c', cache_accesses (take n (drop k l)) c = Some c'
        ∧ filled_to l C (k + n) c'.
Proof.
  induction n as [|n IH]; intros k c Hfill Hn H16 Hl.
  - exists c. rewrite Nat.add_0_r. by rewrite take_0.
  - destruct (lookup_lt_is_Some_2 l k) as [[[w f] d] Hlk]; [lia|].
    rewrite (drop_S _ _ _ Hlk). simpl.
    destruct (access_fill _ _ _ _ _ Hfill ltac:(lia) ltac:(lia) Hlk)
      as (c1 & -> & Hc1).
    simpl. replace (k + S n)%nat with (S k + n)%nat by lia.
    apply IH; [done|lia|lia|lia].
Qed.

(** The access after the fill replaces the first slot: when all slots are
    filled, by eviction of the least recently used one; when there are more
    than 65536 slots, because [putTracker] has wrapped around to 0. *)
Lemma access_kick c w f d :
  let K := Z.to_nat (Z.min C 65536) in
  filled_to l C K c → l !! K = Some (w, f, d) →
  ∃ a pt la,
    cache_access w f d c
    = Some (with_slot c 0
              {| block := 0; frm := f; access := a; cacheFrame := d |} pt la)
    ∧ 0 ≤ pt < 65536.
Proof.
  intros K Hfill Hlk.
  pose proof (filled_to_ok _ _ Hfill) as Hok.
  pose proof (filled_to_miss _ _ _ _ _ _ Hfill Hlk ltac:(lia)) as Hmiss.
  destruct (access_valid _ _ _ _ Hlk) as [Hv Hd].
  unfold cache_access.
  rewrite get_block_cache_miss by (done || by destruct Hok as (_ & ? & _)).
  simpl. destruct (decide (C ≤ 65535)) as [Hsmall|Hlarge].
  - assert (K = Z.to_nat C) as HK by (unfold K; lia).
    destruct (put_block_cache_evict c 0 f d Hok HFS Hd Hmiss) as (j & Hj & ->).
    { destruct Hfill as (_ & -> & _ & -> & _).
      rewrite u16_small by lia. lia. }
    rewrite to_frm_valid by done.
    assert (j = 0%nat) as ->.
    { destruct Hj as (e & He & _ & Hfirst).
      destruct (decide (j = 0%nat)) as [|Hj0]; [done|exfalso].
      pose proof (lookup_lt_Some _ _ _ He) as Hjlt.
      destruct Hfill as (_ & _ & Hlen & _ & _ & Hslots).
      rewrite Hlen in Hjlt.
      specialize (Hfirst 0%nat _ ltac:(lia) (Hslots 0%nat ltac:(lia))).
      rewrite (Hslots j Hjlt) in He. injection He as <-.
      rewrite !decide_True in Hfirst by lia. unfold entry_of in Hfirst.
      destruct (l !! j) as [[[? ?] ?]|] eqn:Hlj;
        [|apply lookup_ge_None_1 in Hlj; apply lookup_lt_Some in Hlk; lia].
      destruct (l !! 0%nat) as [[[? ?] ?]|] eqn:Hl0;
        [|apply lookup_ge_None_1 in Hl0; apply lookup_lt_Some in Hlk; lia].
      simpl in Hfirst. rewrite !u16_small in Hfirst by lia. lia. }
    eexists _, _, _. split; [by destruct w|].
    by destruct Hok as (_ & _ & _ & ? & _).
  - assert (Z.of_nat K = 65536) as HK by (unfold K; lia).
    pose proof Hfill as (_ & Hmax & _ & Hpt & _).
    rewrite HK in Hpt. change (u16 65536) with 0 in Hpt.
    rewrite put_block_cache_fresh by (done || lia).
    rewrite Hpt, to_frm_valid by done. change (Z.to_nat 0) with 0%nat.
    eexists _, _, _. split; [by destruct w|]. apply u16_range.
Qed.

(** After that access, every slot that holds a frame holds a later one than
    the first. *)
Lemma kick_recent c w f d a pt la :
  let K := Z.to_nat (Z.min C 65536) in
  filled_to l C K c → l !! K = Some (w, f, d) → 0 ≤ pt < 65536 →
  holds_recent l (S K)
    (with_slot c 0 {| block := 0; frm := f; access := a; cacheFrame := d |}
       pt la).
Proof.
  intros K Hfill Hlk Hpt.
  pose proof (filled_to_ok _ _ Hfill) as Hok.
  destruct (access_valid _ _ _ _ Hlk) as [Hv Hd].
  pose proof Hfill as (_ & _ & Hlen & _ & _ & Hslots).
  assert (0 < K)%nat as HK by (unfold K; lia).
  set (c' := with_slot c 0 _ pt la).
  assert (slots c' !! 0%nat = Some (f, d)) as H0.
  { unfold c'. rewrite slots_with_slot. simpl.
    apply list_lookup_insert_eq. unfold slots. rewrite length_fmap. lia. }
  assert (∀ i F data, slots c' !! i = Some (F, data) →
          F = NO_FRAME
          ∨ (i = 0%nat ∧ F = f ∧ data = d)
          ∨ ∃ w', (0 < i < K)%nat ∧ l !! i = Some (w', F, data)) as Hdesc.
  { intros i F data Hi. destruct (decide (i = 0%nat)) as [->|Hne].
    - rewrite H0 in Hi. injection Hi as <- <-. right. by left.
    - unfold c' in Hi. rewrite slots_with_slot in Hi. simpl in Hi.
      rewrite list_lookup_insert_ne in Hi by done.
      rewrite slots_lookup in Hi.
      apply fmap_Some in Hi as (e & He & [= -> ->]).
      rewrite (filled_to_slot _ _ _ _ Hfill He).
      case_decide; [|by left]. unfold entry_of.
      destruct (l !! i) as [[[w' f'] d']|] eqn:Hli; [|by left].
      simpl. rewrite to_frm_valid by (by eapply access_valid).
      right. right. exists w'. split; [lia|done]. }
  split; [by apply cache_ok_with_slot|]. split; [|split].
  - intros i j F di dj Hi Hj HF.
    destruct (Hdesc _ _ _ Hi) as [?|[(Hi0 & HFi & _)|(wi & Hik & Hli)]];
      [done| |];
      destruct (Hdesc _ _ _ Hj) as [?|[(Hj0 & HFj & _)|(wj & Hjk & Hlj)]];
      try done.
    + lia.
    + rewrite HFi in Hlj.
      pose proof (access_distinct _ _ _ _ _ _ _ Hlk Hlj). lia.
    + rewrite HFj in Hli.
      pose proof (access_distinct _ _ _ _ _ _ _ Hlk Hli). lia.
    + by eapply access_distinct.
  - intros i F data Hi.
    destruct (Hdesc _ _ _ Hi) as [?|[(-> & -> & ->)|(wi & Hik & Hli)]].
    + by left.
    + right. exists K, w. split; [lia|done].
    + right. exists i, wi. split; [lia|done].
  - exists 0%nat, w, f, d. split; [|done].
    by replace (S K - 1)%nat with K by lia.
Qed.

(** From then on, an access puts its frame into a slot and leaves the
    frame of the first access out. *)
Lemma access_recent k c w f d :
  holds_recent l k c → (0 < k)%nat → l !! k = Some (w, f, d) →
  ∃ c', cache_access w f d c = Some c' ∧ holds_recent l (S k) c'.
Proof.
  intros (Hok & Huniq & Hslots & _) Hk Hlk.
  destruct (access_valid _ _ _ _ Hlk) as [Hv Hd].
  assert (∀ i data, slots c !! i ≠ Some (f, data)) as Hnone.
  { intros i data Hi.
    destruct (Hslots _ _ _ Hi) as [HF|(j & wj & Hj & Hlj)].
    - pose proof (valid_frame_ne f Hv) as Hne.
      by rewrite to_frm_valid in Hne.
    - pose proof (access_distinct _ _ _ _ _ _ _ Hlk Hlj). lia. }
  pose proof Hok as (_ & Hlen & _).
  unfold cache_access.
  rewrite get_block_cache_miss
    by (done || (rewrite to_frm_valid by done; by apply slots_miss)).
  simpl.
  destruct (put_block_cache_slots c 0 f d)
    as (c' & i & Hput & Hok' & Hi & Hsl & Hother);
    [done|done|done|done|by apply valid_frame_ne|].
  rewrite to_frm_valid in Hsl, Hother by done.
  exists c'. split; [rewrite Hput; by destruct w|].
  split; [done|]. split; [by eapply insert_keeps_uniq|]. split.
  - intros j F data Hj. rewrite Hsl in Hj.
    apply list_lookup_insert_Some in Hj as [(_ & [= <- <-] & _)|[_ Hj]].
    + right. exists k, w. split; [lia|done].
    + destruct (Hslots _ _ _ Hj) as [?|(j' & wj & Hj' & Hlj)]; [by left|].
      right. exists j', wj. split; [lia|done].
  - exists i, w, f, d. replace (S k - 1)%nat with k by lia.
    split; [done|]. rewrite Hsl. by apply list_lookup_insert_eq.
Qed.

Lemma accesses_recent n : ∀ k c,
  holds_recent l k c → (0 < k)%nat → (k + n = length l)%nat →
  ∃ c', cache_accesses (drop k l) c = Some c'
        ∧ holds_recent l (length l) c'.
Proof.
  induction n as [|n IH]; intros k c Hrec Hk Hn.
  - exists c. rewrite drop_ge by lia.
    by replace (length l) with k by lia.
  - destruct (lookup_lt_is_Some_2 l k) as [[[w f] d] Hlk]; [lia|].
    rewrite (drop_S _ _ _ Hlk). simpl.
    destruct (access_recent _ _ _ _ _ Hrec Hk Hlk) as (c1 & -> & Hc1).
    simpl. apply IH; [done|lia|lia].
Qed.

End Accesses.

(** X26.  In a cache of [C] slots that the program sizes and initializes
    for the first time, so that [putTracker] and [lastAccess] still have
    their start value 0, after [C + 1] accesses to distinct frames, each a
    read or a write of the driver, the frame of the first access is no
    longer cached (looking it up misses) and the frame of the last one is
    (looking it up hits and returns its data).  And whenever [putTracker]
    has reached [block_cache_max_items], which is the test of
    [put_block_cache] for a full cache and which a 16-bit [putTracker] can
    pass for capacities up to 65535 only, and the cache is given a frame
    that it does not hold, [put_block_cache] overwrites the slot of lowest
    recency counter, the first such slot if there are several. *)
Theorem lru_eviction (C : Z) (l : list (bool * Z * frame_t))
    (w1 : bool) (F1 : Z) (d1 : frame_t) (wn : bool) (Fn : Z) (dn : frame_t) :
  0 ≤ BLOCK_FRAME_SIZE →
  1 ≤ C ≤ 2147483647 →
  Z.of_nat (length l) = C + 1 →
  NoDup ((λ a, a.1.2) <$> l) →
  Forall (λ a, valid_frame a.1.2 ∧ length a.2 = Z.to_nat BLOCK_FRAME_SIZE) l →
  l !! 0%nat = Some (w1, F1, d1) →
  l !! Z.to_nat C = Some (wn, Fn, dn) →
  (∃ c, cache_accesses l (fresh_cache C) = Some c
        ∧ get_block_cache 0 F1 c = Some (c, None)
        ∧ ∃ c', get_block_cache 0 Fn c = Some (c', Some dn))
  ∧ (∀ c blk f buf,
       cache_ok c → length buf = Z.to_nat BLOCK_FRAME_SIZE →
       first_slot (cache c) (to_frm f) None →
       block_cache_max_items c ≤ putTracker c →
       ∃ j, is_lru (cache c) j
            ∧ put_block_cache blk f buf c
              = Some (with_slot c j
                        {| block := blk; frm := to_frm f;
                           access := u16 (lastAccess c + 1);
                           cacheFrame := buf |}
                        (putTracker c) (u16 (lastAccess c + 1)), 0)).
Proof.
  intros HFS HC Hlen Hdup Hall H1 Hn. split.
  2: { intros c blk f buf Hok Hbuf Hmiss Hfull.
       by apply put_block_cache_evict. }
  set (K := Z.to_nat (Z.min C 65536)).
  destruct (accesses_fill l C HFS ltac:(lia) Hdup Hall K 0 (fresh_cache C))
    as (cK & Hrun1 & Hfill);
    [apply fresh_cache_filled; lia|unfold K; lia|unfold K; lia|unfold K; lia|].
  rewrite drop_0 in Hrun1. simpl in Hfill.
  destruct (lookup_lt_is_Some_2 l K) as [[[w f] d] HlK]; [unfold K; lia|].
  destruct (access_kick l C HFS ltac:(lia) Hdup Hall cK w f d Hfill HlK)
    as (a & pt & la & Hkick & Hpt).
  pose proof (kick_recent l C ltac:(lia) Hdup Hall cK w f d a pt la Hfill HlK Hpt)
    as Hrec.
  destruct (accesses_recent l HFS Hdup Hall (length l - S K) (S K) _ Hrec)
    as (c & Hrun2 & Hend); [lia|apply lookup_lt_Some in HlK; lia|].
  assert (cache_accesses l (fresh_cache C) = Some c) as Hrun.
  { rewrite <- (take_drop_middle l K _ HlK), cache_accesses_app, Hrun1.
    simpl. rewrite Hkick. simpl. exact Hrun2. }
  destruct (access_valid l Hall _ _ _ _ H1) as [Hv1 _].
  destruct (access_valid l Hall _ _ _ _ Hn) as [Hvn _].
  destruct Hend as (Hok & Huniq & Hslots & i & w' & f' & d' & Hlast & Hi).
  replace (length l - 1)%nat with (Z.to_nat C) in Hlast by lia.
  rewrite Hn in Hlast. injection Hlast as <- <- <-.
  exists c. split; [done|]. split.
  - apply get_block_cache_miss; [by destruct Hok as (_ & ? & _)|].
    rewrite to_frm_valid by done. apply slots_miss. intros j data Hj.
    destruct (Hslots _ _ _ Hj) as [HF|(j' & wj & Hj' & Hlj)].
    + pose proof (valid_frame_ne F1 Hv1) as Hne.
      by rewrite to_frm_valid in Hne.
    + pose proof (access_distinct l Hdup _ _ _ _ _ _ _ H1 Hlj). lia.
  - destruct (get_block_cache_slots c 0 Fn Hok) as (c' & r & Hget & _ & _ & Hr).
    exists c'. rewrite Hget. do 2 f_equal.
    rewrite to_frm_valid in Hr by done.
    destruct r as [data|]; [|by destruct (Hr i dn)].
    destruct Hr as [j Hj]. f_equal.
    pose proof (valid_frame_ne Fn Hvn) as Hne.
    rewrite to_frm_valid in Hne by done.
    pose proof (Huniq _ _ _ _ _ Hi Hj Hne) as <-.
    rewrite Hi in Hj. by injection Hj.
Qed.

End Eviction.

Lemma lru_eviction_witness :
  (∃ c, cache_accesses (P:=sample_params) sample_accesses
          (fresh_cache (P:=sample_params) 2) = Some c
        ∧ get_block_cache (P:=sample_params) 0 2 c = Some (c, None)
        ∧ ∃ c', get_block_cache (P:=sample_params) 0 4 c
                = Some (c', Some (replicate 8 3))).
Proof.
  refine (proj1 (lru_eviction (P:=sample_params) 2 sample_accesses
                   false 2 (replicate 8 1) false 4 (replicate 8 3)
                   _ _ _ _ _ _ _)).
  - simpl. lia.
  - lia.
  - reflexivity.
  - apply (bool_decide_unpack _). vm_compute. exact I.
  - unfold valid_frame, NO_FRAME, to_frm. simpl.
    repeat constructor; simpl; lia.
  - reflexivity.
  - reflexivity.
Defined.

(** C5.  [init_block_cache] leaves [putTracker] and [lastAccess] as they
    are, so a cache that is closed and initialized again does not start
    like one initialized for the first time.  On the small configuration:
    a cache of two slots that has served 65534 accesses, is closed and is
    initialized again has two empty slots, [putTracker] 1 and [lastAccess]
    65534; after one access each to the three distinct frames 2, 3 and 4,
    in that order, the 16-bit recency counter has wrapped, the frame of the
    first access is still cached (looking it up hits) and the frame of the
    second access is the one that was evicted. *)
Theorem lru_lost_on_reinit :
  (∀ (P : BlockParams) (c : cache_t),
     putTracker (fst (init_block_cache c)) = putTracker c
     ∧ lastAccess (fst (init_block_cache c)) = lastAccess c)
  ∧ ∃ c,
      sample_reinit = Some c
      ∧ cacheOn c = true
      ∧ block_cache_max_items c = 2
      ∧ slots c = replicate 2 (NO_FRAME (P:=sample_params),
                               replicate 8 0)
      ∧ putTracker c = 1
      ∧ lastAccess c = 65534
      ∧ ∃ c',
          cache_accesses (P:=sample_params) sample_accesses c = Some c'
          ∧ slots c' = [(4, replicate 8 3); (2, replicate 8 1)]
          ∧ (∃ c'', get_block_cache (P:=sample_params) 0 2 c'
                    = Some (c'', Some (replicate 8 1)))
          ∧ get_block_cache (P:=sample_params) 0 3 c' = Some (c', None)
          ∧ (∃ c'', get_block_cache (P:=sample_params) 0 4 c'
                    = Some (c'', Some (replicate 8 3))).
Proof.
  split.
  - intros P c. unfold init_block_cache. by destruct (cacheOn c).
  - eexists. split; [vm_compute; reflexivity|].
    do 5 (split; [vm_compute; reflexivity|]).
    eexists. split; [vm_compute; reflexivity|].
    split; [vm_compute; reflexivity|].
    split; [eexists; vm_compute; reflexivity|].
    split; [vm_compute; reflexivity|].
    eexists; vm_compute; reflexivity.
Qed.

(** ** Open *)

Lemma substring_0_length (s : string) : substring 0 (String.length s) s = s.
Proof. induction s as [|c s IH]; simpl; [done|]. by rewrite IH. Qed.

(** [memcmp] over the length of the path compares a prefix of the name. *)
Lemma memcmp_eq_prefix (path : string) (f : file_t) :
  memcmp_eq (name f) path (strlen path) = true ↔ name_prefix path f.
Proof.
  unfold memcmp_eq, strlen, name_prefix. rewrite bool_decide_eq_true.
  rewrite substring_0_length. generalize (name f). clear f.
  induction path as [|c path IH]; intros a; simpl.
  - split; [by exists a|]. by destruct a.
  - destruct a as [|c' a]; simpl.
    + split; [done|]. by intros [rest ?].
    + split.
      * intros [= -> Ha]. apply IH in Ha as [rest ->]. by exists rest.
      * intros [rest [= -> ->]]. f_equal. apply IH. by exists rest.
Qed.

Lemma search_file_from fs path n : ∀ i,
  (i + n ≤ length fs)%nat →
  (∀ k f, (k < i)%nat → fs !! k = Some f → ¬ name_prefix path f) →
  (∃ j, search_file fs path i n = Some (j, true)
        ∧ first_match fs (i + n) path j)
  ∨ (search_file fs path i n = Some ((i + n)%nat, false)
     ∧ ∀ k f, (k < i + n)%nat → fs !! k = Some f → ¬ name_prefix path f).
Proof.
  induction n as [|n IH]; intros i Hlen Hbefore; simpl.
  - right. rewrite Nat.add_0_r. by split.
  - destruct (lookup_lt_is_Some_2 fs i) as [f Hf]; [lia|].
    rewrite Hf. simpl.
    destruct (memcmp_eq (name f) path (strlen path)) eqn:Hcmp.
    + left. exists i. split; [done|]. apply memcmp_eq_prefix in Hcmp.
      split; [lia|]. split; [by exists f|done].
    + replace (i + S n)%nat with (S i + n)%nat by lia.
      apply IH; [lia|]. intros k f' Hk Hf'.
      destruct (decide (k = i)) as [->|]; [|apply (Hbefore k); [lia|done]].
      replace f' with f by congruence.
      rewrite <- memcmp_eq_prefix. by rewrite Hcmp.
Qed.

(** C9.  [block_open] compares the first [strlen(path)] bytes of each
    stored name with [path].  When [path] is a prefix of the name of a file
    in use, the new handle is bound to the first such file and the file
    table is left as it is; otherwise, a file with the name [path], zero
    size and an empty frame list is written to the next free entry and the
    handle is bound to it. *)
Theorem block_open_prefix (path : string) (s : state) :
  isOn s = true →
  0 ≤ nbFiles s ≤ Z.of_nat (length (files s)) →
  0 ≤ nbHandles s < Z.of_nat (length (handles s)) →
  ((∃ j f, (j < Z.to_nat (nbFiles s))%nat ∧ files s !! j = Some f
           ∧ name_prefix path f) →
   ∃ i s',
     first_match (files s) (Z.to_nat (nbFiles s)) path i
     ∧ block_open path s = Some (s', s16 (nbHandles s))
     ∧ files s' = files s
     ∧ nbFiles s' = nbFiles s
     ∧ handles s' = <[Z.to_nat (nbHandles s) := openFile i]> (handles s))
  ∧ ((∀ j f, (j < Z.to_nat (nbFiles s))%nat → files s !! j = Some f →
             ¬ name_prefix path f) →
     nbFiles s < Z.of_nat (length (files s)) →
     ∃ s',
       block_open path s = Some (s', s16 (nbHandles s))
       ∧ files s'
         = <[Z.to_nat (nbFiles s) :=
               {| name := path; size := 0; frames := [] |}]> (files s)
       ∧ nbFiles s' = nbFiles s + 1
       ∧ handles s'
         = <[Z.to_nat (nbHandles s) := openFile (Z.to_nat (nbFiles s))]>
             (handles s)).
Proof.
  intros Hon Hnf Hnh. unfold block_open. rewrite Hon. simpl.
  destruct (search_file_from (files s) path (Z.to_nat (nbFiles s)) 0)
    as [(i & -> & Hi)|[-> Hnone]]; [lia|intros k f Hk; lia| |]; simpl.
  - split.
    + intros _. exists i. eexists. split; [done|].
      rewrite set_Z_Some by done. simpl. by repeat split.
    + intros Hnone. destruct Hi as (Hlt & (f & Hf & Hpre) & _).
      by destruct (Hnone i f).
  - split.
    + intros (j & f & Hj & Hf & Hpre). by destruct (Hnone j f).
    + intros _ Hroom. rewrite set_Z_Some by lia. simpl.
      rewrite set_Z_Some by done. simpl. eexists. by repeat split.
Qed.

Lemma block_open_prefix_witness :
  (∃ i s',
     first_match (files sample_state) 2 "a" i
     ∧ block_open "a" sample_state = Some (s', 2))
  ∧ ∃ s', block_open "c" sample_on = Some (s', 0)
          ∧ nbFiles s' = 1.
Proof.
  split.
  - destruct (proj1 (block_open_prefix "a" sample_state
                       eq_refl ltac:(by_computation) ltac:(by_computation)))
      as (i & s' & Hi & Hopen & _).
    + exists 0%nat, {| name := "ab"; size := 5; frames := [3] |}.
      split; [simpl; lia|]. split; [done|]. by exists "b".
    + by exists i, s'.
  - destruct (proj2 (block_open_prefix "c" sample_on
                       eq_refl ltac:(by_computation) ltac:(by_computation)))
      as (s' & Hopen & _ & Hnb & _).
    + intros j f Hj. vm_compute in Hj. lia.
    + by_computation.
    + by exists s'.
Defined.

(** ** Seek *)

Section Seek.
Context `{P : BlockParams}.

(** C7.  [block_seek] fails exactly when the handle is closed or the
    position is beyond the size of the file; a position equal to the size is
    accepted.  A failed call changes nothing.  A successful call sets the
    cursor of the handle to the position and changes nothing else, and the
    loop of a following [block_read] or [block_write] on the handle starts
    at that byte. *)
Theorem block_seek_spec (fd pos : Z) (s : state) (h : fh_t) (fi : nat)
    (f : file_t) :
  at_Z (handles s) fd = Some h →
  (status h = OPEN →
   file h = Some fi ∧ files s !! fi = Some f ∧ 0 ≤ size f ≤ 2147483647) →
  0 ≤ pos ≤ 4294967295 →
  ∃ s' r,
    block_seek fd pos s = Some (s', r)
    ∧ (r = -1 ∨ r = 0)
    ∧ (r = -1 ↔ status h = CLOSED ∨ size f < pos)
    ∧ (r = -1 → s' = s)
    ∧ (r = 0 →
       s' = set_handles s
              (<[Z.to_nat fd := {| file := file h; loc := pos;
                                   status := status h |}]> (handles s))
       ∧ at_Z (handles s') fd
         = Some {| file := file h; loc := pos; status := status h |}
       ∧ (∀ buf count,
            isOn s = true →
            block_read fd buf count s'
            = let count := if bool_decide (size f - pos < count)
                           then size f - pos else count in
              '(s1, l, buf') ←
                read_loop (Z.to_nat count) fi s' pos count 0 buf;
              h1 ← at_Z (handles s1) fd;
              Some (set_loc s1 fd h1 l, count, buf'))
       ∧ (∀ buf count s0,
            allocateNewFrames fd count s' = Some (s0, 0) →
            block_write fd buf count s'
            = '(s1, l) ← write_loop (Z.to_nat count) fi s0 pos count 0 buf;
              h1 ← at_Z (handles s1) fd;
              let s2 := set_loc s1 fd h1 l in
              f2 ← files s2 !! fi;
              if bool_decide (size f2 < l) then
                Some (set_files s2
                        (<[fi := {| name := name f2; size := l;
                                    frames := frames f2 |}]> (files s2)),
                      count)
              else Some (s2, count))).
Proof.
  intros Hh Hopen Hpos. unfold block_seek. rewrite Hh. simpl.
  destruct (status h) eqn:Hst.
  - exists s, (-1). split; [done|]. split; [by left|].
    split; [by split; [left|]|]. by split.
  - destruct Hopen as (Hfile & Hf & Hsize); [done|].
    rewrite Hfile. simpl. rewrite Hf. simpl.
    replace (u32 (size f)) with (size f)
      by (unfold u32; rewrite Z.mod_small; lia).
    case_bool_decide as Hlt.
    + exists s, (-1). split; [done|]. split; [by left|].
      split; [by split; [right|]|]. by split.
    + replace (s32 pos) with pos
        by (unfold s32; rewrite Z.mod_small; lia).
      eexists _, 0. split; [done|]. split; [by right|].
      split; [split; [done|intros [|]; [done|lia]]|].
      split; [done|]. intros _.
      apply at_Z_Some in Hh as [Hfd Hh].
      assert (at_Z (<[Z.to_nat fd := {| file := Some fi; loc := pos;
                                        status := OPEN |}]> (handles s)) fd
              = Some {| file := Some fi; loc := pos; status := OPEN |}) as Hh'.
      { apply at_Z_Some. split; [done|]. apply list_lookup_insert_eq.
        by eapply lookup_lt_Some. }
      unfold set_loc. rewrite Hfile, Hst.
      split; [done|]. split; [done|]. split.
      * intros buf count Hon. unfold block_read. simpl.
        rewrite Hon, Hh'. simpl. by rewrite Hf.
      * intros buf count s0 Halloc. unfold block_write. simpl.
        rewrite Hh'. simpl. by rewrite Halloc.
Qed.

End Seek.

Lemma block_seek_spec_witness :
  ∃ s' r, block_seek 0 5 sample_state = Some (s', r) ∧ r = 0
          ∧ at_Z (handles s') 0
            = Some {| file := Some 0%nat; loc := 5; status := OPEN |}.
Proof.
  destruct (block_seek_spec (P:=sample_params) 0 5 sample_state
              {| file := Some 0%nat; loc := 2; status := OPEN |} 0%nat
              {| name := "ab"; size := 5; frames := [3] |}
              eq_refl ltac:(intros _; by_computation) ltac:(lia))
    as (s' & r & Hseek & [Hr|Hr] & Hfail & _ & Hok).
  - exfalso. apply Hfail in Hr as [Hr|Hr]; [discriminate|simpl in Hr; lia].
  - exists s', r. split; [done|]. split; [done|]. by apply Hok.
Defined.

(** ** Power off and power on *)

Section Power.
Context `{P : BlockParams}.

Lemma dev_frame_write (d : device_t) (n m : Z) (b : frame_t) :
  dev_frame (fst (executeOpcode b BLOCK_OP_WRFRME n d)) m
  = if bool_decide (n = m) then b else dev_frame d m.
Proof. unfold dev_frame. simpl. by case_bool_decide. Qed.

(** The metadata frames after [block_poweroff] hold the file table. *)
Lemma save_files_frame (fs : list file_t) : ∀ (i : Z) (d : device_t) (n : Z),
  dev_frame (save_files fs i d) n
  = match (if bool_decide (i ≤ n) then fs !! Z.to_nat (n - i) else None) with
    | Some f => frame_of_file f
    | None => dev_frame d n
    end.
Proof.
  induction fs as [|f fs IH]; intros i d n; cbn [save_files].
  - simpl. by case_bool_decide.
  - rewrite IH, dev_frame_write.
    destruct (decide (n = i)) as [->|Hne].
    + rewrite bool_decide_eq_false_2 by lia.
      rewrite !bool_decide_eq_true_2 by lia. by rewrite Z.sub_diag.
    + rewrite (bool_decide_eq_false_2 (i = n)) by lia.
      destruct (decide (i ≤ n)).
      * rewrite !bool_decide_eq_true_2 by lia.
        replace (Z.to_nat (n - i)) with (S (Z.to_nat (n - (i + 1)))) by lia.
        done.
      * by rewrite !bool_decide_eq_false_2 by lia.
Qed.

(** [block_poweroff] leaves the power flag as it is. *)
Lemma block_poweroff_isOn (s s' : state) (r : Z) :
  block_poweroff s = Some (s', r) → isOn s' = isOn s.
Proof.
  unfold block_poweroff. destruct (isOn s) eqn:Hon; simpl;
    [|by intros [= <- <-]].
  destruct (close_block_cache (bcache s)) as [[c r0]|]; simpl; [|done].
  case_bool_decide; by intros [= <- <-].
Qed.

(** [block_poweroff] on a driver that is on, whose cache is on and has the
    slots that [close_block_cache] zeroes. *)
Lemma block_poweroff_on (s : state) :
  isOn s = true → cacheOn (bcache s) = true →
  length (cache (bcache s)) = Z.to_nat (block_cache_max_items (bcache s)) →
  block_poweroff s
  = Some ({| isOn := true; nbFiles := 0; nbHandles := 0; freeFrameNr := 0;
             files := files s; handles := closeAllFiles (handles s);
             bcache :=
               {| block_cache_max_items := block_cache_max_items (bcache s);
                  cache := [];
                  putTracker := putTracker (bcache s);
                  lastAccess := lastAccess (bcache s);
                  cacheOn := false |};
             device := save_files (files s) 0 (device s) |}, 0).
Proof.
  intros Hon Hcache Hlen. unfold block_poweroff.
  rewrite Hon, (close_block_cache_on _ Hcache Hlen). done.
Qed.

(** The file table that [block_poweron] loads from the frames that
    [block_poweroff] wrote. *)
Lemma load_files_saved (fs : list file_t) (d : device_t) :
  length fs = BLOCK_MAX_TOTAL_FILES →
  Forall (λ f, file_of_frame (frame_of_file f) = f) fs →
  load_files (save_files fs 0 d) = fs.
Proof.
  intros Hlen Hcodec. unfold load_files. apply list_eq. intros k.
  rewrite list_lookup_fmap.
  destruct (decide (k < length fs)%nat) as [Hk|Hk].
  - destruct (lookup_lt_is_Some_2 _ _ Hk) as [f Hf].
    rewrite lookup_seqZ_lt by lia. simpl.
    rewrite save_files_frame, bool_decide_eq_true_2 by lia.
    rewrite Z.add_0_l, Z.sub_0_r, Nat2Z.id, Hf.
    f_equal. by apply (proj1 (Forall_lookup _ _) Hcodec k f).
  - rewrite lookup_seqZ_ge by lia. simpl. symmetry.
    apply lookup_ge_None_2. lia.
Qed.

(** C6.  After [block_poweroff] and [block_poweron], every file table
    entry, with its size and its frame list, is what it was before
    [block_poweroff].  [block_poweroff], on a driver that is on and whose
    cache is on and has its [block_cache_max_items] slots, returns 0 and
    writes the table to the metadata frames.  A program that then starts on
    the device as [block_poweroff] left it loads the table from these frames
    with [block_poweron], which returns 0, and has every entry as it was,
    when each entry comes back unchanged from a copy through a frame buffer.
    In the running program the call of [block_poweron] finds the power flag
    still set and returns -1, the table being as it was. *)
Theorem metadata_round_trip (s : state) :
  isOn s = true →
  cacheOn (bcache s) = true →
  length (cache (bcache s)) = Z.to_nat (block_cache_max_items (bcache s)) →
  length (files s) = BLOCK_MAX_TOTAL_FILES →
  Forall (λ f, file_of_frame (frame_of_file f) = f) (files s) →
  ∃ s1,
    block_poweroff s = Some (s1, 0)
    ∧ files (fst (block_poweron (boot (device s1)))) = files s
    ∧ snd (block_poweron (boot (device s1))) = 0
    ∧ (∀ i f, files s !! i = Some f →
         file_of_frame (dev_frame (device s1) (Z.of_nat i)) = f)
    ∧ files s1 = files s
    ∧ block_poweron s1 = (s1, -1).
Proof.
  intros Hon Hcache Hslots Hlen Hcodec.
  eexists. split; [by apply block_poweroff_on|]. simpl.
  split; [|split; [done|]].
  - unfold block_poweron, boot. simpl. by apply load_files_saved.
  - split; [|done]. intros i f Hf.
    rewrite save_files_frame, bool_decide_eq_true_2 by lia.
    rewrite Z.sub_0_r, Nat2Z.id, Hf.
    by apply (proj1 (Forall_lookup _ _) Hcodec i f).
Qed.

End Power.

Lemma metadata_round_trip_witness :
  ∃ s1,
    block_poweroff (P:=sample_params) sample_state = Some (s1, 0)
    ∧ files (fst (block_poweron (P:=sample_params)
                    (boot (P:=sample_params) (device s1))))
      = files sample_state.
Proof.
  destruct (metadata_round_trip (P:=sample_params) sample_state
              eq_refl eq_refl eq_refl eq_refl)
    as (s1 & Hoff & Hfiles & _); [by repeat constructor|].
  by exists s1.
Defined.

(** C8.  Calls that do not fail although the system is powered off.
    [block_poweroff] leaves the power flag as it is.  So in the run
    [block_poweron], [block_poweroff], both returning 0, the flag is still
    set afterwards: [block_open] creates a file and returns handle 0,
    [block_seek] on that handle returns 0, and a second [block_poweron]
    returns -1.  And [block_seek] and [block_write] do not look at the flag:
    on a state with the flag clear and a handle open, they return 0 and the
    count, and move the cursor. *)
Theorem open_after_poweroff :
  (∀ (P : BlockParams) (s s' : state) (r : Z),
     block_poweroff s = Some (s', r) → isOn s' = isOn s)
  ∧ (let s1 := fst (block_poweron (P:=sample_params)
                      (boot (P:=sample_params) sample_device)) in
     snd (block_poweron (P:=sample_params)
            (boot (P:=sample_params) sample_device)) = 0
     ∧ ∃ s2, block_poweroff (P:=sample_params) s1 = Some (s2, 0)
       ∧ isOn s2 = true
       ∧ nbFiles s2 = 0
       ∧ snd (block_poweron (P:=sample_params) s2) = -1
       ∧ ∃ s3, block_open "a" s2 = Some (s3, 0)
               ∧ nbFiles s3 = 1
               ∧ at_Z (handles s3) 0
                 = Some {| file := Some 0%nat; loc := 0; status := OPEN |}
               ∧ block_seek 0 0 s3 = Some (s3, 0))
  ∧ (isOn sample_off = false
     ∧ (∃ s', block_seek 0 5 sample_off = Some (s', 0)
              ∧ at_Z (handles s') 0
                = Some {| file := Some 0%nat; loc := 5; status := OPEN |})
     ∧ ∃ s', block_write (P:=sample_params) 0 (seqZ 1 10) 10 sample_off
             = Some (s', 10)
             ∧ at_Z (handles s') 0
               = Some {| file := Some 0%nat; loc := 12; status := OPEN |}).
Proof.
  split; [intros P s s' r; apply block_poweroff_isOn|]. split.
  - simpl. split; [done|]. eexists. split; [vm_compute; reflexivity|].
    repeat split. eexists. repeat split.
  - split; [done|]. split; eexists; split; vm_compute; reflexivity.
Qed.

(** ** Frame arithmetic *)

Section Chunks.
Context `{P : BlockParams}.
Hypothesis HFS : 0 < BLOCK_FRAME_SIZE.

Lemma frame_size_ne : BLOCK_FRAME_SIZE ≠ 0.
Proof. lia. Qed.

(** A turn of either loop copies at least one byte and stays in its
    frame. *)
Lemma chunk_bounds (loc remaining : Z) :
  0 ≤ loc → 0 < remaining →
  let off := Z.rem loc BLOCK_FRAME_SIZE in
  off = loc `mod` BLOCK_FRAME_SIZE
  ∧ Z.quot loc BLOCK_FRAME_SIZE = loc `div` BLOCK_FRAME_SIZE
  ∧ 0 ≤ off < BLOCK_FRAME_SIZE
  ∧ 0 < chunk off remaining ≤ remaining
  ∧ off + chunk off remaining ≤ BLOCK_FRAME_SIZE.
Proof.
  intros Hloc Hrem off. unfold off.
  rewrite Z.rem_mod_nonneg, Z.quot_div_nonneg by lia.
  pose proof (Z.mod_pos_bound loc BLOCK_FRAME_SIZE HFS).
  unfold chunk. case_bool_decide; repeat split; lia.
Qed.

(** The bytes of a chunk are the bytes of its frame from the offset on. *)
Lemma chunk_div_mod (loc n p : Z) :
  0 ≤ loc → 0 ≤ p →
  loc `mod` BLOCK_FRAME_SIZE + n ≤ BLOCK_FRAME_SIZE →
  loc ≤ p < loc + n ↔
  p `div` BLOCK_FRAME_SIZE = loc `div` BLOCK_FRAME_SIZE
  ∧ loc `mod` BLOCK_FRAME_SIZE ≤ p `mod` BLOCK_FRAME_SIZE
    < loc `mod` BLOCK_FRAME_SIZE + n.
Proof.
  intros Hloc Hp Hn.
  pose proof (Z.div_mod loc BLOCK_FRAME_SIZE frame_size_ne) as Hl.
  pose proof (Z.div_mod p BLOCK_FRAME_SIZE frame_size_ne) as Hq.
  pose proof (Z.mod_pos_bound loc BLOCK_FRAME_SIZE HFS).
  pose proof (Z.mod_pos_bound p BLOCK_FRAME_SIZE HFS).
  split.
  - intros Hin.
    assert (p `div` BLOCK_FRAME_SIZE = loc `div` BLOCK_FRAME_SIZE) as Hk
      by nia.
    split; [done|]. rewrite Hk in Hq. lia.
  - intros [Hk Hin]. rewrite Hk in Hq. lia.
Qed.

Lemma chunk_mod (loc n p : Z) :
  0 ≤ loc → loc ≤ p < loc + n →
  loc `mod` BLOCK_FRAME_SIZE + n ≤ BLOCK_FRAME_SIZE →
  p `div` BLOCK_FRAME_SIZE = loc `div` BLOCK_FRAME_SIZE
  ∧ p `mod` BLOCK_FRAME_SIZE = loc `mod` BLOCK_FRAME_SIZE + (p - loc).
Proof.
  intros Hloc Hp Hn.
  destruct (proj1 (chunk_div_mod loc n p Hloc ltac:(lia) Hn) Hp) as [Hk _].
  split; [done|].
  pose proof (Z.div_mod loc BLOCK_FRAME_SIZE frame_size_ne) as Hl.
  pose proof (Z.div_mod p BLOCK_FRAME_SIZE frame_size_ne) as Hq.
  rewrite Hk in Hq. lia.
Qed.

(** [frames_for n] frames hold [n] bytes. *)
Lemma frames_for_cover (n : Z) : n ≤ BLOCK_FRAME_SIZE * frames_for n.
Proof.
  unfold frames_for.
  pose proof (Z.div_mod (n + BLOCK_FRAME_SIZE - 1) BLOCK_FRAME_SIZE frame_size_ne).
  pose proof (Z.mod_pos_bound (n + BLOCK_FRAME_SIZE - 1) BLOCK_FRAME_SIZE HFS).
  lia.
Qed.

(** A position below the end of the frame list lies in one of its
    frames. *)
Lemma frame_of_pos (fr : list Z) (p : Z) :
  0 ≤ p < BLOCK_FRAME_SIZE * Z.of_nat (length fr) →
  ∃ g, at_Z fr (p `div` BLOCK_FRAME_SIZE) = Some g
       ∧ fr !! Z.to_nat (p `div` BLOCK_FRAME_SIZE) = Some g.
Proof.
  intros Hp.
  pose proof (Z.div_mod p BLOCK_FRAME_SIZE frame_size_ne).
  pose proof (Z.mod_pos_bound p BLOCK_FRAME_SIZE HFS).
  assert (0 ≤ p `div` BLOCK_FRAME_SIZE < Z.of_nat (length fr)) by nia.
  destruct (lookup_lt_is_Some_2 fr (Z.to_nat (p `div` BLOCK_FRAME_SIZE)))
    as [g Hg]; [lia|].
  exists g. split; [|done]. apply at_Z_Some. split; [lia|done].
Qed.

End Chunks.

(** ** The read and write loops *)

Section Transfer.
Context `{P : BlockParams}.
Hypothesis HFS : 0 < BLOCK_FRAME_SIZE.

Lemma set_bcache_same (s : state) : set_bcache s (bcache s) = s.
Proof. by destruct s. Qed.

Lemma zero_frame_length : length zero_frame = Z.to_nat BLOCK_FRAME_SIZE.
Proof. unfold zero_frame. by rewrite length_replicate. Qed.

Lemma coherent_slots (c c' : cache_t) (d : device_t) :
  slots c' = slots c → coherent c d → coherent c' d.
Proof. unfold coherent. by intros ->. Qed.

Lemma cache_uniq_slots (c c' : cache_t) :
  slots c' = slots c → cache_uniq c → cache_uniq c'.
Proof. unfold cache_uniq. by intros ->. Qed.

(** Both loops get the frame as the device holds it, whether it comes from
    the cache or from the device, and only the cache changes. *)
Lemma load_frame_ok (fill : bool) (n : Z) (s : state) :
  io_ok s → valid_frame n →
  ∃ c', load_frame fill n s = Some (set_bcache s c', dev_frame (device s) n)
        ∧ io_ok (set_bcache s c').
Proof.
  intros (Hok & Hcoh & Huniq & Hdev) Hn. unfold load_frame.
  destruct (get_block_cache_slots (bcache s) 0 n Hok)
    as (c1 & r & -> & Hok1 & Hsl & Hr).
  simpl.
  pose proof (coherent_slots _ _ _ Hsl Hcoh) as Hcoh1.
  pose proof (cache_uniq_slots _ _ Hsl Huniq) as Huniq1.
  destruct r as [data|].
  - destruct Hr as [i Hi].
    assert (data = dev_frame (device s) n) as ->.
    { rewrite (Hcoh i (to_frm n) data Hi (valid_frame_ne n Hn)).
      by rewrite to_frm_valid. }
    rewrite memcpy_whole by (lia || apply zero_frame_length || apply Hdev).
    simpl. exists c1. split; [done|].
    exact (conj Hok1 (conj Hcoh1 (conj Huniq1 Hdev))).
  - destruct fill.
    + destruct (put_block_cache_slots c1 0 n (dev_frame (device s) n))
        as (c2 & i & -> & Hok2 & Hi & Hsl2 & Hother);
        [done|lia|apply Hdev|done|by apply valid_frame_ne|].
      simpl. exists c2. split; [done|].
      destruct (put_keeps_coherent c1 c2 i (to_frm n) _ (device s) (device s)
                  Hcoh1 Huniq1 Hsl2 Hi Hother) as [? ?];
        [by rewrite to_frm_valid|done|].
      by split_and!.
    + exists c1. split; [done|].
      exact (conj Hok1 (conj Hcoh1 (conj Huniq1 Hdev))).
Qed.

(** What [read_loop] does: it ends with the cursor advanced by [remaining],
    has changed the cache only, and has copied the bytes of the file from
    [loc] on to the buffer from [bufOffset] on. *)
Lemma read_loop_spec (fi : nat) (f : file_t) (fuel : nat) :
  ∀ (s : state) (loc remaining bufOffset : Z) (buf : list Z),
  io_ok s → files s !! fi = Some f → Forall valid_frame (frames f) →
  0 ≤ loc → 0 ≤ remaining →
  loc + remaining ≤ BLOCK_FRAME_SIZE * Z.of_nat (length (frames f)) →
  loc + remaining ≤ 2147483647 →
  (Z.to_nat remaining ≤ fuel)%nat →
  0 ≤ bufOffset → bufOffset + remaining ≤ Z.of_nat (length buf) →
  ∃ c' buf',
    read_loop fuel fi s loc remaining bufOffset buf
    = Some (set_bcache s c', loc + remaining, buf')
    ∧ io_ok (set_bcache s c')
    ∧ length buf' = length buf
    ∧ ∀ j : nat,
        buf' !! j
        = if bool_decide (bufOffset ≤ Z.of_nat j < bufOffset + remaining)
          then file_byte f (device s) (loc + (Z.of_nat j - bufOffset))
          else buf !! j.
Proof.
  induction fuel as [|fuel IH];
    intros s loc remaining bufOffset buf Hio Hf Hvalid Hloc Hrem Hcover Hmax
      Hfuel Hoff Hbuf.
  - assert (remaining = 0) as -> by lia. simpl.
    exists (bcache s), buf. rewrite set_bcache_same, Z.add_0_r.
    split; [done|]. split; [done|]. split; [done|].
    intros j. by rewrite bool_decide_eq_false_2 by lia.
  - cbn [read_loop]. case_bool_decide as Hz.
    { subst remaining. exists (bcache s), buf.
      rewrite set_bcache_same, Z.add_0_r.
      split; [done|]. split; [done|]. split; [done|].
      intros j. by rewrite bool_decide_eq_false_2 by lia. }
    rewrite Hf. simpl.
    destruct (chunk_bounds HFS loc remaining Hloc ltac:(lia))
      as (Hoff_eq & Hquot & Hoff_range & Hchunk & Hfit).
    set (off := Z.rem loc BLOCK_FRAME_SIZE) in *.
    set (n := chunk off remaining) in *.
    rewrite Hquot.
    destruct (frame_of_pos HFS (frames f) loc ltac:(lia)) as (g & Hg & Hg').
    rewrite Hg. simpl.
    assert (valid_frame g) as Hvg
      by (by apply (proj1 (Forall_lookup _ _) Hvalid _ g Hg')).
    destruct (load_frame_ok true g s Hio Hvg) as (c1 & -> & Hio1).
    simpl. pose proof Hio as (_ & _ & _ & Hdev).
    destruct (memcpy buf bufOffset (dev_frame (device s) g) off n)
      as [buf1|] eqn:Hcopy;
      [|rewrite memcpy_Some in Hcopy by (rewrite ?Hdev; lia); done].
    simpl. unfold i32. rewrite bool_decide_eq_true_2 by lia. simpl.
    destruct (IH (set_bcache s c1) (loc + n) (remaining - n) (bufOffset + n)
                buf1) as (c2 & buf2 & -> & Hio2 & Hlen2 & Hbytes);
      [done|done|done|lia|lia|lia|lia|lia|lia|
       rewrite (memcpy_length _ _ _ _ _ _ Hcopy); lia|].
    exists c2, buf2.
    replace (loc + n + (remaining - n)) with (loc + remaining) by lia.
    split; [done|]. split; [done|].
    split; [by rewrite Hlen2, (memcpy_length _ _ _ _ _ _ Hcopy)|].
    intros j. rewrite Hbytes. simpl.
    rewrite (memcpy_lookup _ _ _ _ _ _ j Hcopy).
    destruct (decide (bufOffset ≤ Z.of_nat j < bufOffset + n)) as [Hj|Hj].
    + rewrite bool_decide_eq_false_2 by lia.
      rewrite !bool_decide_eq_true_2 by lia.
      set (p := loc + (Z.of_nat j - bufOffset)).
      destruct (chunk_mod HFS loc n p Hloc ltac:(lia) ltac:(lia)) as [Hk Hr].
      unfold file_byte. rewrite Hk, Hr, Hg. simpl. f_equal. lia.
    + rewrite (bool_decide_eq_false_2 (bufOffset ≤ Z.of_nat j < bufOffset + n))
        by done.
      destruct (decide (bufOffset + n ≤ Z.of_nat j < bufOffset + remaining)).
      * rewrite !bool_decide_eq_true_2 by lia. f_equal. lia.
      * by rewrite !bool_decide_eq_false_2 by lia.
Qed.

Lemma set_device_same (s : state) :
  set_device (set_bcache s (bcache s)) (device s) = s.
Proof. by destruct s. Qed.

Lemma dev_frame_wrfrme (d : device_t) (n m : Z) (b : frame_t) :
  dev_frame {| media := media d; wlog := (n, b) :: wlog d |} m
  = if bool_decide (n = m) then b else dev_frame d m.
Proof. unfold dev_frame. simpl. by case_bool_decide. Qed.

(** The bytes of a file after one of its frames has taken a chunk of the
    caller's buffer. *)
Lemma write_chunk_bytes (f : file_t) (d : device_t) (buf : list Z)
    (g loc n bufOffset p : Z) (frame' : frame_t) :
  NoDup (frames f) → 0 ≤ loc →
  frames f !! Z.to_nat (loc `div` BLOCK_FRAME_SIZE) = Some g →
  loc `mod` BLOCK_FRAME_SIZE + n ≤ BLOCK_FRAME_SIZE →
  memcpy (dev_frame d g) (loc `mod` BLOCK_FRAME_SIZE) buf bufOffset n
  = Some frame' →
  0 ≤ p < BLOCK_FRAME_SIZE * Z.of_nat (length (frames f)) →
  file_byte f (fst (executeOpcode frame' BLOCK_OP_WRFRME g d)) p
  = if bool_decide (loc ≤ p < loc + n)
    then buf !! Z.to_nat (bufOffset + (p - loc))
    else file_byte f d p.
Proof.
  intros Hdup Hloc Hg Hfit Hcopy Hp. unfold file_byte.
  destruct (frame_of_pos HFS (frames f) p Hp) as (g' & Hg1 & Hg2).
  rewrite Hg1. simpl. rewrite dev_frame_wrfrme.
  pose proof (Z.mod_pos_bound p BLOCK_FRAME_SIZE HFS) as Hpm.
  pose proof (chunk_div_mod HFS loc n p Hloc ltac:(lia) Hfit) as Hin.
  destruct (decide (p `div` BLOCK_FRAME_SIZE = loc `div` BLOCK_FRAME_SIZE))
    as [Hk|Hk].
  - rewrite Hk, Hg in Hg2. injection Hg2 as <-.
    rewrite bool_decide_eq_true_2 by done.
    rewrite (memcpy_lookup _ _ _ _ _ _ _ Hcopy), Z2Nat.id by lia.
    destruct (decide (loc ≤ p < loc + n)) as [Hc|Hc].
    + destruct (chunk_mod HFS loc n p Hloc Hc Hfit) as [_ Hr].
      rewrite !bool_decide_eq_true_2 by lia. f_equal. lia.
    + rewrite (bool_decide_eq_false_2 (loc ≤ p < loc + n)) by done.
      rewrite bool_decide_eq_false_2; [done|]. intros Hr. apply Hc, Hin.
      by split.
  - rewrite (bool_decide_eq_false_2 (loc ≤ p < loc + n))
      by (intros Hc; by apply Hin in Hc as [? _]).
    rewrite bool_decide_eq_false_2; [done|]. intros ->.
    pose proof (NoDup_lookup _ _ _ _ Hdup Hg Hg2) as Heq.
    pose proof (Z.div_pos loc BLOCK_FRAME_SIZE Hloc HFS).
    pose proof (Z.div_pos p BLOCK_FRAME_SIZE ltac:(lia) HFS).
    lia.
Qed.

(** What [write_loop] does: it ends with the cursor advanced by
    [remaining], has changed the cache and the frames of the file only, and
    has put the bytes of the buffer from [bufOffset] on into the file from
    [loc] on, the other bytes of the file being what they were. *)
Lemma write_loop_spec (fi : nat) (f : file_t) (buf : list Z) (fuel : nat) :
  ∀ (s : state) (loc remaining bufOffset : Z),
  io_ok s → files s !! fi = Some f → Forall valid_frame (frames f) →
  0 ≤ loc → 0 ≤ remaining →
  loc + remaining ≤ BLOCK_FRAME_SIZE * Z.of_nat (length (frames f)) →
  loc + remaining ≤ 2147483647 →
  (Z.to_nat remaining ≤ fuel)%nat →
  0 ≤ bufOffset → bufOffset + remaining ≤ Z.of_nat (length buf) →
  ∃ c' d',
    write_loop fuel fi s loc remaining bufOffset buf
    = Some (set_device (set_bcache s c') d', loc + remaining)
    ∧ io_ok (set_device (set_bcache s c') d')
    ∧ (∀ g, g ∉ frames f → dev_frame d' g = dev_frame (device s) g)
    ∧ (NoDup (frames f) →
       ∀ p, 0 ≤ p < BLOCK_FRAME_SIZE * Z.of_nat (length (frames f)) →
         file_byte f d' p
         = if bool_decide (loc ≤ p < loc + remaining)
           then buf !! Z.to_nat (bufOffset + (p - loc))
           else file_byte f (device s) p).
Proof.
  induction fuel as [|fuel IH];
    intros s loc remaining bufOffset Hio Hf Hvalid Hloc Hrem Hcover Hmax
      Hfuel Hoff Hbuf.
  - assert (remaining = 0) as -> by lia. simpl.
    exists (bcache s), (device s). rewrite set_device_same, Z.add_0_r.
    split; [done|]. split; [done|]. split; [done|].
    intros _ p _. by rewrite bool_decide_eq_false_2 by lia.
  - cbn [write_loop]. case_bool_decide as Hz.
    2: { assert (remaining = 0) as -> by lia.
         exists (bcache s), (device s). rewrite set_device_same, Z.add_0_r.
         split; [done|]. split; [done|]. split; [done|].
         intros _ p _. by rewrite bool_decide_eq_false_2 by lia. }
    rewrite Hf. simpl.
    destruct (chunk_bounds HFS loc remaining Hloc ltac:(lia))
      as (Hoff_eq & Hquot & Hoff_range & Hchunk & Hfit).
    set (off := Z.rem loc BLOCK_FRAME_SIZE) in *.
    set (n := chunk off remaining) in *.
    rewrite Hquot.
    destruct (frame_of_pos HFS (frames f) loc ltac:(lia)) as (g & Hg & Hg').
    rewrite Hg. simpl.
    assert (valid_frame g) as Hvg
      by (by apply (proj1 (Forall_lookup _ _) Hvalid _ g Hg')).
    destruct (load_frame_ok false g s Hio Hvg) as (c1 & -> & Hio1).
    simpl. destruct Hio1 as (Hok1 & Hcoh1 & Huniq1 & Hdev).
    simpl in Hok1, Hcoh1, Huniq1, Hdev.
    destruct (memcpy (dev_frame (device s) g) off buf bufOffset n)
      as [frame'|] eqn:Hcopy;
      [|rewrite memcpy_Some in Hcopy by (rewrite ?Hdev; lia); done].
    simpl.
    assert (length frame' = Z.to_nat BLOCK_FRAME_SIZE) as Hlen'
      by (by rewrite (memcpy_length _ _ _ _ _ _ Hcopy)).
    destruct (put_block_cache_slots c1 0 g frame')
      as (c2 & i & -> & Hok2 & Hi & Hsl2 & Hother);
      [done|lia|done|done|by apply valid_frame_ne|].
    simpl. unfold i32. rewrite bool_decide_eq_true_2 by lia. simpl.
    set (d1 := {| media := media (device s);
                  wlog := @cons (Z * frame_t) (@pair Z frame_t g frame')
                            (wlog (device s)) |}).
    assert (∀ m, dev_frame d1 m
                 = if bool_decide (g = m) then frame' else dev_frame (device s) m)
      as Hd1 by (intros m; apply (dev_frame_wrfrme (device s) g m frame')).
    destruct (put_keeps_coherent c1 c2 i (to_frm g) frame' (device s) d1
                Hcoh1 Huniq1 Hsl2 Hi Hother) as [Hcoh2 Huniq2].
    { rewrite to_frm_valid, Hd1 by done. by rewrite bool_decide_eq_true_2. }
    { intros m Hm. rewrite to_frm_valid in Hm by done.
      rewrite Hd1. by rewrite bool_decide_eq_false_2. }
    assert (device_ok d1) as Hdev1.
    { intros m. rewrite Hd1. by case_bool_decide. }
    destruct (IH (set_device (set_bcache (set_bcache s c1) c2) d1) (loc + n)
                (remaining - n) (bufOffset + n))
      as (c3 & d3 & Hloop & Hio3 & Hframes3 & Hbytes3);
      [by split_and!|done|done|lia|lia|lia|lia|lia|lia|lia|].
    exists c3, d3.
    split; [etrans; [exact Hloop|]; simpl; do 2 f_equal; lia|].
    split; [done|]. split.
    + intros m Hm. rewrite (Hframes3 m Hm). simpl. rewrite Hd1.
      rewrite bool_decide_eq_false_2; [done|]. intros <-. apply Hm.
      by eapply list_elem_of_lookup_2.
    + intros Hdup p Hp. rewrite (Hbytes3 Hdup p Hp). simpl.
      rewrite Hoff_eq in Hcopy, Hfit.
      pose proof (write_chunk_bytes f (device s) buf g loc n bufOffset p frame'
                    Hdup Hloc Hg' Hfit Hcopy Hp) as Hstep.
      simpl in Hstep. fold d1 in Hstep. rewrite Hstep.
      destruct (decide (loc ≤ p < loc + n)).
      * rewrite bool_decide_eq_false_2 by lia.
        by rewrite !bool_decide_eq_true_2 by lia.
      * rewrite (bool_decide_eq_false_2 (loc ≤ p < loc + n)) by done.
        destruct (decide (loc + n ≤ p < loc + remaining)).
        -- rewrite !bool_decide_eq_true_2 by lia. f_equal. lia.
        -- by rewrite !bool_decide_eq_false_2 by lia.
Qed.

End Transfer.

(** ** Read *)

Section Read.
Context `{P : BlockParams}.
Hypothesis HFS : 0 < BLOCK_FRAME_SIZE.

Lemma at_Z_insert_eq {A} (a : list A) (z : Z) (x y : A) :
  at_Z a z = Some x → at_Z (<[Z.to_nat z := y]> a) z = Some y.
Proof.
  intros [Hz Hx]%at_Z_Some. apply at_Z_Some. split; [done|].
  apply list_lookup_insert_eq. by eapply lookup_lt_Some.
Qed.

Lemma at_Z_insert_ne {A} (a : list A) (z z' : Z) (y : A) :
  0 ≤ z → z' ≠ z → at_Z (<[Z.to_nat z := y]> a) z' = at_Z a z'.
Proof.
  intros Hz Hne. unfold at_Z. case_bool_decide; [|done].
  apply list_lookup_insert_ne. lia.
Qed.

(** What [block_read] does on an open handle whose cursor is within the
    file. *)
Lemma block_read_spec (fd : Z) (buf : list Z) (count : Z) (s : state)
    (h : fh_t) (fi : nat) (f : file_t) :
  isOn s = true → open_on s fd h fi f → file_ok f → io_ok s →
  0 ≤ loc h ≤ size f → 0 ≤ count →
  Z.min count (size f - loc h) ≤ Z.of_nat (length buf) →
  ∃ c' buf',
    block_read fd buf count s
    = Some (set_handles (set_bcache s c')
              (<[Z.to_nat fd := moved h (loc h + Z.min count (size f - loc h))]>
                 (handles s)),
            Z.min count (size f - loc h), buf')
    ∧ io_ok (set_bcache s c')
    ∧ length buf' = length buf
    ∧ ∀ j : nat,
        buf' !! j
        = if bool_decide (Z.of_nat j < Z.min count (size f - loc h))
          then file_byte f (device s) (loc h + Z.of_nat j)
          else buf !! j.
Proof.
  intros Hon (Hh & Hst & Hfile & Hf) (Hvalid & Hsize & Hmax) Hio Hloc Hcount
    Hbuf.
  unfold block_read. rewrite Hon, Hh. simpl. rewrite Hst, Hfile. simpl.
  rewrite Hf. simpl.
  set (n := Z.min count (size f - loc h)) in *.
  assert ((if bool_decide (size f - loc h < count) then size f - loc h
           else count) = n) as ->
      by (unfold n; case_bool_decide; lia).
  destruct (read_loop_spec HFS fi f (Z.to_nat n) s (loc h) n 0 buf)
    as (c' & buf' & -> & Hio' & Hlen & Hbytes);
    [done|done|done|lia|lia|lia|lia|lia|lia|lia|].
  simpl. rewrite Hh. simpl. exists c', buf'.
  split; [done|]. split; [done|]. split; [done|].
  intros j. rewrite Hbytes.
  destruct (decide (Z.of_nat j < n)).
  - rewrite !bool_decide_eq_true_2 by lia. f_equal. lia.
  - by rewrite !bool_decide_eq_false_2 by lia.
Qed.

(** C2.  On an open handle whose cursor is not beyond the size of the
    file, [block_read] returns the smaller of [count] and the number of
    bytes from the cursor to the end of the file, and advances the cursor
    by this number; at the end of the file it returns 0, which is not the
    error value. *)
Theorem block_read_clamps (fd : Z) (buf : list Z) (count : Z) (s : state)
    (h : fh_t) (fi : nat) (f : file_t) :
  isOn s = true → open_on s fd h fi f → file_ok f → io_ok s →
  0 ≤ loc h ≤ size f → 0 ≤ count →
  Z.min count (size f - loc h) ≤ Z.of_nat (length buf) →
  ∃ s' r buf',
    block_read fd buf count s = Some (s', r, buf')
    ∧ r = Z.min count (size f - loc h)
    ∧ at_Z (handles s') fd = Some (moved h (loc h + r))
    ∧ (loc h = size f → r = 0)
    ∧ r ≠ -1.
Proof.
  intros Hon Hopen Hfile Hio Hloc Hcount Hbuf.
  destruct (block_read_spec fd buf count s h fi f)
    as (c' & buf' & -> & _); [done..|].
  eexists _, _, buf'. split; [done|]. split; [done|]. split; [|split].
  - simpl. eapply at_Z_insert_eq, Hopen.
  - lia.
  - lia.
Qed.

(** Whatever they return, [load_frame] and [read_loop] change the cache
    only. *)
Lemma load_frame_frame (fill : bool) (n : Z) (s s' : state) (fr : frame_t) :
  load_frame fill n s = Some (s', fr) → ∃ c', s' = set_bcache s c'.
Proof.
  unfold load_frame. intros Hload.
  destruct (get_block_cache 0 n (bcache s)) as [[c [p|]]|]; simplify_eq/=.
  - destruct (memcpy zero_frame 0 p 0 BLOCK_FRAME_SIZE); simplify_eq/=.
    by exists c.
  - destruct fill; simplify_eq/=; [|by exists c].
    destruct (put_block_cache 0 n _ c) as [[c' r]|]; simplify_eq/=.
    by exists c'.
Qed.

Lemma read_loop_frame (fi : nat) (fuel : nat) :
  ∀ (s s' : state) (loc remaining bufOffset l : Z) (buf buf' : list Z),
  read_loop fuel fi s loc remaining bufOffset buf = Some (s', l, buf') →
  ∃ c', s' = set_bcache s c'.
Proof.
  induction fuel as [|fuel IH];
    intros s s' loc remaining bufOffset l buf buf' Hloop;
    cbn [read_loop] in Hloop; case_bool_decide.
  - injection Hloop as <- _ _. exists (bcache s). by rewrite set_bcache_same.
  - done.
  - injection Hloop as <- _ _. exists (bcache s). by rewrite set_bcache_same.
  - destruct (files s !! fi) as [f|]; simplify_eq/=.
    destruct (at_Z (frames f) _) as [g|]; simplify_eq/=.
    destruct (load_frame true g s) as [[s1 fr]|] eqn:Hload; simplify_eq/=.
    destruct (memcpy buf _ fr _ _) as [buf1|]; simplify_eq/=.
    destruct (i32 _) as [loc1|]; simplify_eq/=.
    apply load_frame_frame in Hload as [c1 ->].
    apply IH in Hloop as [c2 ->]. by exists c2.
Qed.

(** C10.  Whatever [block_read] returns, it has changed the cursor of the
    handle it is called on and the cache, and nothing else: the device and
    the writes issued to it, the file table, the other handles, the file and
    the status of the handle, the counters and the power flag are what they
    were.  And on an open handle whose cursor is within a well-formed file,
    it does return, with a value other than -1 and a cache that agrees with
    the device. *)
Theorem block_read_frame (fd : Z) (buf : list Z) (count : Z) (s : state) :
  (∀ s' r buf',
     block_read fd buf count s = Some (s', r, buf') →
     device s' = device s
     ∧ wlog (device s') = wlog (device s)
     ∧ files s' = files s
     ∧ isOn s' = isOn s
     ∧ nbFiles s' = nbFiles s
     ∧ nbHandles s' = nbHandles s
     ∧ freeFrameNr s' = freeFrameNr s
     ∧ length (handles s') = length (handles s)
     ∧ (∀ fd', fd' ≠ fd → at_Z (handles s') fd' = at_Z (handles s) fd')
     ∧ (∀ h, at_Z (handles s) fd = Some h →
             ∃ l, at_Z (handles s') fd = Some (moved h l)))
  ∧ (∀ h fi f,
       isOn s = true → open_on s fd h fi f → file_ok f → io_ok s →
       0 ≤ loc h ≤ size f → 0 ≤ count →
       Z.min count (size f - loc h) ≤ Z.of_nat (length buf) →
       ∃ s' r buf',
         block_read fd buf count s = Some (s', r, buf') ∧ r ≠ -1 ∧ io_ok s').
Proof.
  split.
  - intros s' r buf' Hread.
    assert (s' = s → ∀ h, at_Z (handles s) fd = Some h →
            ∃ l, at_Z (handles s') fd = Some (moved h l)) as Hsame.
    { intros -> h Hh. exists (loc h). rewrite Hh. by destruct h. }
    unfold block_read in Hread.
    destruct (isOn s) eqn:Hon; simplify_eq/=; [|by split_and!; auto].
    destruct (at_Z (handles s) fd) as [h|] eqn:Hh; simplify_eq/=.
    destruct (status h) eqn:Hst; simplify_eq/=; [by split_and!; auto|].
    destruct (file h) as [fi|]; simplify_eq/=.
    destruct (files s !! fi) as [f|]; simplify_eq/=.
    destruct (read_loop _ fi s _ _ _ _) as [[[s1 l] buf1]|] eqn:Hloop;
      simplify_eq/=.
    apply read_loop_frame in Hloop as [c' ->]. simpl in Hread.
    rewrite Hh in Hread. simplify_eq/=.
    pose proof Hh as [Hfd _]%at_Z_Some.
    repeat (split; [done|]).
    split; [by rewrite length_insert|].
    split; [intros fd' Hne; by apply at_Z_insert_ne|].
    intros h' [= <-]. exists l. by eapply at_Z_insert_eq.
  - intros h fi f Hon Hopen Hfile Hio Hloc Hcount Hbuf.
    destruct (block_read_spec fd buf count s h fi f)
      as (c' & buf' & Hread & Hio' & _); [done..|].
    eexists _, _, buf'. split; [exact Hread|]. split; [lia|]. exact Hio'.
Qed.

End Read.

(** ** Write *)

Section Write.
Context `{P : BlockParams}.
Hypothesis HFS : 0 < BLOCK_FRAME_SIZE.

Lemma allocateNewFrames_ok (fd count : Z) (s s0 : state) (h : fh_t) (fi : nat)
    (f : file_t) :
  open_on s fd h fi f →
  allocateNewFrames fd count s = Some (s0, 0) →
  let missing := frames_for (loc h + count) - Z.of_nat (length (frames f)) in
  s0 = set_freeFrameNr (set_files s (<[fi := grown s h f count]> (files s)))
         (freeFrameNr s + Z.max 0 missing)
  ∧ (0 < missing → freeFrameNr s + missing ≤ BLOCK_NUM_FRAMES).
Proof.
  intros (Hh & Hst & Hfile & Hf). unfold allocateNewFrames, grown.
  rewrite Hh. simpl. rewrite Hfile. simpl. rewrite Hf. simpl.
  set (missing := frames_for (loc h + count) - Z.of_nat (length (frames f))).
  case_bool_decide as Hm.
  - intros [= <-]. rewrite seqZ_nil, app_nil_r by done.
    rewrite list_insert_id by (by destruct f).
    rewrite Z.max_l, Z.add_0_r by done. split; [by destruct s|lia].
  - case_bool_decide; [done|]. intros [= <-].
    rewrite Z.max_r by lia. split; [done|lia].
Qed.

(** What [block_write] does on an open handle for which the frames can be
    allocated. *)
Lemma block_write_spec (fd : Z) (buf : list Z) (count : Z) (s s0 : state)
    (h : fh_t) (fi : nat) (f : file_t) :
  open_on s fd h fi f → Forall valid_frame (frames f) → io_ok s →
  0 ≤ loc h → 0 ≤ count → loc h + count ≤ 2147483647 →
  count ≤ Z.of_nat (length buf) →
  0 ≤ freeFrameNr s → BLOCK_NUM_FRAMES ≤ NO_FRAME →
  allocateNewFrames fd count s = Some (s0, 0) →
  ∃ s' f',
    block_write fd buf count s = Some (s', count)
    ∧ io_ok s'
    ∧ isOn s' = isOn s ∧ nbFiles s' = nbFiles s ∧ nbHandles s' = nbHandles s
    ∧ handles s' = <[Z.to_nat fd := moved h (loc h + count)]> (handles s)
    ∧ files s' = <[fi := f']> (files s)
    ∧ name f' = name f
    ∧ size f' = Z.max (size f) (loc h + count)
    ∧ frames f' = frames (grown s h f count)
    ∧ Forall valid_frame (frames f')
    ∧ loc h + count ≤ BLOCK_FRAME_SIZE * Z.of_nat (length (frames f'))
    ∧ (NoDup (frames f) → Forall (λ x, x < freeFrameNr s) (frames f) →
       NoDup (frames f')
       ∧ ∀ p, 0 ≤ p < BLOCK_FRAME_SIZE * Z.of_nat (length (frames f')) →
           file_byte f' (device s') p
           = if bool_decide (loc h ≤ p < loc h + count)
             then buf !! Z.to_nat (p - loc h)
             else file_byte f' (device s) p).
Proof.
  intros Hopen Hvalid Hio Hloc Hcount Hmax Hbuf Hfree Hnum Halloc.
  destruct (allocateNewFrames_ok fd count s s0 h fi f Hopen Halloc)
    as (Hs0 & Hmissing).
  destruct Hopen as (Hh & Hst & Hfile & Hf).
  set (f0 := grown s h f count) in *.
  set (missing := frames_for (loc h + count) - Z.of_nat (length (frames f)))
    in *.
  assert (files s0 !! fi = Some f0) as Hf0.
  { rewrite Hs0. simpl. apply list_lookup_insert_eq. by eapply lookup_lt_Some. }
  assert (Forall valid_frame (frames f0)) as Hvalid0.
  { apply Forall_app. split; [done|]. apply Forall_seqZ. intros x Hx.
    unfold valid_frame. destruct (decide (0 < missing)) as [Hpos|]; [|lia].
    specialize (Hmissing Hpos). lia. }
  assert (loc h + count
          ≤ BLOCK_FRAME_SIZE * Z.of_nat (length (frames f0))) as Hcover0.
  { pose proof (frames_for_cover HFS (loc h + count)).
    unfold f0, grown. simpl. rewrite length_app, length_seqZ. fold missing.
    nia. }
  assert (io_ok s0) as Hio0 by (by rewrite Hs0).
  unfold block_write. rewrite Hh. simpl. rewrite Hst, Hfile. simpl.
  rewrite Halloc. simpl.
  destruct (write_loop_spec HFS fi f0 buf (Z.to_nat count) s0 (loc h) count 0)
    as (c' & d' & -> & Hio' & _ & Hbytes);
    [done|done|done|lia|lia|lia|lia|lia|lia|lia|].
  rewrite Hs0 in Hio', Hbytes |- *. simpl. rewrite Hh. simpl.
  rewrite list_lookup_insert_eq by (by eapply lookup_lt_Some). simpl.
  assert (∀ sz,
    sz = Z.max (size f) (loc h + count) →
    let f' := {| name := name f; size := sz; frames := frames f0 |} in
    size f' = Z.max (size f) (loc h + count)
    ∧ frames f' = frames f0
    ∧ Forall valid_frame (frames f')
    ∧ loc h + count ≤ BLOCK_FRAME_SIZE * Z.of_nat (length (frames f'))
    ∧ (NoDup (frames f) → Forall (λ x, x < freeFrameNr s) (frames f) →
       NoDup (frames f')
       ∧ ∀ p, 0 ≤ p < BLOCK_FRAME_SIZE * Z.of_nat (length (frames f')) →
           file_byte f' d' p
           = if bool_decide (loc h ≤ p < loc h + count)
             then buf !! Z.to_nat (p - loc h)
             else file_byte f' (device s) p)) as Hfinal.
  { intros sz Hsz. simpl. split_and!; try done.
    intros Hdup Hbelow.
    assert (NoDup (frames f0)) as Hdup0.
    { apply NoDup_app. split; [done|]. split; [|apply NoDup_seqZ].
      intros x Hx Hnew. apply elem_of_seqZ in Hnew.
      pose proof (proj1 (Forall_forall _ _) Hbelow x Hx). simpl in *. lia. }
    split; [done|]. intros p Hp.
    specialize (Hbytes Hdup0 p Hp). unfold file_byte in *. simpl in *.
    rewrite Hbytes. by rewrite Z.add_0_l. }
  case_bool_decide as Hgrow.
  - eexists _, _. split; [done|]. simpl.
    rewrite list_insert_insert_eq.
    split; [exact Hio'|]. do 6 (split; [done|]).
    apply (Hfinal (loc h + count)). lia.
  - eexists _, f0. split; [done|]. simpl.
    split; [exact Hio'|]. do 6 (split; [done|]).
    apply (Hfinal (size f)). lia.
Qed.

(** Whatever it returns, [write_loop] has advanced the cursor by [remaining]
    and changed the cache and the device only. *)
Lemma write_loop_frame (fi : nat) (buf : list Z) (fuel : nat) :
  ∀ (s s' : state) (loc remaining bufOffset l : Z),
  write_loop fuel fi s loc remaining bufOffset buf = Some (s', l) →
  0 ≤ remaining →
  l = loc + remaining ∧ ∃ c' d', s' = set_device (set_bcache s c') d'.
Proof.
  induction fuel as [|fuel IH]; intros s s' loc remaining bufOffset l Hloop Hrem;
    cbn [write_loop] in Hloop; case_bool_decide.
  - done.
  - injection Hloop as <- <-. split; [lia|].
    exists (bcache s), (device s). by rewrite set_device_same.
  - destruct (files s !! fi) as [f|]; simplify_eq/=.
    destruct (at_Z (frames f) _) as [g|]; simplify_eq/=.
    destruct (load_frame false g s) as [[s1 fr]|] eqn:Hload; simplify_eq/=.
    destruct (memcpy fr _ buf _ _) as [fr'|] eqn:Hcopy; simplify_eq/=.
    destruct (put_block_cache 0 g fr' (bcache s1)) as [[c2 r]|]; simplify_eq/=.
    destruct (i32 _) as [loc1|] eqn:Hloc1; simplify_eq/=.
    apply load_frame_frame in Hload as [c1 ->].
    apply memcpy_inv in Hcopy as (Hn & _).
    unfold i32 in Hloc1. case_bool_decide; simplify_eq/=.
    apply IH in Hloop as [-> (c3 & d3 & ->)].
    + split; [lia|]. by exists c3, d3.
    + unfold chunk in *. case_bool_decide; lia.
  - injection Hloop as <- <-. split; [lia|].
    exists (bcache s), (device s). by rewrite set_device_same.
Qed.

(** Whatever it returns, [allocateNewFrames] leaves the handles and the
    size of the file as they are. *)
Lemma allocateNewFrames_frame (fd count : Z) (s s0 : state) (r : Z)
    (h : fh_t) (fi : nat) (f : file_t) :
  open_on s fd h fi f →
  allocateNewFrames fd count s = Some (s0, r) →
  handles s0 = handles s ∧ ∃ f0, files s0 !! fi = Some f0 ∧ size f0 = size f.
Proof.
  intros (Hh & Hst & Hfile & Hf). unfold allocateNewFrames.
  rewrite Hh. simpl. rewrite Hfile. simpl. rewrite Hf. simpl.
  repeat case_bool_decide; intros [= <- <-]; try (split; [done|by exists f]).
  split; [done|]. eexists.
  split; [apply list_lookup_insert_eq; by eapply lookup_lt_Some|done].
Qed.

(** C3.  A call of [block_write] on an open handle with a count that is not
    negative, when it does not return -1, returns the count, has advanced
    the cursor of the handle by the count, and has set the size of the file
    to the larger of its size before and the cursor; the size has not
    decreased.  And the call does not return -1 when the handle is open on a
    well-formed file and the frames can be allocated. *)
Theorem block_write_extends (fd : Z) (buf : list Z) (count : Z) (s : state)
    (h : fh_t) (fi : nat) (f : file_t) :
  open_on s fd h fi f → 0 ≤ count →
  (∀ s' r,
     block_write fd buf count s = Some (s', r) → r ≠ -1 →
     r = count
     ∧ at_Z (handles s') fd = Some (moved h (loc h + count))
     ∧ ∃ f', files s' !! fi = Some f'
             ∧ size f' = Z.max (size f) (loc h + count)
             ∧ size f ≤ size f')
  ∧ (∀ s0,
       Forall valid_frame (frames f) → io_ok s →
       0 ≤ loc h → loc h + count ≤ 2147483647 →
       count ≤ Z.of_nat (length buf) →
       0 ≤ freeFrameNr s → BLOCK_NUM_FRAMES ≤ NO_FRAME →
       allocateNewFrames fd count s = Some (s0, 0) →
       ∃ s', block_write fd buf count s = Some (s', count)).
Proof.
  intros Hopen Hcount. split.
  - intros s' r Hwrite Hr. pose proof Hopen as (Hh & Hst & Hfile & Hf).
    unfold block_write in Hwrite. rewrite Hh in Hwrite. simpl in Hwrite.
    rewrite Hst, Hfile in Hwrite. simpl in Hwrite.
    destruct (allocateNewFrames fd count s) as [[s0 r0]|] eqn:Halloc;
      simplify_eq/=.
    case_bool_decide as Hr0; simplify_eq/=.
    destruct (allocateNewFrames_frame _ _ _ _ _ _ _ _ Hopen Halloc)
      as (Hhandles0 & f0 & Hf0 & Hsize0).
    destruct (write_loop _ fi s0 _ _ _ _) as [[s1 l]|] eqn:Hloop;
      simplify_eq/=.
    apply write_loop_frame in Hloop as [-> (c' & d' & ->)]; [|done].
    simpl in Hwrite. rewrite Hhandles0, Hh in Hwrite. simpl in Hwrite.
    rewrite Hf0 in Hwrite. simpl in Hwrite.
    pose proof Hh as [Hfd _]%at_Z_Some.
    case_bool_decide; simplify_eq/=; rewrite Hhandles0.
    + split; [done|]. split; [by eapply at_Z_insert_eq|].
      eexists. split; [apply list_lookup_insert_eq; by eapply lookup_lt_Some|].
      simpl. lia.
    + split; [done|]. split; [by eapply at_Z_insert_eq|].
      exists f0. split; [done|]. lia.
  - intros s0 Hvalid Hio Hloc Hmax Hbuf Hfree Hnum Halloc.
    destruct (block_write_spec fd buf count s s0 h fi f)
      as (s' & f' & Hwrite & _); [done..|].
    by exists s'.
Qed.

(** C1.  On an open handle, after [block_write] of [count] bytes at the
    cursor and [block_seek] back to where the cursor was, [block_read] of
    [count] bytes returns [count] and fills the caller's buffer with the
    bytes that were written. *)
Theorem write_read_round_trip (fd : Z) (data buf : list Z) (count : Z)
    (s s0 : state) (h : fh_t) (fi : nat) (f : file_t) :
  isOn s = true → open_on s fd h fi f → file_ok f → io_ok s →
  NoDup (frames f) → Forall (λ x, x < freeFrameNr s) (frames f) →
  0 ≤ freeFrameNr s → BLOCK_NUM_FRAMES ≤ NO_FRAME →
  0 ≤ loc h ≤ size f → 0 ≤ count → loc h + count ≤ 2147483647 →
  count ≤ Z.of_nat (length data) → count ≤ Z.of_nat (length buf) →
  allocateNewFrames fd count s = Some (s0, 0) →
  ∃ s1 s2 s3 buf',
    block_write fd data count s = Some (s1, count)
    ∧ block_seek fd (loc h) s1 = Some (s2, 0)
    ∧ block_read fd buf count s2 = Some (s3, count, buf')
    ∧ take (Z.to_nat count) buf' = take (Z.to_nat count) data.
Proof.
  intros Hon Hopen (Hvalid & Hsize & Hsmax) Hio Hdup Hbelow Hfree Hnum Hloc
    Hcount Hmax Hdata Hbuf Halloc.
  destruct (block_write_spec fd data count s s0 h fi f)
    as (s1 & f1 & Hwrite & Hio1 & Hon1 & _ & _ & Hhandles1 & Hfiles1 & _
        & Hsize1 & Hframes1 & Hvalid1 & Hcover1 & Hbytes1);
    [done|done|done|lia|done|done|done|done|done|done|].
  destruct (Hbytes1 Hdup Hbelow) as [_ Hbytes]. clear Hbytes1.
  pose proof Hopen as (Hh & Hst & Hfile & Hf).
  pose proof Hh as [Hfd Hh']%at_Z_Some.
  assert (at_Z (handles s1) fd = Some (moved h (loc h + count))) as Hh1
    by (rewrite Hhandles1; by eapply at_Z_insert_eq).
  assert (files s1 !! fi = Some f1) as Hf1
    by (rewrite Hfiles1; apply list_lookup_insert_eq; by eapply lookup_lt_Some).
  set (s2 := set_loc s1 fd (moved h (loc h + count)) (loc h)).
  assert (block_seek fd (loc h) s1 = Some (s2, 0)) as Hseek.
  { unfold block_seek. rewrite Hh1. simpl. rewrite Hst, Hfile. simpl.
    rewrite Hf1. simpl.
    replace (u32 (size f1)) with (size f1)
      by (unfold u32; rewrite Z.mod_small; lia).
    rewrite bool_decide_eq_false_2 by lia.
    replace (s32 (loc h)) with (loc h)
      by (unfold s32; rewrite Z.mod_small; lia).
    done. }
  assert (length (frames f) ≤ length (frames f1))%nat as Hlen1
    by (rewrite Hframes1; unfold grown; simpl; rewrite length_app; lia).
  destruct (block_read_spec HFS fd buf count s2 (moved h (loc h)) fi f1)
    as (c3 & buf' & Hread & _ & Hlen' & Hout).
  { by rewrite <- Hon1 in Hon. }
  { split_and!; try done. unfold s2, set_loc. simpl.
    by eapply at_Z_insert_eq. }
  { split_and!; try done; nia. }
  { done. }
  { simpl. lia. }
  { done. }
  { simpl. lia. }
  simpl in Hread, Hout.
  replace (Z.min count (size f1 - loc h)) with count in * by lia.
  exists s1, s2. eexists _, buf'. split; [done|]. split; [done|].
  split; [exact Hread|].
  apply list_eq. intros j.
  destruct (decide (j < Z.to_nat count)%nat) as [Hj|Hj].
  - rewrite !lookup_take_lt by done. rewrite Hout.
    rewrite bool_decide_eq_true_2 by lia.
    rewrite Hbytes by nia. rewrite bool_decide_eq_true_2 by lia.
    f_equal. lia.
  - by rewrite !lookup_take_ge by lia.
Qed.

End Write.

(** ** The small configuration satisfies the hypotheses *)

Lemma sample_frame_size : 0 < BLOCK_FRAME_SIZE (BlockParams := sample_params).
Proof. reflexivity. Qed.

Lemma sample_io_ok : io_ok (P:=sample_params) sample_state.
Proof.
  destruct (init_block_cache_ok (P:=sample_params)
              (fst (set_block_cache_size 2 (cache_boot (P:=sample_params)))))
    as (Hok & Hcoh & Huniq); [by_computation..|].
  split; [exact Hok|]. split; [apply Hcoh|]. split; [exact Huniq|].
  intros n. reflexivity.
Qed.

Lemma sample_open_on :
  open_on sample_state 0 {| file := Some 0%nat; loc := 2; status := OPEN |}
    0 {| name := "ab"; size := 5; frames := [3] |}.
Proof. by repeat split. Qed.

Lemma sample_file_ok :
  file_ok (P:=sample_params) {| name := "ab"; size := 5; frames := [3] |}.
Proof.
  split; [|by_computation]. repeat constructor; by_computation.
Qed.

Lemma block_read_clamps_witness :
  ∃ s' r buf',
    block_read (P:=sample_params) 0 (replicate 10 0) 50 sample_state
    = Some (s', r, buf')
    ∧ r = Z.min 50 (5 - 2)
    ∧ at_Z (handles s') 0
      = Some {| file := Some 0%nat; loc := 2 + r; status := OPEN |}
    ∧ (2 = 5 → r = 0)
    ∧ r ≠ -1.
Proof.
  apply (block_read_clamps (P:=sample_params) sample_frame_size
           0 (replicate 10 0) 50 sample_state
           {| file := Some 0%nat; loc := 2; status := OPEN |} 0%nat
           {| name := "ab"; size := 5; frames := [3] |}
           eq_refl sample_open_on sample_file_ok sample_io_ok);
    by_computation.
Defined.

Lemma block_read_frame_witness :
  ∃ s' r buf',
    block_read (P:=sample_params) 0 (replicate 10 0) 50 sample_state
    = Some (s', r, buf')
    ∧ r ≠ -1 ∧ io_ok (P:=sample_params) s' ∧ files s' = files sample_state
    ∧ wlog (device s') = [].
Proof.
  destruct (proj2 (block_read_frame (P:=sample_params) sample_frame_size
                     0 (replicate 10 0) 50 sample_state)
              {| file := Some 0%nat; loc := 2; status := OPEN |} 0%nat
              {| name := "ab"; size := 5; frames := [3] |}
              eq_refl sample_open_on sample_file_ok sample_io_ok
              ltac:(by_computation) ltac:(by_computation)
              ltac:(by_computation))
    as (s' & r & buf' & Hread & Hr & Hio).
  exists s', r, buf'. split; [exact Hread|]. split; [exact Hr|].
  split; [exact Hio|].
  destruct (proj1 (block_read_frame (P:=sample_params) sample_frame_size
                     0 (replicate 10 0) 50 sample_state) s' r buf' Hread)
    as (_ & Hlog & Hfiles & _).
  by split.
Defined.

Lemma sample_allocate :
  allocateNewFrames (P:=sample_params) 0 10 sample_state
  = Some (set_freeFrameNr
            (set_files sample_state
               [ {| name := "ab"; size := 5; frames := [3; 4] |};
                 {| name := "b"; size := 0; frames := [] |};
                 {| name := ""; size := 0; frames := [] |} ]) 5, 0).
Proof. reflexivity. Qed.

Lemma block_write_extends_witness :
  ∃ s', block_write (P:=sample_params) 0 (seqZ 1 10) 10 sample_state
        = Some (s', 10).
Proof.
  refine (proj2 (block_write_extends (P:=sample_params) sample_frame_size
                   0 (seqZ 1 10) 10 sample_state
                   {| file := Some 0%nat; loc := 2; status := OPEN |} 0%nat
                   {| name := "ab"; size := 5; frames := [3] |}
                   sample_open_on ltac:(lia)) _ _ sample_io_ok _ _ _ _ _
            sample_allocate); try by_computation.
  apply sample_file_ok.
Defined.

Lemma write_read_round_trip_witness :
  ∃ s1 s2 s3 buf',
    block_write (P:=sample_params) 0 (seqZ 1 10) 10 sample_state
    = Some (s1, 10)
    ∧ block_seek 0 2 s1 = Some (s2, 0)
    ∧ block_read (P:=sample_params) 0 (replicate 12 0) 10 s2
      = Some (s3, 10, buf')
    ∧ take 10 buf' = take 10 (seqZ 1 10).
Proof.
  refine (write_read_round_trip (P:=sample_params) sample_frame_size
            0 (seqZ 1 10) (replicate 12 0) 10 sample_state _
            {| file := Some 0%nat; loc := 2; status := OPEN |} 0%nat
            {| name := "ab"; size := 5; frames := [3] |}
            eq_refl sample_open_on sample_file_ok sample_io_ok
            _ _ _ _ _ _ _ _ _ sample_allocate); try by_computation.
  - apply (bool_decide_unpack _). by_computation.
  - repeat constructor. 
Defined.

(** ** Write-through coherence *)

Section Coherence.
Context `{P : BlockParams}.
Hypothesis HFS : 0 < BLOCK_FRAME_SIZE.
Hypothesis Hnum : BLOCK_NUM_FRAMES ≤ NO_FRAME.











Section Calls.
Variable d : device_t.
Hypothesis Hdev : device_ok d.
Hypothesis Hmeta : Forall (λ f, Forall valid_frame (frames f)) (load_files d).
Hypothesis Hfree : 0 ≤ getFreeFrame (load_files d).






End Calls.

(** A put on a cache that is on and has no array reads outside it. *)
Lemma put_block_cache_nil_on (c : cache_t) (blk f : Z) (buf : frame_t) :
  cache c = [] → cacheOn c = true → put_block_cache blk f buf c = None.
Proof.
  intros Hnil Hon. unfold put_block_cache. rewrite Hnil, Hon. simpl.
  destruct (Z.to_nat (block_cache_max_items c)); simpl; [|done].
  unfold at_Z. repeat case_bool_decide; simpl; done.
Qed.














End Coherence.




(** * Further properties

    Properties of the two translation units beyond the ones above: the
    cache as its clients see it, the life cycle of the driver and of its
    handles, the contents of files, and the cursors. *)

(** ** The cache as its clients see it *)

Section CacheUse.
Context `{P : BlockParams}.

(** After a put, the first slot that holds the frame is the one written. *)
Lemma first_slot_insert entries f i e e' r :
  entries !! i = Some e → frm e' = f →
  first_slot entries f r → (r = Some i ∨ r = None) →
  first_slot (<[i := e']> entries) f (Some i).
Proof.
  intros Hi Hf Hr Hcase. split.
  - exists e'. split; [|done].
    apply list_lookup_insert_eq. by apply lookup_lt_Some in Hi.
  - intros k ek Hk Hek.
    rewrite list_lookup_insert_ne in Hek by lia.
    destruct Hcase as [-> | ->].
    + destruct Hr as [_ Hr]. by apply (Hr k).
    + by apply (Hr k).
Qed.

Lemma put_block_cache_total c blk f buf :
  cache_ok c → 0 ≤ BLOCK_FRAME_SIZE →
  length buf = Z.to_nat BLOCK_FRAME_SIZE →
  ∃ i e r e' pt,
    cache c !! i = Some e
    ∧ first_slot (cache c) (to_frm f) r ∧ (r = Some i ∨ r = None)
    ∧ frm e' = to_frm f ∧ cacheFrame e' = buf ∧ 0 ≤ pt < 65536
    ∧ put_block_cache blk f buf c
      = Some (with_slot c i e' pt (u16 (lastAccess c + 1)), 0).
Proof.
  intros Hok HFS Hbuf.
  pose proof Hok as (Hon & Hlen & Hpos & Hpt & Hall).
  destruct (find_frm_first (cache c) (to_frm f)) as (r & _ & Hr).
  destruct r as [i|].
  - pose proof Hr as [(e & Hi & Hfe) _].
    exists i, e, (Some i),
      {| block := block e; frm := frm e; access := u16 (lastAccess c + 1);
         cacheFrame := buf |}, (putTracker c).
    split_and!; [done|done|by left|done|done|lia|lia|].
    by apply put_block_cache_hit.
  - destruct (decide (putTracker c < block_cache_max_items c)) as [Hlt|Hge].
    + destruct (lookup_lt_is_Some_2 (cache c) (Z.to_nat (putTracker c)))
        as [e He]; [lia|].
      exists (Z.to_nat (putTracker c)), e, None,
        {| block := blk; frm := to_frm f; access := u16 (lastAccess c + 1);
           cacheFrame := buf |}, (u16 (putTracker c + 1)).
      split_and!; [done|done|by right|done|done|apply u16_range..|].
      by apply put_block_cache_fresh.
    + destruct (put_block_cache_evict c blk f buf) as (j & (e & He & _) & Hput);
        [done..|lia|].
      exists j, e, None,
        {| block := blk; frm := to_frm f; access := u16 (lastAccess c + 1);
           cacheFrame := buf |}, (putTracker c).
      by split_and!; [done|done|right|done|done|lia|lia|].
Qed.

(** X1.  A put of a frame-sized buffer on an initialized cache of at least
    one slot returns 0, keeps the cache well formed and changes the contents
    of one slot only, which then holds the frame and the buffer; a lookup of
    the same frame right after it returns the buffer that was put, whatever
    block number either call gives and whatever the frame number, and
    changes no slot contents. *)
Theorem put_get_round_trip (c : cache_t) (blk blk' f : Z) (buf : frame_t) :
  cache_ok c → 0 ≤ BLOCK_FRAME_SIZE →
  length buf = Z.to_nat BLOCK_FRAME_SIZE →
  ∃ c1 c2,
    put_block_cache blk f buf c = Some (c1, 0)
    ∧ cache_ok c1
    ∧ (∃ i, (i < length (cache c))%nat
            ∧ slots c1 = <[i := (to_frm f, buf)]> (slots c))
    ∧ get_block_cache blk' f c1 = Some (c2, Some buf)
    ∧ slots c2 = slots c1.
Proof.
  intros Hok HFS Hbuf.
  destruct (put_block_cache_total c blk f buf Hok HFS Hbuf)
    as (i & e & r & e' & pt & Hi & Hr & Hcase & Hfe & Hde & Hpt & Hput).
  eexists _, _. split; [exact Hput|].
  pose proof Hok as (Hon & Hlen & Hpos & _ & Hall).
  assert (cache_ok (with_slot c i e' pt (u16 (lastAccess c + 1)))) as Hok1.
  { apply cache_ok_with_slot; [done| |done]. by rewrite Hde. }
  pose proof (lookup_lt_Some _ _ _ Hi) as Hlt.
  split; [done|]. split.
  { exists i. split; [done|]. by rewrite slots_with_slot, Hfe, Hde. }
  split.
  - erewrite get_block_cache_hit.
    + by rewrite Hde.
    + simpl. by rewrite length_insert.
    + simpl. by apply list_lookup_insert_eq.
    + simpl. by eapply first_slot_insert.
  - rewrite !slots_with_slot. simpl. rewrite list_insert_insert_eq. by rewrite Hde.
Qed.

(** X2.  A lookup on an initialized cache returns, and changes neither the
    frames that the slots hold nor their data nor [putTracker]; the block
    number plays no part.  A hit returns the data of the first slot that
    holds the frame and advances [lastAccess] by one modulo 65536; a miss
    leaves the cache exactly as it was. *)
Theorem get_block_cache_reads_only (c : cache_t) (blk f : Z) :
  cache_ok c →
  ∃ c' r,
    get_block_cache blk f c = Some (c', r)
    ∧ cache_ok c'
    ∧ slots c' = slots c
    ∧ putTracker c' = putTracker c
    ∧ (∀ blk', get_block_cache blk' f c = get_block_cache blk f c)
    ∧ match r with
      | Some data =>
          ∃ i, first_slot (cache c) (to_frm f) (Some i)
               ∧ slots c !! i = Some (to_frm f, data)
               ∧ lastAccess c' = u16 (lastAccess c + 1)
      | None =>
          c' = c ∧ ∀ i data, slots c !! i ≠ Some (to_frm f, data)
      end.
Proof.
  intros Hok. pose proof Hok as (Hon & Hlen & Hpos & Hpt & Hall).
  destruct (find_frm_first (cache c) (to_frm f)) as (r & _ & Hr).
  destruct r as [i|].
  - pose proof Hr as [(e & Hi & Hfe) _].
    eexists _, (Some (cacheFrame e)).
    split; [by apply get_block_cache_hit|].
    split; [apply cache_ok_with_slot; [done| |done]; simpl;
            by eapply cache_ok_frame|].
    split.
    { rewrite slots_with_slot. simpl. apply list_insert_id.
      by rewrite slots_lookup, Hi. }
    split; [done|]. split; [done|].
    exists i. split; [done|]. split; [|done].
    by rewrite slots_lookup, Hi, <- Hfe.
  - exists c, None. split; [by apply get_block_cache_miss|].
    split; [done|]. split; [done|]. split; [done|]. split; [done|].
    split; [done|]. intros i data Hi. rewrite slots_lookup in Hi.
    destruct (cache c !! i) as [e|] eqn:He; [|done].
    simpl in Hi. injection Hi as Hf _. by apply (Hr i e).
Qed.

Lemma first_slot_replicate n f :
  f ≠ NO_FRAME → first_slot (replicate n empty_entry) f None.
Proof.
  intros Hf k e Hk. apply lookup_replicate in Hk as [-> _]. simpl. congruence.
Qed.

(** X3.  [init_block_cache] on a cache that is off and sized for at least
    one slot returns 0, turns the cache on and allocates
    [block_cache_max_items] slots.  Then the lookup of any frame number apart
    from the marker of an empty slot misses and changes nothing, whereas a
    lookup of frame [-1], the marker itself, hits and returns a zeroed
    frame; and a second [init_block_cache] returns -1 and changes nothing. *)
Theorem init_block_cache_empty (c : cache_t) :
  cacheOn c = false → 0 < block_cache_max_items c →
  let c1 := fst (init_block_cache c) in
  snd (init_block_cache c) = 0
  ∧ cacheOn c1 = true
  ∧ Z.of_nat (length (cache c1)) = block_cache_max_items c
  ∧ (∀ blk f, to_frm f ≠ NO_FRAME → get_block_cache blk f c1 = Some (c1, None))
  ∧ (∀ blk, ∃ c2, get_block_cache blk (-1) c1 = Some (c2, Some zero_frame))
  ∧ init_block_cache c1 = (c1, -1).
Proof.
  intros Hoff Hpos. unfold init_block_cache. rewrite Hoff. simpl.
  split; [done|]. split; [done|].
  split; [rewrite length_replicate; lia|]. split; [|split; [|done]].
  - intros blk f Hf. apply get_block_cache_miss.
    + simpl. by rewrite length_replicate.
    + simpl. by apply first_slot_replicate.
  - intros blk. eexists.
    rewrite (get_block_cache_hit _ blk (-1) 0%nat empty_entry); [reflexivity|..].
    + simpl. by rewrite length_replicate.
    + simpl. apply lookup_replicate. split; [done|lia].
    + simpl. split; [|intros; lia]. exists empty_entry. split; [|done].
      apply lookup_replicate. split; [done|lia].
Qed.

(** X4.  [close_block_cache] on an initialized cache returns 0.  On the
    closed cache a second close and every put return -1 and change nothing,
    while a lookup, which has no such guard, reads the freed array.  A new
    [init_block_cache] returns 0, with the capacity, [putTracker] and
    [lastAccess] of before the close, and every frame apart from the marker
    misses. *)
Theorem close_block_cache_flushes (c : cache_t) :
  cache_ok c →
  ∃ c1,
    close_block_cache c = Some (c1, 0)
    ∧ let c2 := fst (init_block_cache c1) in
      close_block_cache c1 = Some (c1, -1)
      ∧ (∀ blk f buf, put_block_cache blk f buf c1 = Some (c1, -1))
      ∧ (∀ blk f, get_block_cache blk f c1 = None)
      ∧ snd (init_block_cache c1) = 0
      ∧ block_cache_max_items c2 = block_cache_max_items c
      ∧ putTracker c2 = putTracker c
      ∧ lastAccess c2 = lastAccess c
      ∧ ∀ blk f, to_frm f ≠ NO_FRAME →
          get_block_cache blk f c2 = Some (c2, None).
Proof.
  intros (Hon & Hlen & Hpos & Hpt & Hall).
  eexists. split; [by apply close_block_cache_on|].
  unfold close_block_cache, init_block_cache. simpl.
  split_and!; try done.
  - intros blk f. unfold get_block_cache. simpl.
    destruct (Z.to_nat (block_cache_max_items c)) eqn:Hn; [lia|done].
  - intros blk f Hf. apply get_block_cache_miss.
    + simpl. by rewrite length_replicate.
    + simpl. by apply first_slot_replicate.
Qed.

(** X5.  With the size set to 0, [set_block_cache_size] and
    [init_block_cache] return 0 and the cache is on; then every lookup misses
    and changes nothing, and every put reads slot 0 of an array without
    slots. *)
Theorem zero_capacity (c : cache_t) :
  cacheOn c = false →
  let c0 := fst (init_block_cache (fst (set_block_cache_size 0 c))) in
  snd (set_block_cache_size 0 c) = 0
  ∧ snd (init_block_cache (fst (set_block_cache_size 0 c))) = 0
  ∧ cacheOn c0 = true
  ∧ (∀ blk f, get_block_cache blk f c0 = Some (c0, None))
  ∧ ∀ blk f buf, put_block_cache blk f buf c0 = None.
Proof.
  intros Hoff. unfold init_block_cache, set_block_cache_size. simpl.
  rewrite Hoff. simpl. split_and!; try done.
  intros blk f buf. unfold put_block_cache. simpl.
  case_bool_decide; [|done]. unfold at_Z. by case_bool_decide.
Qed.

Lemma put_keeps_uniq c blk f buf c' r :
  cache_ok c → 0 ≤ BLOCK_FRAME_SIZE →
  length buf = Z.to_nat BLOCK_FRAME_SIZE → cache_uniq c →
  put_block_cache blk f buf c = Some (c', r) →
  cache_ok c' ∧ cache_uniq c'.
Proof.
  intros Hok HFS Hbuf Huniq Hput.
  destruct (put_block_cache_total c blk f buf Hok HFS Hbuf)
    as (i & e & r0 & e' & pt & Hi & Hr & Hcase & Hfe & Hde & Hpt & Hput').
  rewrite Hput' in Hput. injection Hput as <- <-.
  split; [apply cache_ok_with_slot; [done| |done]; by rewrite Hde|].
  pose proof (lookup_lt_Some _ _ _ Hi) as Hlt.
  assert (∀ a d, a ≠ i → slots c !! a = Some (to_frm f, d) →
            to_frm f ≠ NO_FRAME → False) as Hother.
  { intros a d Ha Hsa Hne. rewrite slots_lookup in Hsa.
    destruct (cache c !! a) as [ea|] eqn:Hea; [|done].
    simpl in Hsa. injection Hsa as Hfa Hda.
    destruct Hcase as [-> | ->].
    - destruct Hr as [(ei & Hei & Hfi) _].
      apply Ha. apply (Huniq a i (to_frm f) (cacheFrame ea) (cacheFrame ei));
        [by rewrite slots_lookup, Hea, <- Hfa
        |by rewrite slots_lookup, Hei, <- Hfi|done].
    - by apply (Hr a ea). }
  intros a b F da db Ha Hb HF.
  rewrite slots_with_slot in Ha, Hb.
  destruct (decide (a = i)) as [->|Hai], (decide (b = i)) as [->|Hbi];
    [done| | |].
  - rewrite list_lookup_insert_eq in Ha
      by (unfold slots; by rewrite length_fmap).
    rewrite list_lookup_insert_ne in Hb by done.
    injection Ha as <- _. rewrite Hfe in Hb, HF.
    by destruct (Hother b db Hbi Hb HF).
  - rewrite list_lookup_insert_eq in Hb
      by (unfold slots; by rewrite length_fmap).
    rewrite list_lookup_insert_ne in Ha by done.
    injection Hb as <- _. rewrite Hfe in Ha, HF.
    by destruct (Hother a da Hai Ha HF).
  - rewrite list_lookup_insert_ne in Ha, Hb by done.
    by apply (Huniq a b F da db).
Qed.

Lemma cache_exec_keeps c o c' :
  cache_ok c → cache_uniq c → 0 ≤ BLOCK_FRAME_SIZE → frame_sized o →
  cache_exec o c = Some c' → cache_ok c' ∧ cache_uniq c'.
Proof.
  intros Hok Huniq HFS Hwf Hex. destruct o as [blk f buf|blk f]; simpl in *.
  - destruct (put_block_cache blk f buf c) as [[c1 r]|] eqn:Hput; [|done].
    simpl in Hex. injection Hex as <-. by eapply put_keeps_uniq.
  - destruct (get_block_cache_slots c blk f Hok) as (c1 & r & Hget & Hok1 & Hs & _).
    rewrite Hget in Hex. simpl in Hex. injection Hex as <-.
    split; [done|]. by eapply cache_uniq_slots.
Qed.

Lemma cache_exec_total c o :
  cache_ok c → 0 ≤ BLOCK_FRAME_SIZE → frame_sized o →
  ∃ c', cache_exec o c = Some c'.
Proof.
  intros Hok HFS Hwf. destruct o as [blk f buf|blk f]; simpl in *.
  - destruct (put_block_cache_total c blk f buf Hok HFS Hwf)
      as (i & e & r0 & e' & pt & _ & _ & _ & _ & _ & _ & ->). by eexists.
  - destruct (get_block_cache_slots c blk f Hok) as (c1 & r & -> & _).
    by eexists.
Qed.

(** X6.  Whatever puts of frame-sized buffers and lookups follow
    [init_block_cache], every one of them returns, the cache stays well
    formed and keeps its number of slots, and no frame number apart from the
    marker of an empty slot is held by two slots. *)
Theorem cache_never_duplicates (c0 : cache_t) (l : list cache_call) :
  0 ≤ BLOCK_FRAME_SIZE →
  cacheOn c0 = false → 0 < block_cache_max_items c0 →
  0 ≤ putTracker c0 < 65536 →
  Forall frame_sized l →
  ∃ c, cache_run l (fst (init_block_cache c0)) = Some c
       ∧ cache_ok c
       ∧ length (cache c) = Z.to_nat (block_cache_max_items c0)
       ∧ ∀ i j F di dj,
           slots c !! i = Some (F, di) → slots c !! j = Some (F, dj) →
           F ≠ NO_FRAME → i = j.
Proof.
  intros HFS Hoff Hpos Hpt Hl.
  destruct (init_block_cache_ok c0 HFS Hoff Hpos Hpt) as (Hok & _ & Huniq).
  assert (block_cache_max_items (fst (init_block_cache c0))
          = block_cache_max_items c0) as Hmax.
  { unfold init_block_cache. by rewrite Hoff. }
  revert Hok Huniq Hmax. generalize (fst (init_block_cache c0)).
  induction Hl as [|o l Ho Hl IH]; intros c Hok Huniq Hmax.
  - exists c. split; [done|]. split; [done|].
    split; [|done]. destruct Hok as (_ & -> & _). by rewrite Hmax.
  - destruct (cache_exec_total c o Hok HFS Ho) as [c1 Hex].
    destruct (cache_exec_keeps c o c1 Hok Huniq HFS Ho Hex) as [Hok1 Huniq1].
    simpl. rewrite Hex. simpl. apply IH; [done|done|].
    rewrite <- Hmax. clear -Hex.
    destruct o as [blk f buf|blk f]; simpl in Hex.
    + unfold put_block_cache in Hex.
      repeat (case_match || simplify_option_eq); done.
    + unfold get_block_cache in Hex.
      repeat (case_match || simplify_option_eq); done.
Qed.

Lemma first_slot_differ entries f g i :
  first_slot entries f (Some i) → first_slot entries g None → f ≠ g.
Proof. intros [(e & He & Hf) _] Hg ->. by apply (Hg i e). Qed.

(** The cache after a hit on slot [i]. *)
Lemma get_hit_state c blk f i :
  cache_ok c → first_slot (cache c) (to_frm f) (Some i) →
  ∃ e, cache c !! i = Some e ∧ frm e = to_frm f
       ∧ get_block_cache blk f c
         = Some (with_slot c i
                   {| block := block e; frm := frm e;
                      access := u16 (lastAccess c + 1);
                      cacheFrame := cacheFrame e |}
                   (putTracker c) (u16 (lastAccess c + 1)),
                 Some (cacheFrame e))
       ∧ cache_ok (with_slot c i
                   {| block := block e; frm := frm e;
                      access := u16 (lastAccess c + 1);
                      cacheFrame := cacheFrame e |}
                   (putTracker c) (u16 (lastAccess c + 1))).
Proof.
  intros Hok Hf. pose proof Hok as (Hon & Hlen & Hpos & Hpt & Hall).
  pose proof Hf as [(e & He & Hfe) _]. exists e.
  split; [done|]. split; [done|].
  split; [by apply get_block_cache_hit|].
  apply cache_ok_with_slot; [done| |done]. simpl. by eapply cache_ok_frame.
Qed.

(** X7.  In a cache of at least two slots that is full ([putTracker] has
    reached [block_cache_max_items]), in which no slot has a recency counter
    greater than [lastAccess] (the counter has not wrapped since the slots
    were stamped) and [lastAccess] is below 65535, a frame that was just
    looked up survives the put of a frame that is not cached: the eviction
    takes another slot, and the frame is found again with the same data. *)
Theorem recently_used_survives (c : cache_t) (blk f g : Z) (buf : frame_t)
    (i : nat) :
  cache_ok c → 0 ≤ BLOCK_FRAME_SIZE →
  length buf = Z.to_nat BLOCK_FRAME_SIZE →
  recency_ok c → 0 ≤ lastAccess c < 65535 →
  2 ≤ block_cache_max_items c → block_cache_max_items c ≤ putTracker c →
  first_slot (cache c) (to_frm f) (Some i) →
  first_slot (cache c) (to_frm g) None →
  ∃ c1 c2 c3 data,
    get_block_cache blk f c = Some (c1, Some data)
    ∧ put_block_cache blk g buf c1 = Some (c2, 0)
    ∧ get_block_cache blk f c2 = Some (c3, Some data).
Proof.
  intros Hok HFS Hbuf Hrec Hla HC Hfull Hf Hg.
  pose proof Hok as (Hon & Hlen & Hpos & Hpt & Hall).
  pose proof (first_slot_differ _ _ _ _ Hf Hg) as Hfg.
  destruct (get_hit_state c blk f i Hok Hf) as (e & He & Hfe & Hget & Hok1).
  set (la := u16 (lastAccess c + 1)) in *.
  set (e1 := {| block := block e; frm := frm e; access := la;
                cacheFrame := cacheFrame e |}) in *.
  set (c1 := with_slot c i e1 (putTracker c) la) in *.
  assert (la = lastAccess c + 1) as Hlaeq by (unfold la, u16; rewrite Z.mod_small; lia).
  pose proof (lookup_lt_Some _ _ _ He) as Hlt.
  assert (first_slot (cache c1) (to_frm g) None) as Hg1.
  { intros k ek Hk. simpl in Hk.
    destruct (decide (k = i)) as [->|Hki].
    - rewrite list_lookup_insert_eq in Hk by done. injection Hk as <-.
      simpl. congruence.
    - rewrite list_lookup_insert_ne in Hk by done. by apply (Hg k). }
  destruct (put_block_cache_evict c1 blk g buf Hok1 HFS Hbuf Hg1 Hfull)
    as (j & (ej & Hej & Hmin & _) & Hput).
  assert (j ≠ i) as Hji.
  { intros ->. simpl in Hej.
    rewrite list_lookup_insert_eq in Hej by done. injection Hej as <-.
    set (k := if decide (i = 0%nat) then 1%nat else 0%nat).
    assert (k ≠ i) as Hk by (unfold k; case_decide; lia).
    destruct (lookup_lt_is_Some_2 (cache c) k) as [ek Hek];
      [unfold k; case_decide; lia|].
    specialize (Hmin k ek). simpl in Hmin.
    rewrite list_lookup_insert_ne in Hmin by done.
    specialize (Hmin Hek). specialize (Hrec k ek Hek). lia. }
  eexists c1, _, _, (cacheFrame e). split; [done|]. split; [exact Hput|].
  set (eg := {| block := blk; frm := to_frm g;
                access := u16 (lastAccess c1 + 1); cacheFrame := buf |}) in *.
  rewrite (get_block_cache_hit _ blk f i e1); [done|..].
  - simpl. by rewrite !length_insert.
  - simpl. rewrite list_lookup_insert_ne by done.
    by apply list_lookup_insert_eq.
  - simpl. split.
    + exists e1. split; [|done]. rewrite list_lookup_insert_ne by done.
      by apply list_lookup_insert_eq.
    + intros k ek Hk Hek. destruct (decide (k = j)) as [->|Hkj].
      * rewrite list_lookup_insert_eq in Hek by (rewrite length_insert;
          by apply lookup_lt_Some in Hej; simpl in Hej;
          rewrite length_insert in Hej).
        injection Hek as <-. simpl. congruence.
      * rewrite list_lookup_insert_ne in Hek by done.
        rewrite list_lookup_insert_ne in Hek by lia.
        destruct Hf as [_ Hf]. by apply (Hf k).
Qed.

(** X8.  When [lastAccess] is 65535, looking a cached frame up wraps the
    counter and gives the frame the recency 0.  In a full cache whose slots
    all had a recency of at least 1, the next put of a frame that is not
    cached then evicts this frame, the one used last, and looking it up again
    misses. *)
Theorem recency_wrap_evicts_latest (c : cache_t) (blk f g : Z)
    (buf : frame_t) (i : nat) :
  cache_ok c → 0 ≤ BLOCK_FRAME_SIZE →
  length buf = Z.to_nat BLOCK_FRAME_SIZE →
  cache_uniq c → to_frm f ≠ NO_FRAME →
  lastAccess c = 65535 →
  (∀ k e, cache c !! k = Some e → 1 ≤ access e) →
  block_cache_max_items c ≤ putTracker c →
  first_slot (cache c) (to_frm f) (Some i) →
  first_slot (cache c) (to_frm g) None →
  ∃ c1 c2 data,
    get_block_cache blk f c = Some (c1, Some data)
    ∧ put_block_cache blk g buf c1 = Some (c2, 0)
    ∧ get_block_cache blk f c2 = Some (c2, None).
Proof.
  intros Hok HFS Hbuf Huniq Hne Hla Hacc Hfull Hf Hg.
  pose proof Hok as (Hon & Hlen & Hpos & Hpt & Hall).
  pose proof (first_slot_differ _ _ _ _ Hf Hg) as Hfg.
  destruct (get_hit_state c blk f i Hok Hf) as (e & He & Hfe & Hget & Hok1).
  set (la := u16 (lastAccess c + 1)) in *.
  set (e1 := {| block := block e; frm := frm e; access := la;
                cacheFrame := cacheFrame e |}) in *.
  set (c1 := with_slot c i e1 (putTracker c) la) in *.
  assert (la = 0) as Hlaeq by (unfold la; by rewrite Hla).
  pose proof (lookup_lt_Some _ _ _ He) as Hlt.
  assert (first_slot (cache c1) (to_frm g) None) as Hg1.
  { intros k ek Hk. simpl in Hk.
    destruct (decide (k = i)) as [->|Hki].
    - rewrite list_lookup_insert_eq in Hk by done. injection Hk as <-.
      simpl. congruence.
    - rewrite list_lookup_insert_ne in Hk by done. by apply (Hg k). }
  destruct (put_block_cache_evict c1 blk g buf Hok1 HFS Hbuf Hg1 Hfull)
    as (j & (ej & Hej & Hmin & _) & Hput).
  assert (j = i) as ->.
  { destruct (decide (j = i)) as [|Hji]; [done|]. exfalso.
    simpl in Hej. rewrite list_lookup_insert_ne in Hej by done.
    specialize (Hmin i e1). simpl in Hmin.
    rewrite list_lookup_insert_eq in Hmin by done.
    specialize (Hmin eq_refl). simpl in Hmin.
    specialize (Hacc j ej Hej). lia. }
  eexists c1, _, (cacheFrame e). split; [done|]. split; [exact Hput|].
  apply get_block_cache_miss.
  - simpl. by rewrite !length_insert.
  - intros k ek Hek. simpl in Hek. rewrite list_insert_insert_eq in Hek.
    destruct (decide (k = i)) as [->|Hki].
    + rewrite list_lookup_insert_eq in Hek by done. injection Hek as <-.
      simpl. congruence.
    + rewrite list_lookup_insert_ne in Hek by done. intros Hfk.
      apply Hki.
      apply (Huniq k i (to_frm f) (cacheFrame ek) (cacheFrame e));
        [by rewrite slots_lookup, Hek, <- Hfk
        |by rewrite slots_lookup, He, <- Hfe|done].
Qed.

Lemma find_frm_overrun entries f n : ∀ i,
  (i ≤ length entries < i + n)%nat →
  (∀ k e, entries !! k = Some e → frm e ≠ f) →
  find_frm entries f i n = None.
Proof.
  induction n as [|n IH]; intros i Hi Hnone; [lia|]. simpl.
  destruct (entries !! i) as [e|] eqn:He; [|done]. simpl.
  rewrite bool_decide_eq_false_2 by (by apply (Hnone i)).
  apply IH; [|done]. apply lookup_lt_Some in He. lia.
Qed.

(** X9.  [set_block_cache_size] does not look at whether the cache is
    initialized: it returns 0 and leaves the array as it is.  If the new size
    exceeds the number of allocated slots, a lookup and a put of a frame that
    is not cached scan past the end of the array. *)
Theorem resize_after_init_overruns (c : cache_t) (n blk f : Z) :
  cache_ok c → Z.of_nat (length (cache c)) < u32 n →
  first_slot (cache c) (to_frm f) None →
  let c' := fst (set_block_cache_size n c) in
  snd (set_block_cache_size n c) = 0
  ∧ cache c' = cache c
  ∧ get_block_cache blk f c' = None
  ∧ ∀ buf, put_block_cache blk f buf c' = None.
Proof.
  intros (Hon & _) Hn Hmiss. simpl. split; [done|]. split; [done|].
  assert (find_frm (cache c) (to_frm f) 0 (Z.to_nat (u32 n)) = None) as Hfind
    by (apply find_frm_overrun; [lia|done]).
  split.
  - unfold get_block_cache. simpl. by rewrite Hfind.
  - intros buf. unfold put_block_cache. simpl. by rewrite Hon, Hfind.
Qed.

Lemma slot_overwrite_low (c : cache_t) (i : nat) (e e' : cacheEntry)
    (pt la : Z) :
  (∀ k ek, 65536 ≤ Z.of_nat k → cache c !! k = Some ek → ek = empty_entry) →
  cache c !! i = Some e → (frm e ≠ NO_FRAME ∨ Z.of_nat i < 65536) →
  ∀ k ek, 65536 ≤ Z.of_nat k →
    cache (with_slot c i e' pt la) !! k = Some ek → ek = empty_entry.
Proof.
  intros Hhigh He Hlow k ek Hk Hek. simpl in Hek.
  assert (Z.of_nat i < 65536) as Hi.
  { destruct Hlow as [Hfrm|]; [|done].
    destruct (decide (Z.of_nat i < 65536)) as [|Hge]; [done|].
    rewrite (Hhigh i e) in Hfrm by (done || lia). done. }
  rewrite list_lookup_insert_ne in Hek by lia. by apply (Hhigh k).
Qed.

(** X10.  [putTracker] is a 16-bit counter.  In a cache of more than 65536
    slots, whatever puts and lookups of frame numbers apart from the marker
    follow the initialization, every call returns and the slots from index
    65536 on are never filled. *)
Theorem slots_beyond_16_bits_unused (c0 : cache_t) (l : list cache_call) :
  0 ≤ BLOCK_FRAME_SIZE →
  cacheOn c0 = false → 65536 < block_cache_max_items c0 →
  0 ≤ putTracker c0 < 65536 →
  Forall frame_sized l → Forall names_frame l →
  ∃ c, cache_run l (fst (init_block_cache c0)) = Some c
       ∧ length (cache c) = Z.to_nat (block_cache_max_items c0)
       ∧ ∀ k e, 65536 ≤ Z.of_nat k → cache c !! k = Some e → e = empty_entry.
Proof.
  intros HFS Hoff Hbig Hpt Hl Hnames.
  destruct (init_block_cache_ok c0 HFS Hoff ltac:(lia) Hpt) as (Hok & _ & _).
  assert (block_cache_max_items (fst (init_block_cache c0))
          = block_cache_max_items c0) as Hmax.
  { unfold init_block_cache. by rewrite Hoff. }
  assert (∀ k ek, 65536 ≤ Z.of_nat k →
            cache (fst (init_block_cache c0)) !! k = Some ek →
            ek = empty_entry) as Hhigh.
  { intros k ek _ Hek. unfold init_block_cache in Hek. rewrite Hoff in Hek.
    simpl in Hek. by apply lookup_replicate in Hek as [-> _]. }
  revert Hok Hmax Hhigh. generalize (fst (init_block_cache c0)).
  induction Hl as [|o l Ho Hl IH]; intros c Hok Hmax Hhigh.
  - exists c. split; [done|]. split; [|done].
    destruct Hok as (_ & -> & _). by rewrite Hmax.
  - apply Forall_cons in Hnames as [Hname Hnames].
    pose proof Hok as (Hon & Hlen & Hpos & Hptc & Hall).
    destruct (find_frm_first (cache c)
                (to_frm match o with Put _ f _ | Get _ f => f end))
      as (r & _ & Hr).
    assert ((∃ i e e' pt la,
               cache_exec o c = Some (with_slot c i e' pt la)
               ∧ cache c !! i = Some e
               ∧ (frm e ≠ NO_FRAME ∨ Z.of_nat i < 65536)
               ∧ length (cacheFrame e') = Z.to_nat BLOCK_FRAME_SIZE
               ∧ 0 ≤ pt < 65536)
            ∨ cache_exec o c = Some c) as Hstep.
    { destruct o as [blk f buf|blk f]; simpl in *.
      - left. destruct r as [i|].
        + pose proof Hr as [(e & Hi & Hfe) _].
          rewrite (put_block_cache_hit c blk f buf i e) by done.
          eexists i, e, _, _, _. split; [done|]. split; [done|].
          split; [left; congruence|]. by split.
        + destruct (lookup_lt_is_Some_2 (cache c) (Z.to_nat (putTracker c)))
            as [e He]; [lia|].
          rewrite (put_block_cache_fresh c blk f buf) by (done || lia).
          eexists _, e, _, _, _. split; [done|]. split; [done|].
          split; [right; lia|]. split; [done|apply u16_range].
      - destruct r as [i|].
        + left. pose proof Hr as [(e & Hi & Hfe) _].
          rewrite (get_block_cache_hit c blk f i e) by done.
          eexists i, e, _, _, _. split; [done|]. split; [done|].
          split; [left; congruence|]. split; [|done].
          simpl. by eapply cache_ok_frame.
        + right. by rewrite (get_block_cache_miss c blk f). }
    destruct Hstep as [(i & e & e' & pt & la & Hex & He & Hlow & He' & Hpt')|Hex];
      simpl; rewrite Hex; simpl; apply IH; try done.
    + by apply cache_ok_with_slot.
    + by eapply slot_overwrite_low.
Qed.

End CacheUse.

(** The properties on the small configuration. *)

Lemma sample_fresh_ok : cache_ok (P:=sample_params) (fresh_cache (P:=sample_params) 2).
Proof.
  apply (init_block_cache_ok (P:=sample_params)
           (fst (set_block_cache_size 2 (cache_boot (P:=sample_params)))));
    by_computation.
Qed.

Lemma sample_full_ok : cache_ok (P:=sample_params) sample_full.
Proof.
  split; [done|]. split; [done|]. split; [done|]. split; [by_computation|].
  by repeat constructor.
Qed.

Lemma sample_wrapping_ok : cache_ok (P:=sample_params) sample_wrapping.
Proof.
  split; [done|]. split; [done|]. split; [done|]. split; [by_computation|].
  by repeat constructor.
Qed.

(** The first slot of a frame in a concrete cache, by running the scan. *)
Lemma first_slot_run entries f r :
  find_frm entries f 0 (length entries) = Some r → first_slot entries f r.
Proof.
  intros Hrun. destruct (find_frm_first entries f) as (r' & Hr' & Hfs).
  rewrite Hrun in Hr'. by injection Hr' as <-.
Qed.

Lemma put_get_round_trip_witness :
  ∃ c1 c2,
    put_block_cache (P:=sample_params) 0 5 (replicate 8 9)
      (fresh_cache (P:=sample_params) 2) = Some (c1, 0)
    ∧ get_block_cache (P:=sample_params) 7 5 c1 = Some (c2, Some (replicate 8 9)).
Proof.
  destruct (put_get_round_trip (P:=sample_params) _ 0 7 5 (replicate 8 9)
              sample_fresh_ok) as (c1 & c2 & Hput & _ & _ & Hget & _);
    [by_computation..|].
  by exists c1, c2.
Defined.

Lemma get_block_cache_reads_only_witness :
  ∃ c' r,
    get_block_cache (P:=sample_params) 0 4 sample_full = Some (c', r)
    ∧ slots c' = slots sample_full.
Proof.
  destruct (get_block_cache_reads_only (P:=sample_params) sample_full 0 4
              sample_full_ok) as (c' & r & Hget & _ & Hs & _).
  by exists c', r.
Defined.

Lemma init_block_cache_empty_witness :
  get_block_cache (P:=sample_params) 0 7
    (fst (init_block_cache (P:=sample_params) (cache_boot (P:=sample_params))))
  = Some (fst (init_block_cache (P:=sample_params)
                 (cache_boot (P:=sample_params))), None).
Proof.
  refine (proj1 (proj2 (proj2 (proj2
            (init_block_cache_empty (P:=sample_params)
               (cache_boot (P:=sample_params)) eq_refl _)))) 0 7 _);
    by_computation.
Defined.

Lemma close_block_cache_flushes_witness :
  ∃ c1, close_block_cache (P:=sample_params) sample_full = Some (c1, 0)
        ∧ get_block_cache (P:=sample_params) 0 3 c1 = None.
Proof.
  destruct (close_block_cache_flushes (P:=sample_params) sample_full
              sample_full_ok) as (c1 & Hclose & _ & _ & Hget & _).
  exists c1. split; [exact Hclose|exact (Hget 0 3)].
Defined.

Lemma zero_capacity_witness :
  put_block_cache (P:=sample_params) 0 3 (replicate 8 1)
    (fst (init_block_cache (P:=sample_params)
            (fst (set_block_cache_size 0 (cache_boot (P:=sample_params))))))
  = None.
Proof.
  exact (proj2 (proj2 (proj2 (proj2
           (zero_capacity (P:=sample_params) (cache_boot (P:=sample_params))
              eq_refl)))) 0 3 (replicate 8 1)).
Defined.

Lemma cache_never_duplicates_witness :
  ∃ c, cache_run (P:=sample_params)
         [Put 0 3 (replicate 8 1); Get 0 3; Put 0 4 (replicate 8 2);
          Put 0 3 (replicate 8 5); Put 0 6 (replicate 8 3)]
         (fst (init_block_cache (P:=sample_params)
                 (cache_boot (P:=sample_params)))) = Some c
       ∧ cache_ok (P:=sample_params) c.
Proof.
  destruct (cache_never_duplicates (P:=sample_params)
              (cache_boot (P:=sample_params))
              [Put 0 3 (replicate 8 1); Get 0 3; Put 0 4 (replicate 8 2);
               Put 0 3 (replicate 8 5); Put 0 6 (replicate 8 3)])
    as (c & Hrun & Hok & _); [by_computation..| |by exists c].
  by repeat constructor.
Defined.

Lemma recently_used_survives_witness :
  ∃ c1 c2 c3 data,
    get_block_cache (P:=sample_params) 0 3 sample_full = Some (c1, Some data)
    ∧ put_block_cache (P:=sample_params) 0 5 (replicate 8 7) c1 = Some (c2, 0)
    ∧ get_block_cache (P:=sample_params) 0 3 c2 = Some (c3, Some data).
Proof.
  apply (recently_used_survives (P:=sample_params) sample_full 0 3 5
           (replicate 8 7) 0 sample_full_ok).
  - by_computation.
  - reflexivity.
  - intros i e Hi. destruct i as [|[|i]]; simpl in Hi; simplify_eq; simpl; lia.
  - by_computation.
  - by_computation.
  - by_computation.
  - by apply first_slot_run.
  - by apply first_slot_run.
Defined.

Lemma recency_wrap_evicts_latest_witness :
  ∃ c1 c2 data,
    get_block_cache (P:=sample_params) 0 4 sample_wrapping
    = Some (c1, Some data)
    ∧ put_block_cache (P:=sample_params) 0 5 (replicate 8 7) c1 = Some (c2, 0)
    ∧ get_block_cache (P:=sample_params) 0 4 c2 = Some (c2, None).
Proof.
  apply (recency_wrap_evicts_latest (P:=sample_params) sample_wrapping 0 4 5
           (replicate 8 7) 1 sample_wrapping_ok).
  - by_computation.
  - reflexivity.
  - intros i j F di dj Hi Hj _.
    destruct i as [|[|i]], j as [|[|j]]; simpl in Hi, Hj; simplify_eq; done.
  - by_computation.
  - reflexivity.
  - intros i e Hi. destruct i as [|[|i]]; simpl in Hi; simplify_eq; simpl; lia.
  - by_computation.
  - by apply first_slot_run.
  - by apply first_slot_run.
Defined.

Lemma resize_after_init_overruns_witness :
  get_block_cache (P:=sample_params) 0 7
    (fst (set_block_cache_size 3 sample_full)) = None.
Proof.
  refine (proj1 (proj2 (proj2
            (resize_after_init_overruns (P:=sample_params) sample_full 3 0 7
               sample_full_ok _ _)))).
  - by_computation.
  - by apply first_slot_run.
Defined.

Lemma slots_beyond_16_bits_unused_witness :
  ∃ c, cache_run (P:=sample_params)
         [Put 0 3 (replicate 8 1); Get 0 3]
         (fst (init_block_cache (P:=sample_params)
                 (fst (set_block_cache_size 70000
                         (cache_boot (P:=sample_params)))))) = Some c
       ∧ ∀ k e, 65536 ≤ Z.of_nat k → cache c !! k = Some e →
           e = empty_entry (P:=sample_params).
Proof.
  destruct (slots_beyond_16_bits_unused (P:=sample_params)
              (fst (set_block_cache_size 70000 (cache_boot (P:=sample_params))))
              [Put 0 3 (replicate 8 1); Get 0 3])
    as (c & Hrun & _ & Hhigh).
  - simpl. lia.
  - reflexivity.
  - vm_compute. reflexivity.
  - simpl. lia.
  - by repeat constructor.
  - repeat constructor; by_computation.
  - exists c. split; [exact Hrun|exact Hhigh].
Defined.

(** ** Power, open and close *)

Section Handles.
Context `{P : BlockParams}.

(** X11.  [block_close] on an open handle of a driver that is on returns 0
    and only marks this handle closed.  Afterwards [block_close],
    [block_read], [block_write] and [block_seek] on the handle return -1 and
    change nothing. *)
Theorem block_close_closes (fd : Z) (s : state) (h : fh_t) :
  isOn s = true → at_Z (handles s) fd = Some h → status h = OPEN →
  ∃ s',
    block_close fd s = Some (s', 0)
    ∧ s' = set_handles s (<[Z.to_nat fd := closeFile h]> (handles s))
    ∧ (∀ fd', fd' ≠ fd → at_Z (handles s') fd' = at_Z (handles s) fd')
    ∧ block_close fd s' = Some (s', -1)
    ∧ (∀ buf count, block_read fd buf count s' = Some (s', -1, buf))
    ∧ (∀ buf count, block_write fd buf count s' = Some (s', -1))
    ∧ (∀ pos, block_seek fd pos s' = Some (s', -1)).
Proof.
  intros Hon Hh Hst.
  assert (at_Z (<[Z.to_nat fd := closeFile h]> (handles s)) fd
          = Some (closeFile h)) as Hfd by (by eapply at_Z_insert_eq).
  eexists. split.
  { unfold block_close. rewrite Hon, Hh. simpl. by rewrite Hst. }
  split; [done|].
  apply at_Z_Some in Hh as [Hfd0 Hh].
  split.
  { intros fd' Hne. unfold at_Z. repeat case_bool_decide; try done.
    simpl. apply list_lookup_insert_ne. lia. }
  unfold block_close, block_read, block_write, block_seek. simpl.
  rewrite Hon, Hfd. simpl. done.
Qed.

Lemma name_prefix_self (path : string) :
  name_prefix path (createNewFile path).
Proof.
  exists "". simpl. induction path as [|c path IH]; [done|].
  change (String c path = String c (path +:+ "")). by f_equal.
Qed.

(** The search of [block_open] after a file was created for [path]. *)
Lemma search_file_created (fs : list file_t) (path : string) (n : nat) :
  (n < length fs)%nat →
  (∀ k f, (k < n)%nat → fs !! k = Some f → ¬ name_prefix path f) →
  search_file (<[n := createNewFile path]> fs) path 0 (S n) = Some (n, true).
Proof.
  intros Hn Hnone.
  destruct (search_file_from (<[n := createNewFile path]> fs) path (S n) 0)
    as [(j & Hj & Hlt & (f & Hf & Hpre) & _)|[_ Hnone']].
  - rewrite length_insert. lia.
  - intros k f Hk. lia.
  - destruct (decide (j = n)) as [->|Hjn]; [done|].
    rewrite list_lookup_insert_ne in Hf by done.
    destruct (Hnone j f); [lia|done|done].
  - destruct (Hnone' n (createNewFile path)); [lia| |].
    + by apply list_lookup_insert_eq.
    + apply name_prefix_self.
Qed.

(** X12.  With room for a file and for two handles, two calls of [block_open]
    with the same path return consecutive handles that are bound to the same
    file table entry, whose stored name has the path as a prefix: the second
    call finds the entry that the first one found or created, and adds no
    file. *)
Theorem block_open_twice (path : string) (s : state) :
  isOn s = true →
  0 ≤ nbFiles s < Z.of_nat (length (files s)) →
  0 ≤ nbHandles s → nbHandles s + 1 < Z.of_nat (length (handles s)) →
  ∃ s1 s2 i f,
    block_open path s = Some (s1, s16 (nbHandles s))
    ∧ block_open path s1 = Some (s2, s16 (nbHandles s + 1))
    ∧ at_Z (handles s2) (nbHandles s) = Some (openFile i)
    ∧ at_Z (handles s2) (nbHandles s + 1) = Some (openFile i)
    ∧ files s2 = files s1 ∧ nbFiles s2 = nbFiles s1
    ∧ files s2 !! i = Some f ∧ name_prefix path f.
Proof.
  intros Hon Hnf Hnh0 Hnh.
  assert (∀ (hs : list fh_t) (i j : nat),
            (Z.to_nat (nbHandles s + 1) < length hs)%nat →
            at_Z (<[Z.to_nat (nbHandles s + 1) := openFile j]>
                    (<[Z.to_nat (nbHandles s) := openFile i]> hs))
              (nbHandles s) = Some (openFile i)
            ∧ at_Z (<[Z.to_nat (nbHandles s + 1) := openFile j]>
                      (<[Z.to_nat (nbHandles s) := openFile i]> hs))
                (nbHandles s + 1) = Some (openFile j)) as Hat.
  { intros hs i j Hlen. unfold at_Z. rewrite !bool_decide_eq_true_2 by lia.
    split.
    - rewrite list_lookup_insert_ne by lia.
      apply list_lookup_insert_eq. lia.
    - apply list_lookup_insert_eq. rewrite length_insert. lia. }
  unfold block_open. rewrite Hon. simpl.
  destruct (search_file_from (files s) path (Z.to_nat (nbFiles s)) 0)
    as [(i & Hs & Hi)|[Hs Hnone]]; [lia|intros k f Hk; lia| |];
    rewrite Hs; simpl.
  - destruct Hi as (_ & (f & Hf & Hpre) & _).
    rewrite set_Z_Some by lia. simpl.
    eexists _, _, i, f. split; [reflexivity|]. simpl.
    rewrite Hon, Hs. simpl.
    rewrite set_Z_Some by (rewrite length_insert; lia). simpl.
    split; [done|]. simpl.
    destruct (Hat (handles s) i i) as [H1 H2]; [lia|].
    by split_and!.
  - rewrite set_Z_Some by lia. simpl.
    rewrite set_Z_Some by lia. simpl.
    eexists _, _, (Z.to_nat (nbFiles s)), (createNewFile path).
    split; [reflexivity|]. simpl. rewrite Hon. simpl.
    replace (Z.to_nat (nbFiles s + 1)) with (S (Z.to_nat (nbFiles s))) by lia.
    rewrite search_file_created; [|lia|done]. simpl.
    rewrite set_Z_Some by (rewrite length_insert; lia). simpl.
    split; [done|]. simpl.
    destruct (Hat (handles s) (Z.to_nat (nbFiles s)) (Z.to_nat (nbFiles s)))
      as [H1 H2]; [lia|].
    split_and!; [done..| |apply name_prefix_self].
    apply list_lookup_insert_eq. lia.
Qed.

(** X13.  No call checks a handle against the bounds of the handle table, and
    [block_close] does not release the slot of a handle.  After the last free
    slot was taken by [block_open] and the handle closed again, [nbHandles]
    is the length of the table and every further [block_open] writes past
    it; and [block_close], [block_read], [block_write] and [block_seek] with
    a handle outside the table, such as the -1 returned by a failed open,
    read outside it. *)
Theorem table_bounds_unchecked (path : string) (s : state) :
  isOn s = true →
  0 ≤ nbFiles s < Z.of_nat (length (files s)) →
  0 ≤ nbHandles s ≤ 32767 →
  nbHandles s + 1 = Z.of_nat (length (handles s)) →
  (∃ s1 s2,
     block_open path s = Some (s1, nbHandles s)
     ∧ block_close (nbHandles s) s1 = Some (s2, 0)
     ∧ nbHandles s2 = Z.of_nat (length (handles s2))
     ∧ ∀ path', block_open path' s2 = None)
  ∧ ∀ fd, fd < 0 ∨ Z.of_nat (length (handles s)) ≤ fd →
      block_close fd s = None
      ∧ (∀ buf count, block_read fd buf count s = None)
      ∧ (∀ buf count, block_write fd buf count s = None)
      ∧ (∀ pos, block_seek fd pos s = None).
Proof.
  intros Hon Hnf Hnh0 Hnh. split.
  - assert (∀ s1 i,
      isOn s1 = true → nbHandles s1 = nbHandles s + 1 →
      handles s1 = <[Z.to_nat (nbHandles s) := openFile i]> (handles s) →
      ∃ s2,
        block_close (nbHandles s) s1 = Some (s2, 0)
        ∧ nbHandles s2 = Z.of_nat (length (handles s2))
        ∧ ∀ path', block_open path' s2 = None) as Hrest.
    { intros s1 i Hon1 Hn1 Hh1.
      unfold block_close. rewrite Hon1, Hh1. simpl.
      unfold at_Z. rewrite bool_decide_eq_true_2 by lia.
      rewrite list_lookup_insert_eq by lia. simpl.
      eexists. split; [done|]. simpl. rewrite !length_insert.
      split; [lia|].
      intros path'. unfold block_open. simpl. rewrite Hon1. simpl.
      destruct (search_file _ _ _ _) as [[j found]|]; [|done]. simpl.
      destruct found; simpl.
      - unfold set_Z. rewrite bool_decide_eq_false_2; [done|].
        rewrite !length_insert. lia.
      - destruct (set_Z (files s1) _ _); [|done]. simpl.
        unfold set_Z. rewrite bool_decide_eq_false_2; [done|].
        rewrite !length_insert. lia. }
    assert ((nbHandles s + 32768) `mod` 65536 - 32768 = nbHandles s) as Hfd
      by (rewrite Z.mod_small; lia).
    unfold block_open at 1. rewrite Hon. simpl.
    destruct (search_file_from (files s) path (Z.to_nat (nbFiles s)) 0)
      as [(i & Hs & Hi)|[Hs Hnone]]; [lia|intros k f Hk; lia| |];
      rewrite Hs; simpl.
    + rewrite set_Z_Some by lia. simpl.
      destruct (Hrest
        (set_nbHandles
           (set_handles s (<[Z.to_nat (nbHandles s) := openFile i]> (handles s)))
           (nbHandles s + 1)) i) as (s2 & H2); [done..|].
      unfold s16. rewrite Hfd. by eexists _, s2.
    + rewrite set_Z_Some by lia. simpl. rewrite set_Z_Some by lia. simpl.
      destruct (Hrest
        (set_nbHandles
           (set_handles
              (set_nbFiles
                 (set_files s
                    (<[Z.to_nat (nbFiles s) := createNewFile path]> (files s)))
                 (nbFiles s + 1))
              (<[Z.to_nat (nbHandles s) := openFile (Z.to_nat (nbFiles s))]>
                 (handles s)))
           (nbHandles s + 1)) (Z.to_nat (nbFiles s))) as (s2 & H2); [done..|].
      unfold s16. rewrite Hfd. by eexists _, s2.
  - intros fd Hfd.
    assert (at_Z (handles s) fd = None) as Hat.
    { unfold at_Z. case_bool_decide; [|done].
      apply lookup_ge_None. lia. }
    unfold block_close, block_read, block_write, block_seek.
    by rewrite Hon, Hat.
Qed.

(** X14.  [block_poweron] on a driver that is off sets the power flag, loads
    the file table from the device without changing the device, and resets
    the handle table; it returns -1 if the cache was already initialized and
    0 otherwise, with the power flag set in both cases.  Afterwards a second
    [block_poweron] returns -1 and changes nothing, and for every handle of
    the table [block_close], [block_read], [block_write] and [block_seek]
    return -1 and change nothing. *)
Theorem block_poweron_resets (s : state) :
  isOn s = false →
  let s1 := fst (block_poweron s) in
  snd (block_poweron s) = (if cacheOn (bcache s) then -1 else 0)
  ∧ isOn s1 = true
  ∧ device s1 = device s
  ∧ files s1 = load_files (device s)
  ∧ nbHandles s1 = 0
  ∧ block_poweron s1 = (s1, -1)
  ∧ ∀ fd, 0 ≤ fd < Z.of_nat BLOCK_MAX_TOTAL_FILES →
      block_close fd s1 = Some (s1, -1)
      ∧ (∀ buf count, block_read fd buf count s1 = Some (s1, -1, buf))
      ∧ (∀ buf count, block_write fd buf count s1 = Some (s1, -1))
      ∧ (∀ pos, block_seek fd pos s1 = Some (s1, -1)).
Proof.
  intros Hoff. unfold block_poweron. rewrite Hoff.
  destruct (init_block_cache (bcache s)) as [c r] eqn:Hinit.
  assert (r = if cacheOn (bcache s) then -1 else 0) as Hr.
  { unfold init_block_cache in Hinit.
    destruct (cacheOn (bcache s)); by injection Hinit as _ <-. }
  assert (∀ (r : Z) (a b : state * Z),
            fst a = fst b → fst (if bool_decide (r = -1) then a else b) = fst a)
    as Hfst by (intros ? ? ? ?; by case_bool_decide).
  rewrite Hfst by done. simpl.
  split; [rewrite Hr; by destruct (cacheOn (bcache s))|].
  split; [done|]. split; [done|]. split; [done|]. split; [done|].
  split; [done|]. intros fd Hfd.
  unfold block_close, block_read, block_write, block_seek. simpl.
  assert (at_Z (replicate BLOCK_MAX_TOTAL_FILES zero_handle) fd
          = Some zero_handle) as ->.
  { apply at_Z_Some. split; [lia|]. apply lookup_replicate. split; [done|lia]. }
  done.
Qed.

(** X15.  [block_poweroff] on a driver that is on, with the cache
    initialized and its array of [block_cache_max_items] slots, returns 0;
    it writes file table entry [i] to frame [i] of the device and leaves
    every frame outside the range of the table as it was; it closes the
    cache, zeroes [nbFiles], [nbHandles] and [freeFrameNr], and no handle is
    open afterwards.  A second [block_poweroff] returns -1 and changes
    nothing. *)
Theorem block_poweroff_saves (s : state) :
  isOn s = true → cacheOn (bcache s) = true →
  length (cache (bcache s)) = Z.to_nat (block_cache_max_items (bcache s)) →
  ∃ s1,
    block_poweroff s = Some (s1, 0)
    ∧ (∀ i f, files s !! i = Some f →
         dev_frame (device s1) (Z.of_nat i) = frame_of_file f)
    ∧ (∀ n, n < 0 ∨ Z.of_nat (length (files s)) ≤ n →
         dev_frame (device s1) n = dev_frame (device s) n)
    ∧ cacheOn (bcache s1) = false
    ∧ nbFiles s1 = 0 ∧ nbHandles s1 = 0 ∧ freeFrameNr s1 = 0
    ∧ (∀ fd h, at_Z (handles s1) fd = Some h → status h = CLOSED)
    ∧ block_poweroff s1 = Some (s1, -1).
Proof.
  intros Hon Hcache Hlen.
  eexists. split; [by apply block_poweroff_on|]. simpl. split.
  { intros i f Hf. rewrite save_files_frame.
    rewrite bool_decide_eq_true_2 by lia.
    by rewrite Z.sub_0_r, Nat2Z.id, Hf. }
  split.
  { intros n Hn. rewrite save_files_frame. case_bool_decide; [|done].
    rewrite lookup_ge_None_2; [done|lia]. }
  split; [done|]. split; [done|]. split; [done|]. split; [done|]. split.
  { intros fd h Hh. apply at_Z_Some in Hh as [_ Hh].
    unfold closeAllFiles in Hh. rewrite list_lookup_fmap in Hh.
    destruct (handles s !! Z.to_nat fd); [|done].
    simpl in Hh. by injection Hh as <-. }
  unfold block_poweroff, close_block_cache. simpl. done.
Qed.

(** X27.  [set_block_cache_size] on an initialized cache returns 0 and
    leaves the array as it is; when the new size exceeds the number of
    allocated slots, the loop of [close_block_cache] that zeroes
    [block_cache_max_items] slots runs past the end of the array, and so does
    [block_poweroff] of a driver that is on with this cache. *)
Theorem poweroff_after_resize_overruns (c : cache_t) (n : Z) :
  cacheOn c = true → Z.of_nat (length (cache c)) < u32 n →
  let c' := fst (set_block_cache_size n c) in
  snd (set_block_cache_size n c) = 0
  ∧ cache c' = cache c
  ∧ close_block_cache c' = None
  ∧ ∀ s, isOn s = true → bcache s = c' → block_poweroff s = None.
Proof.
  intros Hon Hn. simpl. split; [done|]. split; [done|].
  assert (close_block_cache (fst (set_block_cache_size n c)) = None)
    as Hclose.
  { unfold close_block_cache. simpl. rewrite Hon. simpl.
    rewrite clear_slots_None by lia. done. }
  split; [done|].
  intros s Hs Hc. unfold block_poweroff. rewrite Hs, Hc. simpl.
  simpl in Hclose. by rewrite Hclose.
Qed.

End Handles.

Lemma block_poweron_resets_witness :
  block_read (P:=sample_params) 1 (replicate 4 0) 4 sample_on
  = Some (sample_on, -1, replicate 4 0).
Proof.
  pose proof (block_poweron_resets (P:=sample_params)
                (boot (P:=sample_params) sample_device) eq_refl) as H.
  cbv zeta in H. destruct H as (_ & _ & _ & _ & _ & _ & H).
  destruct (H 1) as (_ & Hread & _); [by_computation|].
  exact (Hread (replicate 4 0) 4).
Defined.

Lemma block_poweroff_saves_witness :
  ∃ s1,
    block_poweroff (P:=sample_params) sample_state = Some (s1, 0)
    ∧ dev_frame (device s1) 0
      = sample_frame_of_file {| name := "ab"; size := 5; frames := [3] |}
    ∧ dev_frame (device s1) 3 = dev_frame (device sample_state) 3.
Proof.
  destruct (block_poweroff_saves (P:=sample_params) sample_state
              eq_refl eq_refl eq_refl) as (s1 & Hoff & Hmeta & Hdata & _).
  exists s1. split; [exact Hoff|]. split.
  - exact (Hmeta 0%nat _ eq_refl).
  - apply Hdata. right. by_computation.
Defined.

Lemma poweroff_after_resize_overruns_witness :
  close_block_cache (P:=sample_params)
    (fst (set_block_cache_size 3 sample_full)) = None.
Proof.
  refine (proj1 (proj2 (proj2
            (poweroff_after_resize_overruns (P:=sample_params) sample_full 3
               eq_refl _)))).
  by_computation.
Defined.

Lemma block_open_twice_witness :
  ∃ s1 s2 i f,
    block_open "a" sample_on = Some (s1, s16 0)
    ∧ block_open "a" s1 = Some (s2, s16 (0 + 1))
    ∧ at_Z (handles s2) 0 = Some (openFile i)
    ∧ at_Z (handles s2) (0 + 1) = Some (openFile i)
    ∧ files s2 = files s1 ∧ nbFiles s2 = nbFiles s1
    ∧ files s2 !! i = Some f ∧ name_prefix "a" f.
Proof.
  apply (block_open_twice "a" sample_on); by_computation.
Defined.

Lemma block_close_closes_witness :
  ∃ s', block_close 0 sample_state = Some (s', 0)
        ∧ block_seek 0 1 s' = Some (s', -1).
Proof.
  destruct (block_close_closes (P:=sample_params) 0 sample_state
              {| file := Some 0%nat; loc := 2; status := OPEN |}
              eq_refl eq_refl eq_refl)
    as (s' & Hclose & _ & _ & _ & _ & _ & Hseek).
  exists s'. split; [exact Hclose|apply Hseek].
Defined.

Lemma table_bounds_unchecked_witness :
  ∃ s1 s2,
    block_open "c" sample_state = Some (s1, 2)
    ∧ block_close 2 s1 = Some (s2, 0)
    ∧ nbHandles s2 = Z.of_nat (length (handles s2))
    ∧ ∀ path', block_open path' s2 = None.
Proof.
  apply (table_bounds_unchecked (P:=sample_params) "c" sample_state);
    by_computation.
Defined.

(** ** The contents of files *)

Section Contents.
Context `{P : BlockParams}.
Hypothesis HFS : 0 < BLOCK_FRAME_SIZE.

(** X16.  [block_read] copies into the first [min(count, size - cursor)]
    bytes of the buffer the bytes of the file from the cursor on, as the
    device holds them, and leaves the rest of the buffer, the device and the
    file table as they were. *)
Theorem block_read_content (fd : Z) (buf : list Z) (count : Z) (s : state)
    (h : fh_t) (fi : nat) (f : file_t) :
  isOn s = true → open_on s fd h fi f → file_ok f → io_ok s →
  0 ≤ loc h ≤ size f → 0 ≤ count →
  Z.min count (size f - loc h) ≤ Z.of_nat (length buf) →
  ∃ s' buf',
    block_read fd buf count s
    = Some (s', Z.min count (size f - loc h), buf')
    ∧ length buf' = length buf
    ∧ (∀ j : nat, Z.of_nat j < Z.min count (size f - loc h) →
         buf' !! j = file_byte f (device s) (loc h + Z.of_nat j)
         ∧ is_Some (buf' !! j))
    ∧ (∀ j : nat, Z.min count (size f - loc h) ≤ Z.of_nat j →
         buf' !! j = buf !! j)
    ∧ device s' = device s
    ∧ files s' = files s.
Proof.
  intros Hon Hopen Hok Hio Hloc Hcount Hbuf.
  destruct (block_read_spec HFS fd buf count s h fi f)
    as (c' & buf' & Hread & _ & Hlen & Hout); [done..|].
  eexists _, buf'. split; [exact Hread|]. split; [done|].
  split; [|split; [|done]].
  - intros j Hj. split.
    + by rewrite Hout, bool_decide_eq_true_2.
    + apply lookup_lt_is_Some_2. lia.
  - intros j Hj. rewrite Hout. by rewrite bool_decide_eq_false_2 by lia.
Qed.

Lemma file_byte_prefix (f f' : file_t) (d : device_t) (p : Z) (more : list Z) :
  frames f' = frames f ++ more →
  0 ≤ p < BLOCK_FRAME_SIZE * Z.of_nat (length (frames f)) →
  file_byte f' d p = file_byte f d p.
Proof.
  intros Hfr Hp. unfold file_byte, at_Z.
  assert (0 ≤ p `div` BLOCK_FRAME_SIZE < Z.of_nat (length (frames f))) as Hq.
  { split; [apply Z.div_pos; lia|]. apply Z.div_lt_upper_bound; lia. }
  rewrite bool_decide_eq_true_2 by lia.
  rewrite Hfr, lookup_app_l by lia. done.
Qed.

(** X17.  After [block_write] of [count] bytes, the bytes of the file at the
    positions from the cursor up to [cursor + count] are the bytes of the
    buffer, and every other byte of the frames that the file had before is
    as it was: the frames at both ends of the range are read, modified and
    written back. *)
Theorem block_write_content (fd : Z) (buf : list Z) (count : Z) (s s0 : state)
    (h : fh_t) (fi : nat) (f : file_t) :
  open_on s fd h fi f → Forall valid_frame (frames f) → io_ok s →
  NoDup (frames f) → Forall (λ x, x < freeFrameNr s) (frames f) →
  0 ≤ loc h → 0 ≤ count → loc h + count ≤ 2147483647 →
  count ≤ Z.of_nat (length buf) →
  0 ≤ freeFrameNr s → BLOCK_NUM_FRAMES ≤ NO_FRAME →
  allocateNewFrames fd count s = Some (s0, 0) →
  ∃ s' f',
    block_write fd buf count s = Some (s', count)
    ∧ files s' !! fi = Some f'
    ∧ (∀ p, loc h ≤ p < loc h + count →
         file_byte f' (device s') p = buf !! Z.to_nat (p - loc h))
    ∧ (∀ p, 0 ≤ p < BLOCK_FRAME_SIZE * Z.of_nat (length (frames f)) →
         ¬ (loc h ≤ p < loc h + count) →
         file_byte f' (device s') p = file_byte f (device s) p).
Proof.
  intros Hopen Hvalid Hio Hdup Hbelow Hloc Hcount Hmax Hbuf Hfree Hnum Halloc.
  destruct (block_write_spec HFS fd buf count s s0 h fi f)
    as (s1 & f1 & Hwrite & _ & _ & _ & _ & _ & Hfiles1 & _
        & _ & Hframes1 & _ & Hcover1 & Hbytes1); [done..|].
  destruct (Hbytes1 Hdup Hbelow) as [_ Hbytes]. clear Hbytes1.
  destruct Hopen as (_ & _ & _ & Hf).
  exists s1, f1. split; [done|]. split.
  { rewrite Hfiles1. apply list_lookup_insert_eq. by eapply lookup_lt_Some. }
  split.
  - intros p Hp. rewrite Hbytes by lia. by rewrite bool_decide_eq_true_2.
  - intros p Hp Hout.
    assert (length (frames f) ≤ length (frames f1))%nat as Hlen1
      by (rewrite Hframes1; unfold grown; simpl; rewrite length_app; lia).
    rewrite Hbytes by nia. rewrite bool_decide_eq_false_2 by done.
    eapply file_byte_prefix; [|done]. rewrite Hframes1. done.
Qed.

(** The write loop writes to frames of the file only. *)
Lemma write_loop_touches (fi : nat) (buf : list Z) (fuel : nat) :
  ∀ (s s' : state) (loc remaining bufOffset l : Z) (f : file_t),
  write_loop fuel fi s loc remaining bufOffset buf = Some (s', l) →
  files s !! fi = Some f →
  files s' = files s ∧ handles s' = handles s
  ∧ ∀ g, g ∉ frames f → dev_frame (device s') g = dev_frame (device s) g.
Proof.
  induction fuel as [|fuel IH]; intros s s' loc remaining bufOffset l f Hloop Hf;
    cbn [write_loop] in Hloop; case_bool_decide.
  - done.
  - by injection Hloop as <- <-.
  - rewrite Hf in Hloop. simpl in Hloop.
    destruct (at_Z (frames f) _) as [g|] eqn:Hg; simplify_eq/=.
    destruct (load_frame false g s) as [[s1 fr]|] eqn:Hload; simplify_eq/=.
    destruct (memcpy fr _ buf _ _) as [fr'|] eqn:Hcopy; simplify_eq/=.
    destruct (put_block_cache 0 g fr' (bcache s1)) as [[c2 r]|]; simplify_eq/=.
    destruct (i32 _) as [loc1|] eqn:Hloc1; simplify_eq/=.
    apply load_frame_frame in Hload as [c1 ->].
    apply (IH _ _ _ _ _ _ f) in Hloop as (Hfs & Hhs & Hdev); [|done].
    split; [done|]. split; [done|].
    intros g' Hg'. rewrite Hdev by done. simpl.
    rewrite dev_frame_wrfrme. case_bool_decide as Heq; [|done].
    subst g'. destruct Hg'. apply at_Z_Some in Hg as [_ Hg].
    by eapply list_elem_of_lookup_2.
  - by injection Hloop as <- <-.
Qed.

(** X18.  Every call of [block_write] that returns leaves all other handles
    and all other file table entries as they were, and changes no frame of
    the device below [freeFrameNr] that is not a frame of the file of the
    handle; so the contents of a file whose frames are such frames do not
    change. *)
Theorem block_write_isolation (fd : Z) (buf : list Z) (count : Z)
    (s s' : state) (r : Z) (h : fh_t) (fi : nat) (f : file_t) :
  open_on s fd h fi f →
  block_write fd buf count s = Some (s', r) →
  (∀ g, g ∉ frames f → g < freeFrameNr s →
     dev_frame (device s') g = dev_frame (device s) g)
  ∧ (∀ j, j ≠ fi → files s' !! j = files s !! j)
  ∧ (∀ fd', fd' ≠ fd → at_Z (handles s') fd' = at_Z (handles s) fd')
  ∧ (∀ j f2 p, j ≠ fi → files s !! j = Some f2 →
       Forall (λ g, (g ∉ frames f) ∧ g < freeFrameNr s) (frames f2) →
       files s' !! j = Some f2
       ∧ file_byte f2 (device s') p = file_byte f2 (device s) p).
Proof.
  intros (Hh & Hst & Hfile & Hf) Hwrite.
  assert ((∀ g, g ∉ frames f → g < freeFrameNr s →
             dev_frame (device s') g = dev_frame (device s) g)
          ∧ (∀ j, j ≠ fi → files s' !! j = files s !! j)
          ∧ (∀ fd', fd' ≠ fd → at_Z (handles s') fd' = at_Z (handles s) fd'))
    as (Hdev & Hfiles & Hhandles).
  { unfold block_write in Hwrite. rewrite Hh in Hwrite. simpl in Hwrite.
    rewrite Hst, Hfile in Hwrite. simpl in Hwrite.
    destruct (allocateNewFrames fd count s) as [[s0 r0]|] eqn:Halloc;
      simplify_eq/=.
    assert (device s0 = device s ∧ handles s0 = handles s
            ∧ (∀ j, j ≠ fi → files s0 !! j = files s !! j)
            ∧ ∃ f0, files s0 !! fi = Some f0
                    ∧ ∀ g, g ∉ frames f → g < freeFrameNr s → g ∉ frames f0)
      as (Hd0 & Hh0 & Hfs0 & f0 & Hf0 & Hfr0).
    { unfold allocateNewFrames in Halloc. rewrite Hh in Halloc.
      simpl in Halloc. rewrite Hfile in Halloc. simpl in Halloc.
      rewrite Hf in Halloc. simpl in Halloc.
      repeat case_bool_decide; injection Halloc as <- <-;
        try (split_and!; [done|done|done|by exists f]).
      simpl. split_and!; [done|done| |].
      - intros j Hj. by apply list_lookup_insert_ne.
      - eexists. split;
          [apply list_lookup_insert_eq; by eapply lookup_lt_Some|].
        simpl. intros g Hg Hlt [Hin|Hin]%elem_of_app; [done|].
        apply elem_of_seqZ in Hin. lia. }
    case_bool_decide; simplify_eq/=.
    { split_and!; [intros; by rewrite Hd0|done|by rewrite Hh0]. }
    destruct (write_loop _ fi s0 _ _ _ buf) as [[s1 l]|] eqn:Hloop;
      simplify_eq/=.
    destruct (write_loop_touches _ _ _ _ _ _ _ _ _ f0 Hloop Hf0)
      as (Hfs1 & Hhs1 & Hdev1).
    destruct (at_Z (handles s1) fd) as [h1|] eqn:Hh1; simplify_eq/=.
    apply at_Z_Some in Hh as [Hfd0 _].
    assert (∀ fd', fd' ≠ fd →
              at_Z (<[Z.to_nat fd := {| file := file h1; loc := l;
                                        status := status h1 |}]> (handles s1))
                fd' = at_Z (handles s) fd') as Hhs.
    { intros fd' Hne. rewrite Hhs1, Hh0. unfold at_Z.
      case_bool_decide; [|done]. apply list_lookup_insert_ne. lia. }
    rewrite Hfs1, Hf0 in Hwrite. simpl in Hwrite.
    case_bool_decide; injection Hwrite as <- <-; simpl.
    - split_and!; [|intros j Hj; rewrite list_lookup_insert_ne by done;
                     rewrite ?Hfs1; by apply Hfs0|done].
      intros g Hg Hlt. rewrite Hdev1, Hd0; [done|by apply Hfr0].
    - split_and!; [|intros j Hj; rewrite ?Hfs1; by apply Hfs0|done].
      intros g Hg Hlt. rewrite Hdev1, Hd0; [done|by apply Hfr0]. }
  split; [done|]. split; [done|]. split; [done|].
  intros j f2 p Hj Hf2 Hdisj. split; [by rewrite Hfiles|].
  unfold file_byte. destruct (at_Z (frames f2) _) as [g|] eqn:Hg; [|done].
  simpl. apply at_Z_Some in Hg as [_ Hg].
  apply (proj1 (Forall_lookup _ _) Hdisj) in Hg as [Hg1 Hg2].
  by rewrite Hdev.
Qed.

(** X19.  A [block_read] and a [block_write] of zero bytes on an open handle
    whose cursor is within the file return 0 and leave the whole state as it
    was. *)
Theorem zero_length_transfer (fd : Z) (buf : list Z) (s : state)
    (h : fh_t) (fi : nat) (f : file_t) :
  open_on s fd h fi f → 0 ≤ loc h ≤ size f →
  size f ≤ BLOCK_FRAME_SIZE * Z.of_nat (length (frames f)) →
  (isOn s = true → block_read fd buf 0 s = Some (s, 0, buf))
  ∧ block_write fd buf 0 s = Some (s, 0).
Proof.
  intros (Hh & Hst & Hfile & Hf) Hloc Hcover.
  assert (set_loc s fd h (loc h) = s) as Hsame.
  { unfold set_loc. apply at_Z_Some in Hh as [_ Hh].
    destruct s as [? ? ? ? ? hs ? ?]. unfold set_handles. simpl in *.
    f_equal. apply list_insert_id. rewrite Hh. by destruct h. }
  split.
  - intros Hon. unfold block_read. rewrite Hon, Hh. simpl.
    rewrite Hst, Hfile. simpl. rewrite Hf. simpl.
    rewrite bool_decide_eq_false_2 by lia. simpl.
    rewrite Hh. simpl. by rewrite Hsame.
  - unfold block_write. rewrite Hh. simpl. rewrite Hst, Hfile. simpl.
    unfold allocateNewFrames. rewrite Hh. simpl. rewrite Hfile. simpl.
    rewrite Hf. simpl.
    assert (frames_for (loc h + 0) ≤ Z.of_nat (length (frames f))) as Hff.
    { unfold frames_for. apply Z.lt_succ_r.
      apply Z.div_lt_upper_bound; [lia|]. lia. }
    rewrite bool_decide_eq_true_2 by lia. simpl.
    rewrite Hh. simpl. rewrite Hsame, Hf. simpl.
    by rewrite bool_decide_eq_false_2 by lia.
Qed.

(** X20.  Two handles of one file share its file table entry: the bytes
    written through one handle, also beyond the former end of the file, are
    returned by a read of as many bytes through another handle whose cursor
    is at the position where the write started. *)
Theorem write_seen_by_other_handle (fd1 fd2 : Z) (data buf : list Z)
    (count : Z) (s s0 : state) (h1 h2 : fh_t) (fi : nat) (f : file_t) :
  isOn s = true →
  open_on s fd1 h1 fi f → open_on s fd2 h2 fi f → fd1 ≠ fd2 →
  loc h2 = loc h1 →
  file_ok f → io_ok s →
  NoDup (frames f) → Forall (λ x, x < freeFrameNr s) (frames f) →
  0 ≤ freeFrameNr s → BLOCK_NUM_FRAMES ≤ NO_FRAME →
  0 ≤ loc h1 → 0 ≤ count → loc h1 + count ≤ 2147483647 →
  count ≤ Z.of_nat (length data) → count ≤ Z.of_nat (length buf) →
  allocateNewFrames fd1 count s = Some (s0, 0) →
  ∃ s1 s2 buf',
    block_write fd1 data count s = Some (s1, count)
    ∧ block_read fd2 buf count s1 = Some (s2, count, buf')
    ∧ take (Z.to_nat count) buf' = take (Z.to_nat count) data.
Proof.
  intros Hon Hopen1 Hopen2 Hfd Hsame (Hvalid & Hsize & Hsmax) Hio Hdup Hbelow
    Hfree Hnum Hloc Hcount Hmax Hdata Hbuf Halloc.
  destruct (block_write_spec HFS fd1 data count s s0 h1 fi f)
    as (s1 & f1 & Hwrite & Hio1 & Hon1 & _ & _ & Hhandles1 & Hfiles1 & _
        & Hsize1 & Hframes1 & Hvalid1 & Hcover1 & Hbytes1); [done..|].
  destruct (Hbytes1 Hdup Hbelow) as [_ Hbytes]. clear Hbytes1.
  destruct Hopen2 as (Hh2 & Hst2 & Hfile2 & Hf).
  pose proof Hopen1 as (Hh1 & _).
  apply at_Z_Some in Hh1 as [Hfd1 _].
  assert (at_Z (handles s1) fd2 = Some h2) as Hh2'
    by (rewrite Hhandles1, at_Z_insert_ne; done).
  assert (files s1 !! fi = Some f1) as Hf1
    by (rewrite Hfiles1; apply list_lookup_insert_eq; by eapply lookup_lt_Some).
  assert (length (frames f) ≤ length (frames f1))%nat as Hlen1
    by (rewrite Hframes1; unfold grown; simpl; rewrite length_app; lia).
  destruct (block_read_spec HFS fd2 buf count s1 h2 fi f1)
    as (c3 & buf' & Hread & _ & Hlen' & Hout).
  { by rewrite Hon1. }
  { by split_and!. }
  { split_and!; try done; nia. }
  { done. }
  { lia. }
  { done. }
  { lia. }
  replace (Z.min count (size f1 - loc h2)) with count in * by lia.
  exists s1. eexists _, buf'. split; [done|]. split; [exact Hread|].
  apply list_eq. intros j.
  destruct (decide (j < Z.to_nat count)%nat) as [Hj|Hj].
  - rewrite !lookup_take_lt by done. rewrite Hout.
    rewrite bool_decide_eq_true_2 by lia.
    rewrite Hbytes by nia. rewrite bool_decide_eq_true_2 by lia.
    f_equal. lia.
  - by rewrite !lookup_take_ge by lia.
Qed.

(** X21.  [block_seek] to a position within the file followed by
    [block_read] returns [min(count, size - position)], the bytes of the file
    from that position on, and leaves the cursor behind the last byte
    read. *)
Theorem seek_then_read (fd pos : Z) (buf : list Z) (count : Z) (s : state)
    (h : fh_t) (fi : nat) (f : file_t) :
  isOn s = true → open_on s fd h fi f → file_ok f → io_ok s →
  0 ≤ pos ≤ size f → 0 ≤ count →
  Z.min count (size f - pos) ≤ Z.of_nat (length buf) →
  ∃ s1 s2 buf',
    block_seek fd pos s = Some (s1, 0)
    ∧ block_read fd buf count s1
      = Some (s2, Z.min count (size f - pos), buf')
    ∧ at_Z (handles s2) fd
      = Some (moved h (pos + Z.min count (size f - pos)))
    ∧ ∀ j : nat,
        buf' !! j
        = if bool_decide (Z.of_nat j < Z.min count (size f - pos))
          then file_byte f (device s) (pos + Z.of_nat j)
          else buf !! j.
Proof.
  intros Hon (Hh & Hst & Hfile & Hf) Hok Hio Hpos Hcount Hbuf.
  pose proof Hok as (_ & Hsize & Hmax).
  pose proof Hh as [Hfd Hh']%at_Z_Some.
  set (s1 := set_loc s fd h pos).
  assert (block_seek fd pos s = Some (s1, 0)) as Hseek.
  { unfold block_seek. rewrite Hh. simpl. rewrite Hst, Hfile. simpl.
    rewrite Hf. simpl.
    replace (u32 (size f)) with (size f)
      by (unfold u32; rewrite Z.mod_small; lia).
    rewrite bool_decide_eq_false_2 by lia.
    replace (s32 pos) with pos by (unfold s32; rewrite Z.mod_small; lia).
    done. }
  destruct (block_read_spec HFS fd buf count s1 (moved h pos) fi f)
    as (c' & buf' & Hread & _ & _ & Hout); [done| |done|done|simpl; lia|done|done|].
  { split_and!; try done. unfold s1, set_loc. simpl.
    by eapply at_Z_insert_eq. }
  simpl in Hread, Hout.
  exists s1. eexists _, buf'. split; [done|]. split; [exact Hread|].
  split; [|done]. simpl. eapply at_Z_insert_eq.
  unfold s1, set_loc. simpl. by eapply at_Z_insert_eq.
Qed.

(** X22.  Two successive calls of [block_read] on a handle return
    consecutive parts of the file: the second one starts where the first one
    stopped, and the cursor ends behind both. *)
Theorem sequential_reads (fd : Z) (buf1 buf2 : list Z) (n1 n2 : Z)
    (s : state) (h : fh_t) (fi : nat) (f : file_t) :
  isOn s = true → open_on s fd h fi f → file_ok f → io_ok s →
  0 ≤ loc h → 0 ≤ n1 → 0 ≤ n2 → loc h + n1 + n2 ≤ size f →
  n1 ≤ Z.of_nat (length buf1) → n2 ≤ Z.of_nat (length buf2) →
  ∃ s1 s2 buf1' buf2',
    block_read fd buf1 n1 s = Some (s1, n1, buf1')
    ∧ block_read fd buf2 n2 s1 = Some (s2, n2, buf2')
    ∧ at_Z (handles s2) fd = Some (moved h (loc h + n1 + n2))
    ∧ (∀ j : nat, Z.of_nat j < n1 →
         buf1' !! j = file_byte f (device s) (loc h + Z.of_nat j))
    ∧ (∀ j : nat, Z.of_nat j < n2 →
         buf2' !! j = file_byte f (device s) (loc h + n1 + Z.of_nat j)).
Proof.
  intros Hon Hopen Hok Hio Hloc Hn1 Hn2 Hend Hb1 Hb2.
  pose proof Hopen as (Hh & Hst & Hfile & Hf).
  pose proof Hh as [Hfd Hh']%at_Z_Some.
  destruct (block_read_spec HFS fd buf1 n1 s h fi f)
    as (c1 & buf1' & Hread1 & Hio1 & _ & Hout1); [done|done|done|done|lia|lia|lia|].
  replace (Z.min n1 (size f - loc h)) with n1 in * by lia.
  set (s1 := set_handles (set_bcache s c1)
               (<[Z.to_nat fd := moved h (loc h + n1)]> (handles s))) in *.
  destruct (block_read_spec HFS fd buf2 n2 s1 (moved h (loc h + n1)) fi f)
    as (c2 & buf2' & Hread2 & _ & _ & Hout2);
    [done| |done|done|simpl; lia|lia|simpl; lia|].
  { split_and!; try done. unfold s1. simpl. by eapply at_Z_insert_eq. }
  simpl in Hread2, Hout2.
  replace (Z.min n2 (size f - (loc h + n1))) with n2 in * by lia.
  exists s1. eexists _, buf1', buf2'.
  split; [done|]. split; [exact Hread2|]. split.
  { simpl. rewrite list_insert_insert_eq.
    by eapply at_Z_insert_eq. }
  split.
  - intros j Hj. by rewrite Hout1, bool_decide_eq_true_2.
  - intros j Hj. by rewrite Hout2, bool_decide_eq_true_2.
Qed.

End Contents.

Lemma block_read_content_witness :
  ∃ s' buf',
    block_read (P:=sample_params) 0 (replicate 10 7) 50 sample_state
    = Some (s', Z.min 50 (5 - 2), buf')
    ∧ length buf' = 10%nat.
Proof.
  destruct (block_read_content (P:=sample_params) sample_frame_size
              0 (replicate 10 7) 50 sample_state
              {| file := Some 0%nat; loc := 2; status := OPEN |} 0%nat
              {| name := "ab"; size := 5; frames := [3] |}
              eq_refl sample_open_on sample_file_ok sample_io_ok)
    as (s' & buf' & Hread & Hlen & _); [by_computation..|].
  by exists s', buf'.
Defined.

Lemma block_write_content_witness :
  ∃ s' f',
    block_write (P:=sample_params) 0 (seqZ 1 10) 10 sample_state
    = Some (s', 10)
    ∧ files s' !! 0%nat = Some f'
    ∧ file_byte (P:=sample_params) f' (device s') 2 = Some 1
    ∧ file_byte (P:=sample_params) f' (device s') 1
      = file_byte (P:=sample_params)
          {| name := "ab"; size := 5; frames := [3] |} (device sample_state) 1.
Proof.
  assert (NoDup [3]) as Hdup by (apply (bool_decide_unpack _); by_computation).
  assert (Forall (λ x, x < 4) [3]) as Hbelow by (repeat constructor).
  destruct (block_write_content (P:=sample_params) sample_frame_size
              0 (seqZ 1 10) 10 sample_state _
              {| file := Some 0%nat; loc := 2; status := OPEN |} 0%nat
              {| name := "ab"; size := 5; frames := [3] |}
              sample_open_on (proj1 sample_file_ok) sample_io_ok Hdup Hbelow
              ltac:(by_computation) ltac:(by_computation)
              ltac:(by_computation) ltac:(by_computation)
              ltac:(by_computation) ltac:(by_computation) sample_allocate)
    as (s' & f' & Hwrite & Hf' & Hin & Hout).
  exists s', f'. split; [exact Hwrite|]. split; [exact Hf'|]. split.
  - apply (Hin 2). simpl. lia.
  - apply (Hout 1); simpl; lia.
Defined.

Lemma block_write_isolation_witness :
  (∀ g, g ∉ [3] → g < 4 →
     dev_frame (device sample_state_written) g
     = dev_frame (device sample_state) g)
  ∧ ∀ j, j ≠ 0%nat →
      files sample_state_written !! j = files sample_state !! j.
Proof.
  destruct (block_write_isolation (P:=sample_params)
              0 (seqZ 1 10) 10 sample_state sample_state_written 10
              {| file := Some 0%nat; loc := 2; status := OPEN |} 0%nat
              {| name := "ab"; size := 5; frames := [3] |}
              sample_open_on) as (Hdev & Hfiles & _).
  - vm_compute. reflexivity.
  - split; [exact Hdev|exact Hfiles].
Defined.

Lemma sample_shared_io_ok : io_ok (P:=sample_params) sample_shared.
Proof. exact sample_io_ok. Qed.

Lemma write_seen_by_other_handle_witness :
  ∃ s1 s2 buf',
    block_write (P:=sample_params) 0 (seqZ 1 10) 10 sample_shared
    = Some (s1, 10)
    ∧ block_read (P:=sample_params) 1 (replicate 12 0) 10 s1
      = Some (s2, 10, buf')
    ∧ take 10 buf' = take 10 (seqZ 1 10).
Proof.
  refine (write_seen_by_other_handle (P:=sample_params) sample_frame_size
            0 1 (seqZ 1 10) (replicate 12 0) 10 sample_shared _
            {| file := Some 0%nat; loc := 2; status := OPEN |}
            {| file := Some 0%nat; loc := 2; status := OPEN |} 0%nat
            {| name := "ab"; size := 5; frames := [3] |}
            eq_refl _ _ _ eq_refl sample_file_ok sample_shared_io_ok
            _ _ _ _ _ _ _ _ _ (eq_refl : _ = Some (_, 0))); try by_computation.
  - apply (bool_decide_unpack _). by_computation.
  - repeat constructor.
Defined.

Lemma zero_length_transfer_witness :
  block_read (P:=sample_params) 0 (replicate 4 7) 0 sample_state
  = Some (sample_state, 0, replicate 4 7)
  ∧ block_write (P:=sample_params) 0 (replicate 4 7) 0 sample_state
    = Some (sample_state, 0).
Proof.
  destruct (zero_length_transfer (P:=sample_params) sample_frame_size
              0 (replicate 4 7) sample_state
              {| file := Some 0%nat; loc := 2; status := OPEN |} 0%nat
              {| name := "ab"; size := 5; frames := [3] |}
              sample_open_on) as [Hread Hwrite]; [by_computation..|].
  split; [by apply Hread|exact Hwrite].
Defined.

Lemma seek_then_read_witness :
  ∃ s1 s2 buf',
    block_seek 0 4 sample_state = Some (s1, 0)
    ∧ block_read (P:=sample_params) 0 (replicate 4 7) 4 s1
      = Some (s2, Z.min 4 (5 - 4), buf').
Proof.
  destruct (seek_then_read (P:=sample_params) sample_frame_size
              0 4 (replicate 4 7) 4 sample_state
              {| file := Some 0%nat; loc := 2; status := OPEN |} 0%nat
              {| name := "ab"; size := 5; frames := [3] |}
              eq_refl sample_open_on sample_file_ok sample_io_ok)
    as (s1 & s2 & buf' & Hseek & Hread & _); [by_computation..|].
  by exists s1, s2, buf'.
Defined.

Lemma sequential_reads_witness :
  ∃ s1 s2 buf1' buf2',
    block_read (P:=sample_params) 0 (replicate 2 7) 1 sample_state
    = Some (s1, 1, buf1')
    ∧ block_read (P:=sample_params) 0 (replicate 2 7) 2 s1
      = Some (s2, 2, buf2').
Proof.
  destruct (sequential_reads (P:=sample_params) sample_frame_size
              0 (replicate 2 7) (replicate 2 7) 1 2 sample_state
              {| file := Some 0%nat; loc := 2; status := OPEN |} 0%nat
              {| name := "ab"; size := 5; frames := [3] |}
              eq_refl sample_open_on sample_file_ok sample_io_ok)
    as (s1 & s2 & b1 & b2 & Hr1 & Hr2 & _); [by_computation..|].
  by exists s1, s2, b1, b2.
Defined.

(** ** Cursors *)

Section Cursor.
Context `{P : BlockParams}.

Lemma search_file_result fs path n : ∀ i j b,
  search_file fs path i n = Some (j, b) →
  if b then (j < i + n)%nat ∧ is_Some (fs !! j) else j = (i + n)%nat.
Proof.
  induction n as [|n IH]; intros i j b Hs; simpl in Hs.
  - injection Hs as <- <-. lia.
  - destruct (fs !! i) as [f|] eqn:Hf; simplify_eq/=.
    destruct (memcmp_eq _ _ _).
    + injection Hs as <- <-. split; [lia|by eexists].
    + apply IH in Hs. destruct b; [split; [lia|tauto]|lia].
Qed.

Lemma read_loop_loc (fi : nat) (fuel : nat) :
  ∀ (s s' : state) (loc remaining bufOffset l : Z) (buf buf' : list Z),
  read_loop fuel fi s loc remaining bufOffset buf = Some (s', l, buf') →
  0 ≤ remaining → l = loc + remaining.
Proof.
  induction fuel as [|fuel IH];
    intros s s' loc remaining bufOffset l buf buf' Hloop Hrem;
    cbn [read_loop] in Hloop; case_bool_decide.
  - injection Hloop as <- <- <-. lia.
  - done.
  - injection Hloop as <- <- <-. lia.
  - destruct (files s !! fi) as [f|]; simplify_eq/=.
    destruct (at_Z (frames f) _) as [g|]; simplify_eq/=.
    destruct (load_frame true g s) as [[s1 fr]|] eqn:Hload; simplify_eq/=.
    destruct (memcpy buf _ fr _ _) as [buf1|] eqn:Hcopy; simplify_eq/=.
    destruct (i32 _) as [loc1|] eqn:Hloc1; simplify_eq/=.
    apply memcpy_inv in Hcopy as (Hn & _).
    unfold i32 in Hloc1. case_bool_decide; simplify_eq/=.
    apply IH in Hloop; [lia|].
    unfold chunk in *. case_bool_decide; lia.
Qed.

Lemma write_loop_loc (fi : nat) (buf : list Z) (fuel : nat) :
  ∀ (s s' : state) (loc remaining bufOffset l : Z),
  write_loop fuel fi s loc remaining bufOffset buf = Some (s', l) →
  loc ≤ 2147483647 → loc ≤ l ≤ 2147483647.
Proof.
  induction fuel as [|fuel IH]; intros s s' loc remaining bufOffset l Hloop Hloc;
    cbn [write_loop] in Hloop; case_bool_decide.
  - done.
  - injection Hloop as <- <-. lia.
  - destruct (files s !! fi) as [f|]; simplify_eq/=.
    destruct (at_Z (frames f) _) as [g|]; simplify_eq/=.
    destruct (load_frame false g s) as [[s1 fr]|] eqn:Hload; simplify_eq/=.
    destruct (memcpy fr _ buf _ _) as [fr'|] eqn:Hcopy; simplify_eq/=.
    destruct (put_block_cache 0 g fr' (bcache s1)) as [[c2 r]|]; simplify_eq/=.
    destruct (i32 _) as [loc1|] eqn:Hloc1; simplify_eq/=.
    apply memcpy_inv in Hcopy as (Hn & _).
    unfold i32 in Hloc1. case_bool_decide; simplify_eq/=.
    apply IH in Hloop; lia.
  - injection Hloop as <- <-. lia.
Qed.

Lemma write_loop_keeps (fi : nat) (buf : list Z) (fuel : nat) :
  ∀ (s s' : state) (loc remaining bufOffset l : Z),
  write_loop fuel fi s loc remaining bufOffset buf = Some (s', l) →
  ∃ c' d', s' = set_device (set_bcache s c') d'.
Proof.
  induction fuel as [|fuel IH]; intros s s' loc remaining bufOffset l Hloop;
    cbn [write_loop] in Hloop; case_bool_decide.
  - done.
  - injection Hloop as <- <-.
    exists (bcache s), (device s). by rewrite set_device_same.
  - destruct (files s !! fi) as [f|]; simplify_eq/=.
    destruct (at_Z (frames f) _) as [g|]; simplify_eq/=.
    destruct (load_frame false g s) as [[s1 fr]|] eqn:Hload; simplify_eq/=.
    destruct (memcpy fr _ buf _ _) as [fr'|] eqn:Hcopy; simplify_eq/=.
    destruct (put_block_cache 0 g fr' (bcache s1)) as [[c2 r]|]; simplify_eq/=.
    destruct (i32 _) as [loc1|] eqn:Hloc1; simplify_eq/=.
    apply load_frame_frame in Hload as [c1 ->].
    apply IH in Hloop as (c3 & d3 & ->). by exists c3, d3.
  - injection Hloop as <- <-.
    exists (bcache s), (device s). by rewrite set_device_same.
Qed.

Lemma at_Z_insert_cases {A} (a : list A) (z z' : Z) (x y : A) :
  0 ≤ z → at_Z (<[Z.to_nat z := y]> a) z' = Some x →
  (z' = z ∧ x = y) ∨ (z' ≠ z ∧ at_Z a z' = Some x).
Proof.
  intros Hz Hat. destruct (decide (z' = z)) as [->|Hne].
  - left. split; [done|]. apply at_Z_Some in Hat as [_ Hat].
    apply list_lookup_insert_Some in Hat as [(_ & -> & _)|[? _]]; done.
  - right. split; [done|]. by rewrite at_Z_insert_ne in Hat.
Qed.

Section Steps.
Variable d : device_t.
Hypothesis Hmeta : Forall (λ f, 0 ≤ size f ≤ 2147483647) (load_files d).

Lemma boot_cursor_inv : cursor_inv d (boot d).
Proof.
  split_and!; [| |done].
  - intros i f Hf. simpl in Hf. apply lookup_replicate in Hf as [-> _].
    simpl. lia.
  - intros fd h Hh Hst. simpl in Hh. apply at_Z_Some in Hh as [_ Hh].
    apply lookup_replicate in Hh as [-> _]. done.
Qed.

Lemma open_cursor_inv (path : string) (s s' : state) (r : Z) :
  cursor_inv d s → block_open path s = Some (s', r) → cursor_inv d s'.
Proof.
  intros (Hsz & Hcur & Hboot) Hopen. unfold block_open in Hopen.
  destruct (isOn s) eqn:Hon; simpl in Hopen;
    [|injection Hopen as <- <-; split_and!; [done|done|]; by rewrite Hon].
  destruct (search_file _ _ _ _) as [[i found]|] eqn:Hs; simplify_eq/=.
  apply search_file_result in Hs. destruct found; simpl in Hopen.
  - destruct Hs as [Hi [f Hf]].
    destruct (set_Z (handles s) _ _) as [hs|] eqn:Hset; simplify_eq/=.
    unfold set_Z in Hset. case_bool_decide; simplify_eq.
    split_and!; [done| |simpl; congruence].
    intros fd h Hat Hst. simpl in *.
    apply at_Z_insert_cases in Hat as [[-> ->]|[Hne Hat]]; [| |lia].
    + exists i, f. split_and!; [done|lia|done|simpl..].
      * lia.
      * by apply (Hsz i f).
    + by apply (Hcur fd h).
  - subst i.
    destruct (set_Z (files s) _ _) as [fs|] eqn:Hsetf; simplify_eq/=.
    destruct (set_Z (handles s) _ _) as [hs|] eqn:Hset; simplify_eq/=.
    unfold set_Z in Hset, Hsetf. repeat case_bool_decide; simplify_eq.
    split_and!; [| |simpl; congruence].
    + intros i f Hf. simpl in Hf.
      apply list_lookup_insert_Some in Hf as [(_ & <- & _)|[_ Hf]];
        [simpl; lia|by apply (Hsz i f)].
    + intros fd h Hat Hst. simpl in *.
      apply at_Z_insert_cases in Hat as [[-> ->]|[Hne Hat]]; [| |lia].
      * exists (Z.to_nat (nbFiles s)), (createNewFile path).
        split_and!; [done|lia| |simpl; lia..].
        apply list_lookup_insert_eq. lia.
      * destruct (Hcur fd h Hat Hst) as (fi & f & Hfile & Hfi & Hf & Hloc).
        exists fi, f. split_and!; [done|lia| |lia..].
        rewrite list_lookup_insert_ne by lia. done.
Qed.

Lemma close_cursor_inv (fd : Z) (s s' : state) (r : Z) :
  cursor_inv d s → block_close fd s = Some (s', r) → cursor_inv d s'.
Proof.
  intros (Hsz & Hcur & Hboot) Hclose. unfold block_close in Hclose.
  destruct (isOn s) eqn:Hon; simpl in Hclose;
    [|injection Hclose as <- <-; split_and!; [done|done|]; by rewrite Hon].
  destruct (at_Z (handles s) fd) as [h|] eqn:Hh; simplify_eq/=.
  destruct (status h) eqn:Hst; injection Hclose as <- <-.
  { split_and!; [done|done|congruence]. }
  apply at_Z_Some in Hh as [Hfd _].
  split_and!; [done| |simpl; congruence].
  intros fd' h' Hat Hst'. simpl in *.
  apply at_Z_insert_cases in Hat as [[-> ->]|[Hne Hat]]; [done| |done].
  by apply (Hcur fd' h').
Qed.

Lemma read_cursor_inv (fd : Z) (buf : list Z) (count : Z) (s s' : state)
    (r : Z) (buf' : list Z) :
  cursor_inv d s → block_read fd buf count s = Some (s', r, buf') →
  cursor_inv d s'.
Proof.
  intros (Hsz & Hcur & Hboot) Hread. unfold block_read in Hread.
  destruct (isOn s) eqn:Hon; simpl in Hread;
    [|injection Hread as <- <- <-; split_and!; [done|done|]; by rewrite Hon].
  destruct (at_Z (handles s) fd) as [h|] eqn:Hh; simplify_eq/=.
  destruct (status h) eqn:Hst.
  { injection Hread as <- <- <-. split_and!; [done|done|congruence]. }
  destruct (Hcur fd h Hh Hst) as (fi & f & Hfile & Hfi & Hf & Hloc).
  rewrite Hfile in Hread. simpl in Hread. rewrite Hf in Hread. simpl in Hread.
  set (n := if bool_decide (size f - loc h < count) then size f - loc h
            else count) in *.
  destruct (read_loop _ fi s _ _ _ _) as [[[s1 l] b1]|] eqn:Hloop;
    simplify_eq/=.
  assert (0 ≤ n) as Hn.
  { destruct (decide (0 ≤ n)) as [|Hneg]; [done|]. exfalso.
    replace (Z.to_nat n) with 0%nat in Hloop by lia.
    simpl in Hloop. by rewrite bool_decide_eq_false_2 in Hloop by lia. }
  pose proof (read_loop_loc _ _ _ _ _ _ _ _ _ _ Hloop Hn) as ->.
  apply read_loop_frame in Hloop as [c' ->]. simpl in Hread.
  rewrite Hh in Hread. simpl in Hread. injection Hread as <- <- <-.
  apply at_Z_Some in Hh as [Hfd Hh'].
  split_and!; [done| |simpl; congruence].
  intros fd' h' Hat Hst'. simpl in *.
  apply at_Z_insert_cases in Hat as [[-> ->]|[Hne Hat]]; [| |done].
  - exists fi, f. split_and!; [done..|simpl|simpl].
    + lia.
    + unfold n. case_bool_decide; lia.
  - by apply (Hcur fd' h').
Qed.

Lemma open_handle_on (s : state) (fd : Z) (h : fh_t) :
  cursor_inv d s → at_Z (handles s) fd = Some h → status h = OPEN →
  isOn s = true.
Proof.
  intros (_ & _ & Hboot) Hh Hst. destruct (isOn s) eqn:Hon; [done|].
  rewrite (Hboot eq_refl) in Hh. simpl in Hh.
  apply at_Z_Some in Hh as [_ Hh]. apply lookup_replicate in Hh as [-> _].
  done.
Qed.

Lemma sizes_ok_insert (s s' : state) (fi : nat) (ff : file_t) :
  sizes_ok s → 0 ≤ size ff ≤ 2147483647 →
  files s' = <[fi := ff]> (files s) → sizes_ok s'.
Proof.
  intros Hsz Hff Hfs i f Hf. rewrite Hfs in Hf.
  apply list_lookup_insert_Some in Hf as [(_ & <- & _)|[_ Hf]];
    [done|by apply (Hsz i f)].
Qed.

Lemma cursors_ok_grow (s s' : state) (fi : nat) (f ff : file_t) :
  cursors_ok s → files s !! fi = Some f → size f ≤ size ff →
  files s' = <[fi := ff]> (files s) → nbFiles s' = nbFiles s →
  (∀ fd h, at_Z (handles s') fd = Some h → status h = OPEN →
     at_Z (handles s) fd = Some h
     ∨ (file h = Some fi ∧ Z.of_nat fi < nbFiles s ∧ 0 ≤ loc h ≤ size ff)) →
  cursors_ok s'.
Proof.
  intros Hcur Hf Hle Hfs Hnb Hhs fd h Hh Hst.
  pose proof (lookup_lt_Some _ _ _ Hf) as Hlt.
  destruct (Hhs fd h Hh Hst) as [Hold|(Hfile & Hfi & Hloc)].
  - destruct (Hcur fd h Hold Hst) as (fi' & f' & Hfile & Hfi & Hf' & Hloc).
    destruct (decide (fi' = fi)) as [->|Hne].
    + exists fi, ff. rewrite Hfs, Hnb. split_and!; [done|done| |lia|].
      * by apply list_lookup_insert_eq.
      * rewrite Hf in Hf'. injection Hf' as <-. lia.
    + exists fi', f'. rewrite Hfs, Hnb. split_and!; [done|done| |lia|lia].
      by rewrite list_lookup_insert_ne.
  - exists fi, ff. rewrite Hfs, Hnb. split_and!; [done|done| |lia|lia].
    by apply list_lookup_insert_eq.
Qed.

Lemma write_cursor_inv (fd : Z) (buf : list Z) (count : Z) (s s' : state)
    (r : Z) :
  cursor_inv d s → block_write fd buf count s = Some (s', r) →
  cursor_inv d s'.
Proof.
  intros Hinv Hwrite. pose proof Hinv as (Hsz & Hcur & Hboot).
  unfold block_write in Hwrite.
  destruct (at_Z (handles s) fd) as [h|] eqn:Hh; simplify_eq/=.
  destruct (status h) eqn:Hst.
  { by injection Hwrite as <- <-. }
  pose proof (open_handle_on s fd h Hinv Hh Hst) as Hon.
  destruct (Hcur fd h Hh Hst) as (fi & f & Hfile & Hfi & Hf & Hloc).
  pose proof (Hsz fi f Hf) as Hsf.
  rewrite Hfile in Hwrite. simpl in Hwrite.
  destruct (allocateNewFrames fd count s) as [[s0 r0]|] eqn:Halloc;
    simplify_eq/=.
  assert (handles s0 = handles s ∧ nbFiles s0 = nbFiles s ∧ isOn s0 = isOn s
          ∧ ∃ f0, files s0 = <[fi := f0]> (files s) ∧ size f0 = size f)
    as (Hh0 & Hnb0 & Hon0 & f0 & Hfs0 & Hsize0).
  { unfold allocateNewFrames in Halloc. rewrite Hh in Halloc.
    simpl in Halloc. rewrite Hfile in Halloc. simpl in Halloc.
    rewrite Hf in Halloc. simpl in Halloc.
    repeat case_bool_decide; injection Halloc as <- <-;
      try (split_and!; [done..|]; exists f; by rewrite list_insert_id).
    simpl. split_and!; [done..|]. by eexists. }
  pose proof (lookup_lt_Some _ _ _ Hf) as Hlt.
  case_bool_decide.
  { injection Hwrite as <- <-. split_and!; [| |congruence].
    - eapply sizes_ok_insert; [done| |done]. lia.
    - eapply (cursors_ok_grow s s0 fi f f0); [done|done|lia|done|done|].
      intros fd' h' Hh2 _. left. by rewrite <- Hh0. }
  destruct (write_loop _ fi s0 _ _ _ buf) as [[s1 l]|] eqn:Hloop;
    simplify_eq/=.
  pose proof (write_loop_loc _ _ _ _ _ _ _ _ _ Hloop ltac:(lia)) as Hl.
  apply write_loop_keeps in Hloop as (c' & d' & ->). simpl in Hwrite.
  rewrite Hh0, Hh in Hwrite. simpl in Hwrite.
  rewrite Hfs0, list_lookup_insert_eq in Hwrite by done. simpl in Hwrite.
  apply at_Z_Some in Hh as [Hfd Hh'].
  assert (∀ s2 ff,
            size ff = Z.max (size f) l →
            files s2 = <[fi := ff]> (files s) → nbFiles s2 = nbFiles s →
            isOn s2 = isOn s →
            handles s2 = <[Z.to_nat fd := {| file := file h; loc := l;
                                             status := status h |}]>
                           (handles s) →
            cursor_inv d s2) as Hfinal.
  { intros s2 ff Hsff Hfs2 Hnb2 Hon2 Hhs2. split_and!; [| |congruence].
    - eapply sizes_ok_insert; [done| |done]. lia.
    - eapply (cursors_ok_grow s s2 fi f ff); [done|done|lia|done|done|].
      intros fd' h' Hh2 _. rewrite Hhs2 in Hh2.
      apply at_Z_insert_cases in Hh2 as [[-> ->]|[Hne Hat]];
        [|by left|done].
      right. simpl. split_and!; [done|done|lia|lia]. }
  case_bool_decide; injection Hwrite as <- <-.
  - eapply Hfinal; simpl; [|by rewrite list_insert_insert_eq|done..|].
    + simpl. lia.
    + by rewrite Hh0.
  - eapply (Hfinal _ f0); simpl; [lia|done..|]. by rewrite Hh0.
Qed.

Lemma seek_cursor_inv (fd pos : Z) (s s' : state) (r : Z) :
  cursor_inv d s → 0 ≤ pos ≤ 4294967295 →
  block_seek fd pos s = Some (s', r) → cursor_inv d s'.
Proof.
  intros Hinv Hpos Hseek. pose proof Hinv as (Hsz & Hcur & Hboot).
  unfold block_seek in Hseek.
  destruct (at_Z (handles s) fd) as [h|] eqn:Hh; simplify_eq/=.
  destruct (status h) eqn:Hst.
  { by injection Hseek as <- <-. }
  pose proof (open_handle_on s fd h Hinv Hh Hst) as Hon.
  destruct (Hcur fd h Hh Hst) as (fi & f & Hfile & Hfi & Hf & Hloc).
  pose proof (Hsz fi f Hf) as Hsf.
  rewrite Hfile in Hseek. simpl in Hseek. rewrite Hf in Hseek.
  simpl in Hseek.
  replace (u32 (size f)) with (size f) in Hseek
    by (unfold u32; rewrite Z.mod_small; lia).
  case_bool_decide; injection Hseek as <- <-; [done|].
  replace (s32 pos) with pos by (unfold s32; rewrite Z.mod_small; lia).
  apply at_Z_Some in Hh as [Hfd Hh'].
  split_and!; [done| |simpl; congruence].
  intros fd' h' Hat Hst'. simpl in *.
  apply at_Z_insert_cases in Hat as [[-> ->]|[Hne Hat]]; [| |done].
  - exists fi, f. split_and!; [done..|simpl; lia|simpl; lia].
  - by apply (Hcur fd' h').
Qed.

Lemma poweron_cursor_inv (s : state) :
  cursor_inv d s → cursor_inv d (fst (block_poweron s)).
Proof.
  intros (Hsz & Hcur & Hboot).
  destruct (isOn s) eqn:Hon.
  { unfold block_poweron. rewrite Hon. simpl.
    split_and!; [done|done|intros ?; congruence]. }
  rewrite (Hboot eq_refl). unfold block_poweron.
  change (isOn (boot d)) with false.
  destruct (init_block_cache (bcache (boot d))) as [c r].
  assert (∀ (r : Z) (a b : state * Z),
            fst a = fst b → fst (if bool_decide (r = -1) then a else b) = fst a)
    as Hfst by (intros ? ? ? ?; by case_bool_decide).
  rewrite Hfst by done. simpl. split_and!; [| |done].
  - intros i f Hf. simpl in Hf.
    by apply (proj1 (Forall_lookup _ _) Hmeta i f).
  - intros fd h Hh Hst. simpl in Hh. apply at_Z_Some in Hh as [_ Hh].
    apply lookup_replicate in Hh as [-> _]. done.
Qed.

Lemma poweroff_cursor_inv (s s' : state) (r : Z) :
  cursor_inv d s → block_poweroff s = Some (s', r) → cursor_inv d s'.
Proof.
  intros (Hsz & Hcur & Hboot). unfold block_poweroff.
  destruct (isOn s) eqn:Hon; simpl;
    [|intros [= <- <-]; split_and!; [done|done|intros _; by apply Hboot]].
  destruct (close_block_cache (bcache s)) as [[c r0]|] eqn:Hclose; simpl;
    [|done].
  apply close_block_cache_inv in Hclose as [(-> & -> & _)|(-> & _)].
  - rewrite bool_decide_eq_true_2 by done. intros [= <- <-].
    rewrite set_bcache_same. split_and!; [done|done|simpl; congruence].
  - rewrite bool_decide_eq_false_2 by done. intros [= <- <-].
    split_and!; [done| |simpl; congruence].
    intros fd h Hh Hst. simpl in Hh. apply at_Z_Some in Hh as [_ Hh].
    unfold closeAllFiles in Hh. rewrite list_lookup_fmap in Hh.
    destruct (handles s !! Z.to_nat fd); [|done].
    simpl in Hh. by injection Hh as <-.
Qed.

Lemma exec_cursor_inv (c : call) (s s' : state) :
  cursor_inv d s → typed c → exec c s = Some s' → cursor_inv d s'.
Proof.
  intros Hinv Hty Hex. destruct c as [| |path|fd|fd buf n|fd buf n|fd pos];
    simpl in Hex, Hty.
  - injection Hex as <-. by apply poweron_cursor_inv.
  - apply fmap_Some in Hex as ([s1 r] & Hoff & ->). simpl.
    by eapply poweroff_cursor_inv.
  - destruct (block_open path s) as [[s1 r]|] eqn:Hop; simplify_eq/=.
    by eapply open_cursor_inv.
  - destruct (block_close fd s) as [[s1 r]|] eqn:Hop; simplify_eq/=.
    by eapply close_cursor_inv.
  - destruct (block_read fd buf n s) as [[[s1 r] b]|] eqn:Hop; simplify_eq/=.
    by eapply read_cursor_inv.
  - destruct (block_write fd buf n s) as [[s1 r]|] eqn:Hop; simplify_eq/=.
    by eapply write_cursor_inv.
  - destruct (block_seek fd pos s) as [[s1 r]|] eqn:Hop; simplify_eq/=.
    eapply seek_cursor_inv; [done| |done]. lia.
Qed.

End Steps.

(** X23.  In every state that calls with arguments of their C types reach
    from the start of the program, on a device whose metadata frames hold
    sizes that are non-negative [int32_t] values, an open handle exists only
    while the power flag is set, it is bound to a file table entry in use,
    and its cursor is between 0 and the size of the file; and every size in
    the file table is a non-negative [int32_t]. *)
Theorem cursor_within_file (d : device_t) (l : list call) (s : state) :
  Forall (λ f, 0 ≤ size f ≤ 2147483647) (load_files d) →
  Forall typed l →
  exec_all l (boot d) = Some s →
  (∀ fd h, at_Z (handles s) fd = Some h → status h = OPEN →
     isOn s = true
     ∧ ∃ fi f, file h = Some fi ∧ Z.of_nat fi < nbFiles s
               ∧ files s !! fi = Some f
               ∧ 0 ≤ loc h ≤ size f)
  ∧ ∀ i f, files s !! i = Some f → 0 ≤ size f ≤ 2147483647.
Proof.
  intros Hmeta Hl Hrun.
  assert (cursor_inv d s) as Hinv.
  { pose proof (boot_cursor_inv d) as Hinv. revert Hinv Hrun.
    generalize (boot d).
    induction Hl as [|c l Hc Hl IH]; intros s0 Hinv Hrun; simpl in Hrun.
    - by injection Hrun as <-.
    - destruct (exec c s0) as [s1|] eqn:Hex; simplify_eq/=.
      apply (IH s1); [|done]. by eapply exec_cursor_inv. }
  split; [|by destruct Hinv].
  intros fd h Hh Hst. split; [by eapply open_handle_on|].
  destruct Hinv as (_ & Hcur & _). by apply (Hcur fd h).
Qed.

End Cursor.

Lemma cursor_within_file_witness :
  isOn sample_ran = true
  ∧ ∃ fi f, Some 0%nat = Some fi ∧ Z.of_nat fi < nbFiles sample_ran
            ∧ files sample_ran !! fi = Some f
            ∧ 0 ≤ 0 ≤ size f.
Proof.
  refine (proj1 (cursor_within_file (P:=sample_params) sample_device
                   sample_run sample_ran _ _ _) 1
            {| file := Some 0%nat; loc := 0; status := OPEN |} eq_refl eq_refl).
  - apply (bool_decide_unpack _). by_computation.
  - repeat constructor; by_computation.
  - vm_compute. reflexivity.
Defined.

(** ** Frame writes *)

Section DeviceWrites.
Context `{P : BlockParams}.
Hypothesis HFS : 0 < BLOCK_FRAME_SIZE.

Lemma spans_step (loc remaining : Z) :
  0 ≤ loc → 0 < remaining →
  let ds := chunk (Z.rem loc BLOCK_FRAME_SIZE) remaining in
  spans loc remaining = 1 + spans (loc + ds) (remaining - ds).
Proof.
  intros Hloc Hrem ds.
  destruct (chunk_bounds HFS loc remaining Hloc Hrem)
    as (Hoff & _ & Hrange & Hds & Hfit).
  fold ds in Hds, Hfit. rewrite Hoff in Hfit.
  pose proof (Z.div_mod loc BLOCK_FRAME_SIZE (frame_size_ne HFS)) as Hl.
  pose proof (Z.mod_pos_bound loc BLOCK_FRAME_SIZE HFS) as Hm.
  unfold spans. rewrite (bool_decide_eq_false_2 (remaining ≤ 0)) by lia.
  assert (ds = remaining
          ∨ (ds = BLOCK_FRAME_SIZE - loc `mod` BLOCK_FRAME_SIZE
             ∧ ds ≤ remaining)) as [Hcase|[Hcase Hle]].
  { unfold ds, chunk. rewrite Hoff. case_bool_decide; lia. }
  - rewrite Hcase, Z.sub_diag, bool_decide_eq_true_2 by lia.
    assert ((loc + remaining - 1) `div` BLOCK_FRAME_SIZE
            = loc `div` BLOCK_FRAME_SIZE) as ->; [|lia].
    symmetry.
    apply (Z.div_unique _ _ _ (loc `mod` BLOCK_FRAME_SIZE + remaining - 1));
      lia.
  - assert ((loc + ds) `div` BLOCK_FRAME_SIZE
            = loc `div` BLOCK_FRAME_SIZE + 1) as Hnext.
    { symmetry. apply (Z.div_unique _ _ _ 0); lia. }
    case_bool_decide as Hlast.
    + assert ((loc + remaining - 1) `div` BLOCK_FRAME_SIZE
              = loc `div` BLOCK_FRAME_SIZE) as ->; [|lia].
      symmetry.
      apply (Z.div_unique _ _ _ (BLOCK_FRAME_SIZE - 1)); lia.
    + rewrite Hnext.
      replace (loc + ds + (remaining - ds) - 1) with (loc + remaining - 1)
        by lia.
      lia.
Qed.

(** The frame writes that the write loop issues. *)
Lemma write_loop_log (fi : nat) (buf : list Z) (fuel : nat) :
  ∀ (s s' : state) (loc remaining bufOffset l : Z) (f : file_t),
  write_loop fuel fi s loc remaining bufOffset buf = Some (s', l) →
  files s !! fi = Some f → 0 ≤ loc →
  ∃ new,
    wlog (device s') = new ++ wlog (device s)
    ∧ media (device s') = media (device s)
    ∧ Z.of_nat (length new) = spans loc remaining
    ∧ Forall (λ e, e.1 ∈ frames f) new.
Proof.
  induction fuel as [|fuel IH]; intros s s' loc remaining bufOffset l f Hloop Hf
    Hloc; cbn [write_loop] in Hloop; case_bool_decide.
  - done.
  - injection Hloop as <- <-. exists []. unfold spans.
    by rewrite bool_decide_eq_true_2 by lia.
  - rewrite Hf in Hloop. simpl in Hloop.
    destruct (at_Z (frames f) _) as [g|] eqn:Hg; simplify_eq/=.
    destruct (load_frame false g s) as [[s1 fr]|] eqn:Hload; simplify_eq/=.
    destruct (memcpy fr _ buf _ _) as [fr'|] eqn:Hcopy; simplify_eq/=.
    destruct (put_block_cache 0 g fr' (bcache s1)) as [[c2 r]|]; simplify_eq/=.
    destruct (i32 _) as [loc1|] eqn:Hloc1; simplify_eq/=.
    apply load_frame_frame in Hload as [c1 ->].
    apply memcpy_inv in Hcopy as (Hn & _).
    unfold i32 in Hloc1. case_bool_decide; simplify_eq/=.
    apply (IH _ _ _ _ _ _ f) in Hloop as (new & Hlog & Hmedia & Hlen & Hin);
      [|done|lia].
    simpl in Hlog, Hmedia.
    exists (new ++ [(g, fr')]). split; [by rewrite <- app_assoc|].
    split; [done|]. split.
    + rewrite length_app. simpl. rewrite (spans_step loc remaining) by lia.
      lia.
    + apply Forall_app. split; [done|]. constructor; [|done]. simpl.
      apply at_Z_Some in Hg as [_ Hg]. by eapply list_elem_of_lookup_2.
  - injection Hloop as <- <-. exists []. unfold spans.
    by rewrite bool_decide_eq_true_2 by lia.
Qed.

(** X24.  A call of [block_write] that does not return -1 issues one frame
    write for each frame that the [count] bytes from the cursor on lie in, no
    more and no fewer, each to a frame of the file, and changes the device in
    no other way. *)
Theorem block_write_device_writes (fd : Z) (buf : list Z) (count : Z)
    (s s' : state) (r : Z) (h : fh_t) (fi : nat) (f : file_t) :
  open_on s fd h fi f → 0 ≤ loc h →
  block_write fd buf count s = Some (s', r) → r ≠ -1 →
  ∃ new f',
    wlog (device s') = new ++ wlog (device s)
    ∧ media (device s') = media (device s)
    ∧ Z.of_nat (length new) = spans (loc h) count
    ∧ files s' !! fi = Some f'
    ∧ Forall (λ e, e.1 ∈ frames f') new.
Proof.
  intros (Hh & Hst & Hfile & Hf) Hloc Hwrite Hr.
  unfold block_write in Hwrite. rewrite Hh in Hwrite. simpl in Hwrite.
  rewrite Hst, Hfile in Hwrite. simpl in Hwrite.
  destruct (allocateNewFrames fd count s) as [[s0 r0]|] eqn:Halloc;
    simplify_eq/=.
  assert (device s0 = device s ∧ ∃ f0, files s0 !! fi = Some f0)
    as (Hd0 & f0 & Hf0).
  { unfold allocateNewFrames in Halloc. rewrite Hh in Halloc.
    simpl in Halloc. rewrite Hfile in Halloc. simpl in Halloc.
    rewrite Hf in Halloc. simpl in Halloc.
    repeat case_bool_decide; injection Halloc as <- <-;
      try (split; [done|by exists f]).
    simpl. split; [done|]. eexists.
    apply list_lookup_insert_eq. by eapply lookup_lt_Some. }
  case_bool_decide; simplify_eq/=.
  destruct (write_loop _ fi s0 _ _ _ buf) as [[s1 l]|] eqn:Hloop;
    simplify_eq/=.
  destruct (write_loop_log _ _ _ _ _ _ _ _ _ f0 Hloop Hf0 Hloc)
    as (new & Hlog & Hmedia & Hlen & Hin).
  apply write_loop_keeps in Hloop as (c' & d' & ->). simpl in *.
  destruct (at_Z (handles s0) fd) as [h1|]; simplify_eq/=.
  rewrite Hf0 in Hwrite. simpl in Hwrite. rewrite Hd0 in Hlog, Hmedia.
  case_bool_decide; injection Hwrite as <- <-; simpl.
  - exists new. eexists. split; [done|]. split; [done|]. split; [done|].
    split; [apply list_lookup_insert_eq; by eapply lookup_lt_Some|done].
  - exists new, f0. by split_and!.
Qed.

End DeviceWrites.

Lemma block_write_device_writes_witness :
  ∃ new f',
    wlog (device sample_state_written) = new ++ wlog (device sample_state)
    ∧ media (device sample_state_written) = media (device sample_state)
    ∧ Z.of_nat (length new) = spans (P:=sample_params) 2 10
    ∧ files sample_state_written !! 0%nat = Some f'
    ∧ Forall (λ e, e.1 ∈ frames f') new.
Proof.
  apply (block_write_device_writes (P:=sample_params) sample_frame_size
           0 (seqZ 1 10) 10 sample_state sample_state_written 10
           {| file := Some 0%nat; loc := 2; status := OPEN |} 0%nat
           {| name := "ab"; size := 5; frames := [3] |} sample_open_on).
  - simpl. lia.
  - vm_compute. reflexivity.
  - lia.
Defined.

(** ** Restart *)

Section Persistence.
Context `{P : BlockParams}.
Hypothesis HFS : 0 < BLOCK_FRAME_SIZE.

Lemma first_match_unique (fs : list file_t) (n : nat) (path : string)
    (i j : nat) :
  first_match fs n path i → first_match fs n path j → i = j.
Proof.
  intros (_ & (fi & Hfi & Hpi) & Hbi) (_ & (fj & Hfj & Hpj) & Hbj).
  destruct (Nat.lt_trichotomy i j) as [Hlt|[->|Hlt]]; [|done|].
  - by destruct (Hbj i fi Hlt Hfi).
  - by destruct (Hbi j fj Hlt Hfj).
Qed.

(** X25.  The contents of a file survive a restart.  [block_poweroff] on a
    driver that is on, with the cache initialized and its array of
    [block_cache_max_items] slots, returns 0; after the start of a new
    program on the device that it leaves, [block_poweron] and [block_open]
    with a path that the file is the first to match return 0 and handle 0,
    and [block_read] returns the bytes that the file had before, provided
    that the file table entries survive the copy through a frame and that
    the frames of the file lie behind the frames that hold the file
    table. *)
Theorem data_survives_restart (s : state) (path : string) (i : nat)
    (f : file_t) (buf : list Z) (count : Z) :
  isOn s = true → cacheOn (bcache s) = true →
  length (cache (bcache s)) = Z.to_nat (block_cache_max_items (bcache s)) →
  length (files s) = BLOCK_MAX_TOTAL_FILES →
  Forall (λ f, file_of_frame (frame_of_file f) = f
               ∧ length (frame_of_file f) = Z.to_nat BLOCK_FRAME_SIZE)
    (files s) →
  device_ok (device s) → 0 < DEFAULT_BLOCK_FRAME_CACHE_SIZE →
  0 ≤ getNbFiles (files s) ≤ Z.of_nat BLOCK_MAX_TOTAL_FILES →
  first_match (files s) (Z.to_nat (getNbFiles (files s))) path i →
  files s !! i = Some f → file_ok f →
  Forall (λ g, Z.of_nat BLOCK_MAX_TOTAL_FILES ≤ g) (frames f) →
  0 ≤ count → Z.min count (size f) ≤ Z.of_nat (length buf) →
  ∃ s1,
    block_poweroff s = Some (s1, 0)
    ∧ snd (block_poweron (boot (device s1))) = 0
    ∧ ∃ s3 s4 buf',
        block_open path (fst (block_poweron (boot (device s1)))) = Some (s3, 0)
        ∧ block_read 0 buf count s3 = Some (s4, Z.min count (size f), buf')
        ∧ ∀ j : nat, Z.of_nat j < Z.min count (size f) →
            buf' !! j = file_byte f (device s) (Z.of_nat j).
Proof.
  intros Hon Hcache Hslots Hlen Hcodec Hdev Hdef Hnb Hmatch Hf Hok Hdata
    Hcount Hbuf.
  assert (0 < Z.of_nat BLOCK_MAX_TOTAL_FILES) as Hroom
    by (destruct Hmatch as [? _]; lia).
  eexists. split; [by apply block_poweroff_on|].
  cbn [fst snd device].
  set (d1 := save_files (files s) 0 (device s)).
  assert (load_files d1 = files s) as Hload.
  { apply load_files_saved; [done|].
    eapply Forall_impl; [exact Hcodec|]. by intros ? [? _]. }
  assert (block_poweron (boot d1)
          = ({| isOn := true; nbFiles := getNbFiles (files s); nbHandles := 0;
                freeFrameNr := getFreeFrame (files s); files := files s;
                handles := replicate BLOCK_MAX_TOTAL_FILES zero_handle;
                bcache := fst (init_block_cache cache_boot);
                device := d1 |}, 0)) as ->.
  { unfold block_poweron, boot. simpl. by rewrite Hload. }
  cbn [fst snd]. split; [done|].
  set (s2 := {| isOn := true; nbFiles := getNbFiles (files s); nbHandles := 0;
                freeFrameNr := getFreeFrame (files s); files := files s;
                handles := replicate BLOCK_MAX_TOTAL_FILES zero_handle;
                bcache := fst (init_block_cache cache_boot);
                device := d1 |}).
  assert (device_ok d1) as Hdev1.
  { intros n. unfold d1. rewrite save_files_frame.
    case_bool_decide; [|done].
    destruct (files s !! Z.to_nat (n - 0)) as [fn|] eqn:Hfn; [|done].
    by apply (proj1 (Forall_lookup _ _) Hcodec _ _ Hfn). }
  assert (0 ≤ putTracker cache_boot < 65536) as Hpt0 by (simpl; lia).
  destruct (init_block_cache_ok cache_boot (Z.lt_le_incl _ _ HFS) eq_refl
              Hdef Hpt0) as (Hcok & Hcoh & Huniq).
  set (s3 := set_nbHandles
               (set_handles s2 (<[0%nat := openFile i]> (handles s2))) 1).
  assert (block_open path s2 = Some (s3, 0)) as Hopen.
  { unfold block_open. simpl.
    destruct (search_file_from (files s) path
                (Z.to_nat (getNbFiles (files s))) 0)
      as [(j & Hs & Hj)|[_ Hnone]]; [lia|intros k fk Hk; lia| |].
    - rewrite Hs. simpl.
      rewrite (first_match_unique _ _ _ _ _ Hj Hmatch).
      rewrite set_Z_Some by (rewrite length_replicate; lia). done.
    - destruct Hmatch as (Hlt & (fi & Hfi & Hpre) & _).
      by destruct (Hnone i fi). }
  destruct (block_read_spec HFS 0 buf count s3 (openFile i) i f)
    as (c' & buf' & Hread & _ & _ & Hout).
  { done. }
  { split_and!; try done. simpl. unfold at_Z. simpl.
    apply list_lookup_insert_eq. rewrite length_replicate. lia. }
  { done. }
  { by split_and!. }
  { destruct Hok as (_ & ? & _). simpl. lia. }
  { done. }
  { simpl. by rewrite Z.sub_0_r. }
  simpl in Hread, Hout. rewrite Z.sub_0_r in Hread, Hout.
  exists s3. eexists _, buf'. split; [done|]. split; [exact Hread|].
  intros j Hj. rewrite Hout, bool_decide_eq_true_2 by done.
  unfold file_byte. destruct (at_Z (frames f) _) as [g|] eqn:Hg; [|done].
  simpl. apply at_Z_Some in Hg as [_ Hg].
  apply (proj1 (Forall_lookup _ _) Hdata) in Hg.
  unfold d1. rewrite save_files_frame.
  rewrite lookup_ge_None_2 by lia. by case_bool_decide.
Qed.

End Persistence.

Lemma data_survives_restart_witness :
  ∃ s1 s3 s4 buf',
    block_poweroff (P:=sample_params) sample_state = Some (s1, 0)
    ∧ block_open "ab"
        (fst (block_poweron (P:=sample_params)
                (boot (P:=sample_params) (device s1)))) = Some (s3, 0)
    ∧ block_read (P:=sample_params) 0 (replicate 8 7) 8 s3
      = Some (s4, Z.min 8 5, buf')
    ∧ ∀ j : nat, Z.of_nat j < Z.min 8 5 →
        buf' !! j
        = file_byte (P:=sample_params)
            {| name := "ab"; size := 5; frames := [3] |}
            (device sample_state) (Z.of_nat j).
Proof.
  destruct (data_survives_restart (P:=sample_params)
              sample_frame_size sample_state "ab" 0
              {| name := "ab"; size := 5; frames := [3] |} (replicate 8 7) 8)
    as (s1 & Hoff & _ & s3 & s4 & buf' & Hopen & Hread & Hbytes).
  - reflexivity.
  - reflexivity.
  - reflexivity.
  - reflexivity.
  - repeat constructor.
  - intros n. reflexivity.
  - by_computation.
  - by_computation.
  - split; [vm_compute; lia|]. split; [|intros k fk Hk; lia].
    eexists. split; [reflexivity|]. by exists "".
  - reflexivity.
  - exact sample_file_ok.
  - repeat constructor. by_computation.
  - by_computation.
  - by_computation.
  - by exists s1, s3, s4, buf'.
Defined.
